(** * aircn: the editable data table

    A shallow embedding of the table model of the repository:
    - [lib/column-types]: the column types, their labels, default values
      and the display formatter [formatCellValue];
    - [components/data-table]: the component state ([columnConfigs],
      [rows], [sorting], ...), its event handlers ([handleDialogSubmit],
      [handleQuickAdd], the [columnActions], [handleAddRow],
      [handleDeleteSelectedRows]) and [computeAggregate];
    - [components/cell-editors]: what the editors show and hand on.

    Conventions of the embedding.
    - A JavaScript string is a [string]: the bytes of its UTF-8 encoding.
    - A cell value ([unknown] in the source) is a [Value]: undefined,
      null, a boolean, an integral number, a string, or any other value
      (a number that is no such integer, an array, an object, a
      function) given by what the table can observe of it.  The numbers
      that [computeAggregate] works on are kept apart, behind the
      interface [Arith].
    - A row ([Record<string, unknown>]) is a plain object: a finite map
      from keys to values for its own properties (an own property
      holding [undefined] is an entry of the map), read through
      [Object.prototype] where it has no own property.
    - React state is one record [State]; a handler is a function from the
      state it closes over to the next state (every [setX] of one handler
      applied at once, as React does between two events). *)

From Stdlib Require Import Ascii String QArith Lqa PrimFloat Uint63 FloatOps
  SpecFloat.
From stdpp Require Import base list gmap strings pretty sorting.


(* ===================================================================== *)
(** * Definitions *)
(* ===================================================================== *)

(** ** JavaScript values and built-ins used by the table *)
Module JS.

(** The values of a cell.  [VNum z] is the integral number [z]: the
    binary64 number nearest to [z], which is [z] itself up to 2^53 in
    magnitude.  [VOther truthy shown] is any value of another kind: a
    number that is not integral ([NaN], 0.5, -0), an array, an object or
    a function.  The table observes such a value through [Boolean],
    which gives [truthy], through [String], which gives [shown] (values
    for which [String] throws are left out), through the host's
    [Number], and by comparing it with [null], [undefined] and [""],
    none of which it is. *)
Inductive Value : Type :=
| VUndefined
| VNull
| VBool (b : bool)
| VNum (z : Z)
| VStr (s : string)
| VOther (truthy : bool) (shown : string).

#[global] Instance Value_eq_dec : EqDecision Value.
Proof. solve_decision. Defined.

Abbreviation Row := (gmap string Value).

(** *** Number::toString for integral numbers

    Up to 2^53 in magnitude the digits of the integer.  Beyond, the
    number is the binary64 number [x] nearest to the integer, and its
    string is made of the fewest digits [s] such that [s * 10^(n-k)]
    still rounds to [x]: followed by zeros while the number has at most
    21 digits, in exponent form after that, and [Infinity] from 2^1024
    on. *)

(** The binary64 number nearest to the integer [m >= 0], ties to even:
    [m] rounded to 53 significant bits. *)
Definition nearestDouble (m : Z) : Z :=
  let b := Z.log2 m in
  if (b <=? 52)%Z then m
  else
    let sh := (b - 52)%Z in
    let q := Z.shiftr m sh in
    let r := (m - Z.shiftl q sh)%Z in
    let half := Z.shiftl 1 (sh - 1) in
    let q' := if (half <? r)%Z || ((r =? half)%Z && Z.odd q)
              then (q + 1)%Z else q in
    Z.shiftl q' sh.

(** The multiples of [10^(n-k)] next to [x] that round to [x], if any:
    the nearer one, and of two equally near the one with the even
    [s]. *)
Definition shortestAt (x : Z) (k : Z) : option Z :=
  let nd := Z.of_nat (String.length (pretty x)) in
  let p := (10 ^ (nd - k))%Z in
  let lo := (x / p * p)%Z in
  let hi := (lo + p)%Z in
  match (nearestDouble lo =? x)%Z, (nearestDouble hi =? x)%Z with
  | true, true =>
      Some (if (x - lo <? hi - x)%Z then lo
            else if (hi - x <? x - lo)%Z then hi
            else if Z.even (lo / p) then lo else hi)
  | true, false => Some lo
  | false, true => Some hi
  | false, false => None
  end.

(** The least [k] from [k] on does: 17 digits always do. *)
Fixpoint shortestFrom (fuel : nat) (x : Z) (k : Z) : Z :=
  match fuel with
  | O => x
  | S fuel' =>
      match shortestAt x k with
      | Some v => v
      | None => shortestFrom fuel' x (k + 1)
      end
  end.

Fixpoint dropZeros (s : string) : string :=
  match s with
  | String "0" r => dropZeros r
  | _ => s
  end.

Definition stripTrailingZeros (s : string) : string :=
  String.rev (dropZeros (String.rev s)).

Definition formatDouble (v : Z) : string :=
  let ds := pretty v in
  let n := String.length ds in
  if bool_decide (n ≤ 21) then ds
  else
    match stripTrailingZeros ds with
    | String c EmptyString => String c ("e+" +:+ pretty (n - 1))
    | String c r => String c ("." +:+ r +:+ "e+" +:+ pretty (n - 1))
    | EmptyString => "0"
    end.

Definition numberToString (z : Z) : string :=
  if (Z.abs z <? 2 ^ 53)%Z then pretty z
  else
    let x := nearestDouble (Z.abs z) in
    let sign := if (z <? 0)%Z then "-" else "" in
    if (2 ^ 1024 <=? x)%Z then sign +:+ "Infinity"
    else sign +:+ formatDouble (shortestFrom 17 x 1).

(** [String(v)]. *)
Definition String_ (v : Value) : string :=
  match v with
  | VUndefined => "undefined"
  | VNull => "null"
  | VBool true => "true"
  | VBool false => "false"
  | VNum z => numberToString z
  | VStr s => s
  | VOther _ shown => shown
  end.

(** [Boolean(v)]. *)
Definition Boolean_ (v : Value) : bool :=
  match v with
  | VUndefined | VNull => false
  | VBool b => b
  | VNum z => negb (bool_decide (z = 0%Z))
  | VStr s => negb (bool_decide (s = ""))
  | VOther truthy _ => truthy
  end.

(** [a ?? b]. *)
Definition nullish (a b : Value) : Value :=
  match a with
  | VUndefined | VNull => b
  | _ => a
  end.

(** *** Plain objects

    The objects of the table (rows, the row selection, the aggregate
    modes) are plain objects: what [o[key]] finds when [o] has no own
    property [key] is the property of [Object.prototype], if it has
    one. *)

(** The property names of [Object.prototype]. *)
Definition objectPrototypeNames : list string :=
  [ "constructor"; "hasOwnProperty"; "isPrototypeOf";
    "propertyIsEnumerable"; "toLocaleString"; "toString"; "valueOf";
    "__proto__"; "__defineGetter__"; "__defineSetter__";
    "__lookupGetter__"; "__lookupSetter__" ].

(** [key in Object.prototype]. *)
Definition inObjectPrototype (key : string) : bool :=
  bool_decide (key ∈ objectPrototypeNames).

(** [Object.prototype[key]] as a cell value: [__proto__] reads the
    prototype of the object, which is [Object.prototype] itself,
    [constructor] is the function [Object], each of the other names is
    a function of that name (the text of a built-in function is given
    as V8 prints it), and every other key is [undefined]. *)
Definition inherited (key : string) : Value :=
  if bool_decide (key = "__proto__") then VOther true "[object Object]"
  else if bool_decide (key = "constructor") then
    VOther true "function Object() { [native code] }"
  else if inObjectPrototype key then
    VOther true ("function " +:+ key +:+ "() { [native code] }")
  else VUndefined.

(** [row[key]]: the own property, else what the row inherits. *)
Definition prop (row : Row) (key : string) : Value :=
  match row !! key with
  | Some v => v
  | None => inherited key
  end.

(** [row[key] = v] for a primitive [v] (a string, a boolean).  Without
    an own property [__proto__] the assignment reaches the setter of
    [Object.prototype.__proto__], which ignores a value that is neither
    an object nor [null]: nothing is stored.  Every other key becomes,
    or stays, an own property.  (A computed key in an object literal,
    [{ ...row, [key]: v }], defines an own property whatever the key:
    that is the insertion of the map.) *)
Definition assign (key : string) (v : Value) (row : Row) : Row :=
  if bool_decide (key = "__proto__") && bool_decide (row !! key = None)
  then row
  else <[key := v]> row.

(** [keys.includes(x)]. *)
Definition includes (x : string) (keys : list string) : bool :=
  bool_decide (x ∈ keys).

(** [keys.indexOf(x)], [-1] when absent. *)
Fixpoint indexOf (x : string) (keys : list string) : Z :=
  match keys with
  | [] => (-1)%Z
  | k :: ks =>
      if decide (k = x) then 0%Z
      else let i := indexOf x ks in
           if decide (i = (-1)%Z) then (-1)%Z else (i + 1)%Z
  end.

(** The relative index of [Array.prototype.slice]: negative indices
    count from the end, and everything is clamped to [0 .. len]. *)
Definition relIndex (len : nat) (i : Z) : nat :=
  if decide (i < 0)%Z then Z.to_nat (Z.max (Z.of_nat len + i) 0)
  else Z.to_nat (Z.min i (Z.of_nat len)).

(** [l.slice(from, to)] and [l.slice(from)]. *)
Definition slice {A} (from to : Z) (l : list A) : list A :=
  let s := relIndex (length l) from in
  let e := relIndex (length l) to in
  take (e - s) (drop s l).

Definition sliceFrom {A} (from : Z) (l : list A) : list A :=
  drop (relIndex (length l) from) l.

(** [l.find(p)]. *)
Definition find {A} (p : A → bool) (l : list A) : option A :=
  List.find p l.

(** *** Strings *)

Definition code (c : ascii) : N := N_of_ascii c.

Definition isDigit (c : ascii) : bool :=
  ((48 <=? code c) && (code c <=? 57))%N.

(** [s.replace(/\D/g, "")]. *)
Fixpoint stripNonDigits (s : string) : string :=
  match s with
  | EmptyString => EmptyString
  | String c r =>
      if isDigit c then String c (stripNonDigits r) else stripNonDigits r
  end.

(** [s.slice(from, to)] and [s.slice(from)] for [0 <= from <= to]. *)
Definition strSlice (from to : nat) (s : string) : string :=
  substring from (to - from) s.

Definition strSliceFrom (from : nat) (s : string) : string :=
  substring from (String.length s - from) s.

(** [s.startsWith(p)]. *)
Definition startsWith (p s : string) : bool :=
  String.prefix p s.

(** White space and line terminators of ECMAScript, as UTF-8 byte
    sequences: one byte (TAB, LF, VT, FF, CR, SP), two bytes (U+00A0),
    three bytes (U+1680, U+2000..U+200A, U+2028, U+2029, U+202F,
    U+205F, U+3000, U+FEFF). *)
Definition isWs1 (c : ascii) : bool :=
  (((9 <=? code c) && (code c <=? 13)) || (code c =? 32))%N.

Definition isWs2 (c1 c2 : ascii) : bool :=
  ((code c1 =? 194) && (code c2 =? 160))%N.

Definition isWs3 (c1 c2 c3 : ascii) : bool :=
  (((code c1 =? 225) && (code c2 =? 154) && (code c3 =? 128))
   || ((code c1 =? 226) && (code c2 =? 128)
       && (((128 <=? code c3) && (code c3 <=? 138))
           || (code c3 =? 168) || (code c3 =? 169) || (code c3 =? 175)))
   || ((code c1 =? 226) && (code c2 =? 129) && (code c3 =? 159))
   || ((code c1 =? 227) && (code c2 =? 128) && (code c3 =? 128))
   || ((code c1 =? 239) && (code c2 =? 187) && (code c3 =? 191)))%N.

(** Drop the white space at the front of [s]; [fwd] tells whether the
    bytes of [s] are in reading order or reversed. *)
Fixpoint dropWs (fwd : bool) (s : string) : string :=
  match s with
  | EmptyString => EmptyString
  | String c1 r1 =>
      if isWs1 c1 then dropWs fwd r1
      else
        match r1 with
        | EmptyString => s
        | String c2 r2 =>
            if (if fwd then isWs2 c1 c2 else isWs2 c2 c1) then dropWs fwd r2
            else
              match r2 with
              | EmptyString => s
              | String c3 r3 =>
                  if (if fwd then isWs3 c1 c2 c3 else isWs3 c3 c2 c1)
                  then dropWs fwd r3
                  else s
              end
        end
  end.

(** [s.trim()]. *)
Definition trim (s : string) : string :=
  String.rev (dropWs false (String.rev (dropWs true s))).

End JS.
Export JS.

(** ** lib/column-types *)
Module ColumnTypes.

Inductive ColumnType : Type :=
| text | long_text | checkbox | select | date
| number | phone | email | currency | percent.

#[global] Instance ColumnType_eq_dec : EqDecision ColumnType.
Proof. solve_decision. Defined.

Definition COLUMN_TYPES : list ColumnType :=
  [text; long_text; checkbox; select; date;
   number; phone; email; currency; percent].

Record ColumnConfig : Type := mkColumnConfig {
  key : string;
  type : ColumnType;
  options : option (list string)
}.

#[global] Instance ColumnConfig_eq_dec : EqDecision ColumnConfig.
Proof. solve_decision. Defined.

Definition COLUMN_TYPE_LABELS (t : ColumnType) : string :=
  match t with
  | text => "Text"
  | long_text => "Long text"
  | checkbox => "Checkbox"
  | select => "Select"
  | date => "Date"
  | number => "Number"
  | phone => "Phone number"
  | email => "Email"
  | currency => "Currency"
  | percent => "Percent"
  end.

Definition getDefaultValue (t : ColumnType) : Value :=
  match t with
  | checkbox => VBool false
  | number | currency | percent => VStr ""
  | _ => VStr ""
  end.

(** What [formatCellValue] asks of the host: parsing a value as a
    number or a date and the locale-dependent renderings.  [None] is
    [NaN], respectively an invalid date. *)
Class Host : Type := {
  num : Type;
  calendar : Type;
  Number_ : Value → option num;
  numToString : num → string;
  toLocaleString : num → string;
  toLocaleFixed2 : num → string;
  parseDate : string → option calendar;
  toLocaleDateString : calendar → string
}.

Definition formatCellValue `{Host} (value : Value) (t : ColumnType) : string :=
  if bool_decide (value = VUndefined ∨ value = VNull ∨ value = VStr "")
  then ""
  else
    match t with
    | currency =>
        match Number_ value with
        | None => String_ value
        | Some n => "$" +:+ toLocaleFixed2 n
        end
    | percent =>
        match Number_ value with
        | None => String_ value
        | Some n => numToString n +:+ "%"
        end
    | phone =>
        let digits := stripNonDigits (String_ value) in
        if bool_decide (String.length digits = 10) then
          "(" +:+ strSlice 0 3 digits +:+ ") " +:+ strSlice 3 6 digits
              +:+ "-" +:+ strSliceFrom 6 digits
        else if bool_decide (String.length digits = 11)
                && startsWith "1" digits then
          "+1 (" +:+ strSlice 1 4 digits +:+ ") " +:+ strSlice 4 7 digits
                 +:+ "-" +:+ strSliceFrom 7 digits
        else String_ value
    | date =>
        match parseDate (String_ value) with
        | None => String_ value
        | Some d => toLocaleDateString d
        end
    | number =>
        match Number_ value with
        | None => String_ value
        | Some n => toLocaleString n
        end
    | _ => String_ value
    end.

(** A host in which nothing parses as a number or as a date: enough to
    run the branches of [formatCellValue] that do not ask the host. *)
Definition noHost : Host := {|
  num := Empty_set;
  calendar := Empty_set;
  Number_ := λ _, None;
  numToString := λ n, match n with end;
  toLocaleString := λ n, match n with end;
  toLocaleFixed2 := λ n, match n with end;
  parseDate := λ _, None;
  toLocaleDateString := λ d, match d with end
|}.

End ColumnTypes.
Export ColumnTypes.

(** ** components/data-table *)
Module DataTable.

Inductive Side : Type := SideLeft | SideRight.

Inductive PendingAction : Type :=
| PEdit (key : string)
| PInsert (key : string) (side : Side).

Inductive AggregateMode : Type := ModeSum | ModeAverage | ModeMedian.

(** One entry of the sorting state of the table library. *)
Record ColumnSort : Type := mkColumnSort { sortId : string; desc : bool }.

(** *** computeAggregate

    The arithmetic of [number] is what [Arith] names.  The numbers of the
    code are the IEEE binary64 numbers, [float_Arith]; the function is
    written once, so that it can also be read in exact rational
    arithmetic, [Q_Arith], which is what the code would compute if no
    operation rounded. *)
Class Arith (T : Type) : Type := {
  nOfNat : nat → T;
  nAdd : T → T → T;
  nSub : T → T → T;
  nDiv : T → T → T;
  (** [x > 0] *)
  nPos : T → bool
}.

#[global] Instance Q_Arith : Arith Q := {|
  nOfNat := λ n, inject_Z (Z.of_nat n);
  nAdd := Qplus;
  nSub := Qminus;
  nDiv := Qdiv;
  nPos := λ x, negb (Qle_bool x 0)
|}.

#[global] Instance float_Arith : Arith float := {|
  nOfNat := λ n, PrimFloat.of_uint63 (Uint63.of_Z (Z.of_nat n));
  nAdd := PrimFloat.add;
  nSub := PrimFloat.sub;
  nDiv := PrimFloat.div;
  nPos := λ x, PrimFloat.ltb 0%float x
|}.

(** [l.sort(cmp)]: the stable sort by a comparator, which puts [a]
    after [b] exactly when [cmp(a, b) > 0]. *)
Fixpoint insertBy {T} `{Arith T} (cmp : T → T → T) (x : T) (l : list T)
    : list T :=
  match l with
  | [] => [x]
  | y :: l' =>
      if nPos (cmp x y) then y :: insertBy cmp x l' else x :: y :: l'
  end.

Definition sortBy {T} `{Arith T} (cmp : T → T → T) (l : list T) : list T :=
  foldr (insertBy cmp) [] l.

(** [l[i]] on numbers, where the index is in range. *)
Definition at_ {T} `{Arith T} (l : list T) (i : nat) : T :=
  nth i l (nOfNat 0).

Definition computeAggregate {T} `{Arith T} (values : list T)
    (mode : AggregateMode) : T :=
  if bool_decide (length values = 0) then nOfNat 0
  else
    match mode with
    | ModeSum => foldl nAdd (nOfNat 0) values
    | ModeAverage =>
        nDiv (foldl nAdd (nOfNat 0) values) (nOfNat (length values))
    | ModeMedian =>
        let sorted := sortBy (λ a b, nSub a b) values in
        let mid := (length sorted / 2)%nat in
        if bool_decide ((length sorted mod 2)%nat ≠ 0)
        then at_ sorted mid
        else nDiv (nAdd (at_ sorted (mid - 1)) (at_ sorted mid)) (nOfNat 2)
    end.



(** The comparator [(a, b) => a - b] does not put [a] after [b]:
    [a - b > 0] is false. *)
Definition notAfter {T} `{Arith T} (a b : T) : Prop :=
  nPos (nSub a b) = false.

#[global] Instance notAfter_dec {T} `{Arith T} (a b : T) :
  Decision (notAfter a b).
Proof. unfold notAfter. apply _. Defined.

(** The comparator orders the numbers of [l] consistently, which is what
    [Array.prototype.sort] asks of it: of two numbers one is not after
    the other, and "not after" is transitive. *)
Definition consistentOn {T} `{Arith T} (l : list T) : Prop :=
  Forall (λ a,
    Forall (λ b,
      (notAfter a b ∨ notAfter b a)
      ∧ Forall (λ c, notAfter a b → notAfter b c → notAfter a c) l) l) l.

#[global] Instance consistentOn_dec {T} `{Arith T} (l : list T) :
  Decision (consistentOn l).
Proof. unfold consistentOn. apply _. Defined.

(** The comparator tells the numbers of [l] apart: two of them neither
    of which is after the other are one number. *)
Definition separatedOn {T} `{Arith T} (l : list T) : Prop :=
  Forall (λ a, Forall (λ b, notAfter a b → notAfter b a → a = b) l) l.

(** *** The state of the component *)

Record State : Type := mkState {
  columnConfigs : list ColumnConfig;
  rows : list Row;
  sorting : list ColumnSort;
  columnVisibility : gmap string bool;
  rowSelection : gmap string bool;
  aggregateModes : gmap string AggregateMode;
  pendingAction : option PendingAction;
  dialogInput : string;
  dialogType : ColumnType;
  dialogOptions : list string;
  newOptionValue : string
}.

(** The state setters, each taking an updater as in
    [setRows((prev) => ...)]. *)
Definition setColumnConfigs (f : list ColumnConfig → list ColumnConfig)
    (st : State) : State :=
  mkState (f (columnConfigs st)) (rows st) (sorting st) (columnVisibility st)
    (rowSelection st) (aggregateModes st) (pendingAction st)
    (dialogInput st) (dialogType st) (dialogOptions st) (newOptionValue st).

Definition setRows (f : list Row → list Row) (st : State) : State :=
  mkState (columnConfigs st) (f (rows st)) (sorting st) (columnVisibility st)
    (rowSelection st) (aggregateModes st) (pendingAction st)
    (dialogInput st) (dialogType st) (dialogOptions st) (newOptionValue st).

Definition setSorting (f : list ColumnSort → list ColumnSort)
    (st : State) : State :=
  mkState (columnConfigs st) (rows st) (f (sorting st)) (columnVisibility st)
    (rowSelection st) (aggregateModes st) (pendingAction st)
    (dialogInput st) (dialogType st) (dialogOptions st) (newOptionValue st).

Definition setColumnVisibility (f : gmap string bool → gmap string bool)
    (st : State) : State :=
  mkState (columnConfigs st) (rows st) (sorting st) (f (columnVisibility st))
    (rowSelection st) (aggregateModes st) (pendingAction st)
    (dialogInput st) (dialogType st) (dialogOptions st) (newOptionValue st).

Definition setRowSelection (f : gmap string bool → gmap string bool)
    (st : State) : State :=
  mkState (columnConfigs st) (rows st) (sorting st) (columnVisibility st)
    (f (rowSelection st)) (aggregateModes st) (pendingAction st)
    (dialogInput st) (dialogType st) (dialogOptions st) (newOptionValue st).

(** The five pieces of dialog state are always set together. *)
Definition setDialog (action : option PendingAction) (input : string)
    (t : ColumnType) (opts : list string) (newOpt : string)
    (st : State) : State :=
  mkState (columnConfigs st) (rows st) (sorting st) (columnVisibility st)
    (rowSelection st) (aggregateModes st) action input t opts newOpt.

Definition columnKeys (st : State) : list string :=
  key <$> columnConfigs st.

(** *** The dialog *)

Definition openDialog (action : PendingAction)
    (overrideType : option ColumnType) (st : State) : State :=
  match action with
  | PEdit k =>
      let config :=
        JS.find (λ c, bool_decide (key c = k)) (columnConfigs st) in
      setDialog (Some action) k
        (from_option type text config)
        (default [] (config ≫= options)) "" st
  | PInsert _ _ =>
      let t := default text overrideType in
      setDialog (Some action) (COLUMN_TYPE_LABELS t) t [] "" st
  end.

Definition closeDialog (st : State) : State :=
  setDialog None "" text [] "" st.

(** The column the dialog describes:
    [{ key: name, type, options: type === "select" ? opts : undefined }]. *)
Definition dialogColumn (name : string) (t : ColumnType) (opts : list string)
    : ColumnConfig :=
  mkColumnConfig name t (if decide (t = select) then Some opts else None).

(** Where an insertion next to the column [k] goes:
    [idx = k ? columnKeys.indexOf(k) : -1] and
    [insertIdx = idx === -1 ? columnKeys.length
                            : (side === "left" ? idx : idx + 1)]. *)
Definition insertIndex (keys : list string) (k : string) (side : Side) : Z :=
  let idx := if bool_decide (k ≠ "") then indexOf k keys else (-1)%Z in
  if bool_decide (idx = (-1)%Z) then Z.of_nat (length keys)
  else match side with
       | SideLeft => idx
       | SideRight => (idx + 1)%Z
       end.

Definition handleDialogSubmit (st : State) : State :=
  let name := trim (dialogInput st) in
  match pendingAction st with
  | None => st
  | Some action =>
      if bool_decide (name = "") then st
      else
        match action with
        | PEdit oldKey =>
            let nameChanged := bool_decide (name ≠ oldKey) in
            if nameChanged && includes name (columnKeys st) then st
            else
              let st1 :=
                setColumnConfigs (λ prev,
                  fmap (λ c,
                    if bool_decide (key c ≠ oldKey) then c
                    else mkColumnConfig
                           (if nameChanged then name else key c)
                           (dialogType st)
                           (if bool_decide (dialogType st = select)
                            then Some (dialogOptions st) else None))
                    prev) st in
              let st2 :=
                if nameChanged then
                  setRows (λ prev,
                    fmap (λ row : Row,
                      let value := prop row oldKey in
                      let rest := delete oldKey row in
                      <[name := value]> rest) prev) st1
                else st1 in
              closeDialog st2
        | PInsert k side =>
            if includes name (columnKeys st) then st
            else
              let insertIdx := insertIndex (columnKeys st) k side in
              let newConfig :=
                mkColumnConfig name (dialogType st)
                  (if bool_decide (dialogType st = select)
                   then Some (dialogOptions st) else None) in
              let st1 :=
                setColumnConfigs (λ prev,
                  slice 0 insertIdx prev ++ [newConfig]
                    ++ sliceFrom insertIdx prev) st in
              let st2 :=
                setRows (λ prev,
                  fmap (λ row : Row,
                    <[name := getDefaultValue (dialogType st)]> row) prev)
                  st1 in
              closeDialog st2
        end
  end.

(** *** Generated names

    [let name = first; let i = 2;
     while (keys.includes(name)) { name = next(i); i++ }].
    The loop is run with fuel; [None] stands for a loop that has not
    ended when the fuel is spent. *)
Fixpoint whileIncludes (fuel : nat) (keys : list string)
    (next : nat → string) (name : string) (i : nat) : option string :=
  if includes name keys then
    match fuel with
    | O => None
    | S fuel' => whileIncludes fuel' keys next (next i) (S i)
    end
  else Some name.

(** The candidates are pairwise distinct, so the loop meets at most
    [length keys] taken names. *)
Definition freeName (keys : list string) (first : string)
    (next : nat → string) : option string :=
  whileIncludes (length keys) keys next first 2.

Definition quickName (t : ColumnType) (i : nat) : string :=
  COLUMN_TYPE_LABELS t +:+ " " +:+ pretty i.

Definition copyName (k : string) (i : nat) : string :=
  k +:+ " (copy " +:+ pretty i +:+ ")".

Definition handleQuickAdd (t : ColumnType) (st : State) : State :=
  if bool_decide (t = select) then
    let lastKey := last (columnKeys st) in
    openDialog
      (match lastKey with
       | Some k =>
           if bool_decide (k ≠ "") then PInsert k SideRight
           else PInsert "" SideRight
       | None => PInsert "" SideRight
       end)
      (Some select) st
  else
    match freeName (columnKeys st) (COLUMN_TYPE_LABELS t) (quickName t) with
    | None => st
    | Some name =>
        let newConfig := mkColumnConfig name t None in
        let st1 := setColumnConfigs (λ prev, prev ++ [newConfig]) st in
        setRows (λ prev,
          fmap (λ row : Row, <[name := getDefaultValue t]> row) prev) st1
    end.

(** *** columnActions *)

Definition onEdit (k : string) (st : State) : State :=
  openDialog (PEdit k) None st.

Definition onDuplicate (k : string) (st : State) : State :=
  match JS.find (λ c, bool_decide (key c = k)) (columnConfigs st) with
  | None => st
  | Some config =>
      match freeName (columnKeys st) (k +:+ " (copy)") (copyName k) with
      | None => st
      | Some copy =>
          let idx := indexOf k (columnKeys st) in
          let newConfig :=
            mkColumnConfig copy (type config) (options config) in
          let st1 :=
            setColumnConfigs (λ prev,
              slice 0 (idx + 1) prev ++ [newConfig]
                ++ sliceFrom (idx + 1) prev) st in
          setRows (λ prev,
            fmap (λ row : Row,
              <[copy := nullish (prop row k)
                          (getDefaultValue (type config))]> row) prev) st1
      end
  end.

Definition onInsertLeft (k : string) (st : State) : State :=
  openDialog (PInsert k SideLeft) None st.

Definition onInsertRight (k : string) (st : State) : State :=
  openDialog (PInsert k SideRight) None st.

Definition onSort (k : string) (st : State) : State :=
  setSorting (λ prev,
    match JS.find (λ s, bool_decide (sortId s = k)) prev with
    | None => [mkColumnSort k false]
    | Some existing =>
        if negb (desc existing) then [mkColumnSort k true] else []
    end) st.

Definition onHide (k : string) (st : State) : State :=
  setColumnVisibility (λ prev, <[k := false]> prev) st.

Definition onDelete (k : string) (st : State) : State :=
  setColumnConfigs (λ prev,
    filter (λ c, key c ≠ k) prev) st.

Definition onCellChange (rowIndex : nat) (k : string) (value : Value)
    (st : State) : State :=
  setRows (λ prev,
    imap (λ i (row : Row),
      if bool_decide (i = rowIndex) then <[k := value]> row else row)
      prev) st.

(** *** Rows *)

(** [getRowId: (row) => String(row.id ?? "")]. *)
Definition getRowId (row : Row) : string :=
  String_ (nullish (prop row "id") (VStr "")).

(** [uuid] is what [crypto.randomUUID()] returns.  The loop assigns
    [emptyRow[config.key] = getDefaultValue(config.type)]. *)
Definition handleAddRow (uuid : string) (st : State) : State :=
  let emptyRow : Row :=
    foldl (λ (row : Row) config,
             assign (key config) (getDefaultValue (type config)) row)
          {[ "id" := VStr uuid ]} (columnConfigs st) in
  setRows (λ prev, prev ++ [emptyRow]) st.

(** [isRowSelected] of the table library: [selection[row.id] ?? false],
    used as a condition.  The selection is a plain object, so an
    identifier without an own entry that names a property of
    [Object.prototype] reads a function, which counts as true. *)
Definition isRowSelected (selection : gmap string bool) (id : string) : bool :=
  match selection !! id with
  | Some b => b
  | None => inObjectPrototype id
  end.

(** [table.getFilteredSelectedRowModel().rows] of the table library: no
    row when the selection has no key
    ([!Object.keys(rowSelection).length]), else the rows that
    [isRowSelected] accepts. *)
Definition selectedRows (st : State) : list Row :=
  if bool_decide (rowSelection st = ∅) then []
  else filter (λ row, isRowSelected (rowSelection st) (getRowId row) = true)
              (rows st).

Definition handleDeleteSelectedRows (st : State) : State :=
  let selectedIds : gset string :=
    list_to_set (getRowId <$> selectedRows st) in
  let st1 :=
    setRows (λ prev,
      filter (λ row, getRowId row ∉ selectedIds) prev) st in
  setRowSelection (λ _, ∅) st1.

(** *** The mutation operations

    The operations a caller has: the dialog ones are the submission of
    a dialog filled with the caller's arguments, the others are the
    handlers themselves. *)

Definition renameColumn (oldKey newKeyCandidate : string)
    (newType : ColumnType) (newOptions : list string) (st : State) : State :=
  handleDialogSubmit
    (setDialog (Some (PEdit oldKey)) newKeyCandidate newType newOptions ""
       st).

Definition insertColumn (anchorKey : string) (side : Side)
    (nameCandidate : string) (t : ColumnType) (opts : list string)
    (st : State) : State :=
  handleDialogSubmit
    (setDialog (Some (PInsert anchorKey side)) nameCandidate t opts "" st).

Definition duplicateColumn := onDuplicate.
Definition quickAddColumn := handleQuickAdd.
Definition deleteColumn := onDelete.
Definition hideColumn := onHide.
Definition addRow := handleAddRow.

Definition deleteRows (ids : gset string) (st : State) : State :=
  handleDeleteSelectedRows
    (setRowSelection (λ _, gset_to_gmap true ids) st).

Definition setCellValue := onCellChange.
Definition toggleSort := onSort.

Inductive Mutation : Type :=
| RenameColumn (oldKey newKeyCandidate : string) (newType : ColumnType)
    (newOptions : list string)
| InsertColumn (anchorKey : string) (side : Side) (nameCandidate : string)
    (t : ColumnType) (opts : list string)
| DuplicateColumn (sourceKey : string)
| QuickAddColumn (t : ColumnType)
| DeleteColumn (k : string)
| HideColumn (k : string)
| AddRow (uuid : string)
| DeleteRows (ids : gset string)
| SetCellValue (rowIndex : nat) (k : string) (value : Value).

Definition applyMutation (m : Mutation) (st : State) : State :=
  match m with
  | RenameColumn o n t os => renameColumn o n t os st
  | InsertColumn a s n t os => insertColumn a s n t os st
  | DuplicateColumn k => duplicateColumn k st
  | QuickAddColumn t => quickAddColumn t st
  | DeleteColumn k => deleteColumn k st
  | HideColumn k => hideColumn k st
  | AddRow u => addRow u st
  | DeleteRows ids => deleteRows ids st
  | SetCellValue i k v => setCellValue i k v st
  end.

(** The mutations of a list, applied from its head on. *)
Definition runMutations (ms : list Mutation) (st : State) : State :=
  foldl (λ s m, applyMutation m s) st ms.

(** *** The invariants of the table model *)

(** I1: the column keys are pairwise distinct. *)
Definition keysDistinct (st : State) : Prop :=
  NoDup (columnKeys st).

(** I2: every row has an entry for every column key. *)
Definition rowsComplete (st : State) : Prop :=
  ∀ row : Row, row ∈ rows st →
    ∀ k, k ∈ columnKeys st → is_Some (row !! k).

(** I2 for the column keys that satisfy [P]. *)
Definition rowsCompleteOn (P : string → Prop) (st : State) : Prop :=
  ∀ row : Row, row ∈ rows st →
    ∀ k, k ∈ columnKeys st → P k → is_Some (row !! k).

(** I2 for every column key but "__proto__", the one key that
    [handleAddRow] cannot store. *)
Definition rowsCompleteButProto (st : State) : Prop :=
  rowsCompleteOn (λ k, k ≠ "__proto__") st.

(** *** A sample table: the columns of [initialColumns] and the row of
    the demo page. *)
Definition initialColumns : list ColumnConfig :=
  [ mkColumnConfig "status" text None;
    mkColumnConfig "email" email None;
    mkColumnConfig "amount" currency None ].

Definition demoRow : Row :=
  {[ "id" := VStr "728ed52f"; "amount" := VNum 100;
     "status" := VStr "pending"; "email" := VStr "m@example.com" ]}.

Definition initialState (cols : list ColumnConfig) (data : list Row) : State :=
  mkState cols data [] ∅ ∅ ∅ None "" text [] "".

Definition demoState : State := initialState initialColumns [demoRow].

(** The demo table after a column "__proto__" is inserted and a row is
    added. *)
Definition protoMutations : list Mutation :=
  [ InsertColumn "email" SideRight "__proto__" text [];
    AddRow "0b0e1d0c" ].


(** A table with the one column amount, a row holding 100 and a row
    holding null there. *)
Definition amountState : State :=
  initialState [mkColumnConfig "amount" currency None]
    [ {[ "id" := VStr "r1"; "amount" := VNum 100 ]};
      {[ "id" := VStr "r2"; "amount" := VNull ]} ].

(** One mutation of each kind, for the demo table. *)
Definition demoMutations : list Mutation :=
  [ RenameColumn "status" " state " select ["open"; "done"];
    InsertColumn "email" SideLeft "Phone" phone [];
    DuplicateColumn "amount";
    QuickAddColumn number;
    DeleteColumn "email";
    HideColumn "amount";
    AddRow "0b0e1d0c";
    SetCellValue 1 "Phone" (VStr "5551234567");
    DeleteRows {[ "728ed52f" ]} ].

End DataTable.
Export DataTable.

(** ** components/data-table: the dialog form and the footer menu *)
Module DialogForm.

(** [onChange={(e) => setDialogInput(e.target.value)}] *)
Definition setDialogInput (input : string) (st : State) : State :=
  setDialog (pendingAction st) input (dialogType st) (dialogOptions st)
    (newOptionValue st) st.

(** [onChange={(e) => setNewOptionValue(e.target.value)}] *)
Definition setNewOptionValue (v : string) (st : State) : State :=
  setDialog (pendingAction st) (dialogInput st) (dialogType st)
    (dialogOptions st) v st.

(** [Object.values(COLUMN_TYPE_LABELS)]: the labels in the order of the
    record, which is the order of [COLUMN_TYPES]. *)
Definition labelValues : list string := COLUMN_TYPE_LABELS <$> COLUMN_TYPES.

(** The type selector of the dialog, [onValueChange]. *)
Definition onTypeChange (t : ColumnType) (st : State) : State :=
  let isDefault :=
    includes (dialogInput st) labelValues
    || bool_decide (trim (dialogInput st) = "") in
  let notEdit :=
    match pendingAction st with
    | Some (PEdit _) => false
    | _ => true
    end in
  setDialog (pendingAction st)
    (if isDefault && notEdit then COLUMN_TYPE_LABELS t else dialogInput st)
    t (dialogOptions st) (newOptionValue st) st.

(** The Add button and the Enter key of the option input: both run
    [const v = newOptionValue.trim();
     if (v && !dialogOptions.includes(v)) { ...append v, clear input }]. *)
Definition addOption (st : State) : State :=
  let v := trim (newOptionValue st) in
  if bool_decide (v ≠ "") && negb (includes v (dialogOptions st)) then
    setDialog (pendingAction st) (dialogInput st) (dialogType st)
      (dialogOptions st ++ [v]) "" st
  else st.

(** [l.filter((x, j) => p(x, j))], the indices counted from [j]. *)
Fixpoint filterFrom {A} (p : A → nat → bool) (j : nat) (l : list A) : list A :=
  match l with
  | [] => []
  | x :: l' =>
      if p x j then x :: filterFrom p (S j) l' else filterFrom p (S j) l'
  end.

(** The remove button of the [i]-th option:
    [setDialogOptions((prev) => prev.filter((_, j) => j !== i))]. *)
Definition removeOption (i : nat) (st : State) : State :=
  setDialog (pendingAction st) (dialogInput st) (dialogType st)
    (filterFrom (λ _ j, bool_decide (j ≠ i)) 0 (dialogOptions st))
    (newOptionValue st) st.

(** The footer menu:
    [setAggregateModes((prev) => ({ ...prev, [config.key]: m }))]. *)
Definition setAggregateMode (k : string) (m : AggregateMode) (st : State)
    : State :=
  mkState (columnConfigs st) (rows st) (sorting st) (columnVisibility st)
    (rowSelection st) (<[k := m]> (aggregateModes st)) (pendingAction st)
    (dialogInput st) (dialogType st) (dialogOptions st) (newOptionValue st).

(** [aggregateModes[config.key] ?? "sum"].  The modes are a plain
    object: for a key without an entry that names a property of
    [Object.prototype] the footer reads a function, which is no mode
    ([None]). *)
Definition aggregateModeOf (k : string) (st : State)
    : option AggregateMode :=
  match aggregateModes st !! k with
  | Some m => Some m
  | None => if inObjectPrototype k then None else Some ModeSum
  end.

(** What the events of the dialog form are, and a run of them.  The form
    is on screen only while an action is pending, and its option inputs
    only while the type is select; the events are taken without these
    conditions, so the runs include all that the screen allows. *)
Inductive FormEvent : Type :=
| TypeName (input : string)
| ChooseType (t : ColumnType)
| TypeOption (v : string)
| AddOption
| RemoveOption (i : nat).

Definition formStep (e : FormEvent) (st : State) : State :=
  match e with
  | TypeName input => setDialogInput input st
  | ChooseType t => onTypeChange t st
  | TypeOption v => setNewOptionValue v st
  | AddOption => addOption st
  | RemoveOption i => removeOption i st
  end.

Definition runForm (es : list FormEvent) (st : State) : State :=
  foldl (λ s e, formStep e s) st es.

(** What the option list of the dialog keeps: no duplicate and no empty
    option. *)
Definition optionsClean (opts : list string) : Prop :=
  NoDup opts ∧ "" ∉ opts.

End DialogForm.
Export DialogForm.

(** ** components/data-table: the events of the user interface *)
Module Ui.

(** What the user can do: the items of a column menu, a cell edit, the
    dialog form with its submit and cancel buttons, the items of the add
    menu, the add-row button, the row check boxes (through the table
    library's [onRowSelectionChange]), the delete button and the footer
    menu.  Keys, row indices and selections are arbitrary, so the runs
    include all that the screen allows. *)
Inductive UiEvent : Type :=
| EvEdit (k : string)
| EvDuplicate (k : string)
| EvInsertLeft (k : string)
| EvInsertRight (k : string)
| EvSort (k : string)
| EvHide (k : string)
| EvDelete (k : string)
| EvCellChange (rowIndex : nat) (k : string) (value : Value)
| EvForm (e : FormEvent)
| EvSubmit
| EvCancel
| EvQuickAdd (t : ColumnType)
| EvAddRow (uuid : string)
| EvSelectRows (selection : gmap string bool)
| EvDeleteSelected
| EvAggregateMode (k : string) (m : AggregateMode).

Definition uiStep (e : UiEvent) (st : State) : State :=
  match e with
  | EvEdit k => onEdit k st
  | EvDuplicate k => onDuplicate k st
  | EvInsertLeft k => onInsertLeft k st
  | EvInsertRight k => onInsertRight k st
  | EvSort k => onSort k st
  | EvHide k => onHide k st
  | EvDelete k => onDelete k st
  | EvCellChange i k v => onCellChange i k v st
  | EvForm e => formStep e st
  | EvSubmit => handleDialogSubmit st
  | EvCancel => closeDialog st
  | EvQuickAdd t => handleQuickAdd t st
  | EvAddRow uuid => handleAddRow uuid st
  | EvSelectRows selection => setRowSelection (λ _, selection) st
  | EvDeleteSelected => handleDeleteSelectedRows st
  | EvAggregateMode k m => setAggregateMode k m st
  end.

Definition runUi (es : list UiEvent) (st : State) : State :=
  foldl (λ s e, uiStep e s) st es.

(** A session on the demo table: an insertion refused for its name, then
    accepted, the name cleared, as a select column with one option and the
    name of its type, a quick add, a new row,
    a cell edit, the deletion of the first row, a copy and a deletion of
    columns. *)
Definition demoEvents : list UiEvent :=
  [EvInsertRight "email"; EvForm (TypeName "amount"); EvSubmit;
   EvForm (TypeName ""); EvForm (ChooseType select); EvForm (TypeOption " a "); EvForm AddOption;
   EvSubmit; EvQuickAdd number; EvAddRow "0b0e1d0c";
   EvCellChange 1 "Select" (VStr "a");
   EvSelectRows {[ "728ed52f" := true ]}; EvDeleteSelected;
   EvDuplicate "amount"; EvDelete "status"].

End Ui.
Export Ui.

(** ** components/cell-editors *)
Module CellEditors.

(** The [value] of the text, long text, number, email, currency and
    percent editors: [value != null ? String(value) : ""]. *)
Definition inputValue (value : Value) : string :=
  match value with
  | VUndefined | VNull => ""
  | _ => String_ value
  end.

(** [checked={Boolean(value)}] and
    [onCheckedChange={(checked) => onChange(Boolean(checked))}], where
    [checked] is a boolean. *)
Definition checkboxChecked (value : Value) : bool := Boolean_ value.

Definition checkboxChange (checked : bool) : Value :=
  VBool (Boolean_ (VBool checked)).

(** [value != null && value !== "" ? String(value) : undefined] *)
Definition selectValue (value : Value) : option string :=
  match value with
  | VUndefined | VNull => None
  | VStr "" => None
  | _ => Some (String_ value)
  end.

(** The phone editor. *)
Definition formatPhone (raw : string) : string :=
  let digits := strSlice 0 10 (stripNonDigits raw) in
  if bool_decide (String.length digits ≤ 3) then digits
  else if bool_decide (String.length digits ≤ 6) then
    "(" +:+ strSlice 0 3 digits +:+ ") " +:+ strSliceFrom 3 digits
  else
    "(" +:+ strSlice 0 3 digits +:+ ") " +:+ strSlice 3 6 digits
        +:+ "-" +:+ strSliceFrom 6 digits.

(** [handleChange]: what the editor hands to [onChange]. *)
Definition phoneChange (raw : string) : Value :=
  VStr (strSlice 0 10 (stripNonDigits raw)).

(** What the input shows:
    [formatPhone(value != null ? String(value).replace(/\D/g, "") : "")]. *)
Definition phoneShown (value : Value) : string :=
  formatPhone
    (match value with
     | VUndefined | VNull => ""
     | _ => stripNonDigits (String_ value)
     end).

(** A string of decimal digits: a string that stripping leaves as it
    is. *)
Definition digitsOnly (s : string) : Prop := stripNonDigits s = s.

End CellEditors.
Export CellEditors.

(* ===================================================================== *)
(** * Theorems *)
(* ===================================================================== *)

(** ** Arrays of keys *)

Lemma includes_true (x : string) (keys : list string) :
  includes x keys = true ↔ x ∈ keys.
Proof. unfold includes. apply bool_decide_eq_true. Qed.

Lemma includes_false (x : string) (keys : list string) :
  includes x keys = false ↔ x ∉ keys.
Proof. unfold includes. apply bool_decide_eq_false. Qed.

Lemma indexOf_ge (x : string) (keys : list string) :
  (-1 ≤ indexOf x keys)%Z.
Proof.
  induction keys as [|k ks IH]; simpl; [lia|].
  repeat case_decide; lia.
Qed.

Lemma indexOf_absent (x : string) (keys : list string) :
  x ∉ keys → indexOf x keys = (-1)%Z.
Proof.
  induction keys as [|k ks IH]; intros Hx; simpl; [done|].
  apply not_elem_of_cons in Hx as [Hne Hx].
  rewrite decide_False by done. rewrite IH by done.
  by rewrite decide_True.
Qed.

Lemma indexOf_first (x : string) (pre post : list string) :
  x ∉ pre → indexOf x (pre ++ x :: post) = Z.of_nat (length pre).
Proof.
  induction pre as [|k pre IH]; intros Hx; simpl.
  - by rewrite decide_True.
  - apply not_elem_of_cons in Hx as [Hne Hx].
    rewrite decide_False by done. rewrite IH by done.
    rewrite decide_False by lia. lia.
Qed.

Lemma relIndex_nat (len n : nat) :
  relIndex len (Z.of_nat n) = n `min` len.
Proof. unfold relIndex. rewrite decide_False by lia. lia. Qed.

Lemma slice_0_take {A} (n : nat) (l : list A) :
  slice 0 (Z.of_nat n) l = take n l.
Proof.
  unfold slice. rewrite (relIndex_nat _ 0), relIndex_nat. simpl.
  rewrite Nat.sub_0_r.
  destruct (decide (n ≤ length l)) as [Hle|Hgt].
  - f_equal. lia.
  - rewrite (take_ge l n) by lia. apply take_ge. lia.
Qed.

Lemma sliceFrom_drop {A} (n : nat) (l : list A) :
  sliceFrom (Z.of_nat n) l = drop n l.
Proof.
  unfold sliceFrom. rewrite relIndex_nat.
  destruct (decide (n ≤ length l)) as [Hle|Hgt].
  - f_equal. lia.
  - rewrite (drop_ge l n) by lia. apply drop_ge. lia.
Qed.

(** Cutting an array at the length of a prefix and putting an element in
    between. *)
Lemma splice_at {A} (pre post : list A) (x : A) :
  slice 0 (Z.of_nat (length pre)) (pre ++ post) ++ [x]
    ++ sliceFrom (Z.of_nat (length pre)) (pre ++ post)
  = pre ++ x :: post.
Proof.
  rewrite slice_0_take, sliceFrom_drop.
  by rewrite take_app_length, drop_app_length.
Qed.

Lemma splice_at_cons {A} (pre post : list A) (x : A) :
  slice 0 (Z.of_nat (length pre)) (pre ++ post)
    ++ x :: sliceFrom (Z.of_nat (length pre)) (pre ++ post)
  = pre ++ x :: post.
Proof. apply splice_at. Qed.

Lemma find_key_none (k : string) (cols : list ColumnConfig) :
  k ∉ key <$> cols →
  JS.find (λ c, bool_decide (key c = k)) cols = None.
Proof.
  induction cols as [|c cols IH]; intros Hk; [done|].
  rewrite fmap_cons in Hk. apply not_elem_of_cons in Hk as [Hne Hk].
  simpl. rewrite bool_decide_eq_false_2 by done. by apply IH.
Qed.

Lemma find_key_first (k : string) (pre post : list ColumnConfig)
    (c : ColumnConfig) :
  k ∉ key <$> pre → key c = k →
  JS.find (λ c, bool_decide (key c = k)) (pre ++ c :: post) = Some c.
Proof.
  induction pre as [|d pre IH]; intros Hk Hc; simpl.
  - by rewrite bool_decide_eq_true_2.
  - rewrite fmap_cons in Hk. apply not_elem_of_cons in Hk as [Hne Hk].
    rewrite bool_decide_eq_false_2 by done. by apply IH.
Qed.

(** A key that occurs among the columns splits them at its first
    occurrence. *)
Lemma columns_split_first (k : string) (cols : list ColumnConfig) :
  k ∈ key <$> cols →
  ∃ pre c post, cols = pre ++ c :: post ∧ key c = k ∧ k ∉ key <$> pre.
Proof.
  induction cols as [|d cols IH]; intros Hk.
  - by apply elem_of_nil in Hk.
  - destruct (decide (key d = k)) as [Hd|Hd].
    + exists [], d, cols. split_and!; [done..|]. apply not_elem_of_nil.
    + rewrite fmap_cons in Hk. apply elem_of_cons in Hk as [Hk|Hk]; [done|].
      destruct (IH Hk) as (pre & c & post & -> & Hc & Hpre).
      exists (d :: pre), c, post. split_and!; [done..|].
      rewrite fmap_cons. by apply not_elem_of_cons.
Qed.

(** ** Generated names *)

Lemma string_app_length (s t : string) :
  String.length (s +:+ t) = String.length s + String.length t.
Proof. induction s as [|a s IH]; simpl; [done|]. by rewrite IH. Qed.

Lemma string_app_inj_r (t s1 s2 : string) :
  s1 +:+ t = s2 +:+ t → s1 = s2.
Proof.
  revert s2. induction s1 as [|a s1 IH]; intros [|b s2] Heq.
  - done.
  - apply (f_equal String.length) in Heq.
    rewrite !string_app_length in Heq. simpl in Heq. lia.
  - apply (f_equal String.length) in Heq.
    rewrite !string_app_length in Heq. simpl in Heq. lia.
  - change (String a (s1 +:+ t) = String b (s2 +:+ t)) in Heq.
    injection Heq as -> Heq. f_equal. by apply IH.
Qed.

Lemma quickName_inj (t : ColumnType) : Inj (=) (=) (quickName t).
Proof.
  intros i j Heq. unfold quickName in Heq.
  apply (inj (String.app _)) in Heq. apply (inj (String.app _)) in Heq.
  by apply (inj pretty) in Heq.
Qed.

Lemma quickName_ne_label (t : ColumnType) (i : nat) :
  quickName t i ≠ COLUMN_TYPE_LABELS t.
Proof.
  intros Heq. apply (f_equal String.length) in Heq.
  unfold quickName in Heq. rewrite !string_app_length in Heq.
  simpl in Heq. lia.
Qed.

Lemma copyName_inj (k : string) : Inj (=) (=) (copyName k).
Proof.
  intros i j Heq. unfold copyName in Heq.
  apply (inj (String.app _)) in Heq. apply (inj (String.app _)) in Heq.
  apply string_app_inj_r in Heq. by apply (inj pretty) in Heq.
Qed.

Lemma copyName_ne_first (k : string) (i : nat) :
  copyName k i ≠ k +:+ " (copy)".
Proof.
  intros Heq. unfold copyName in Heq.
  apply (inj (String.app _)) in Heq.
  change (" (copy " +:+ pretty i +:+ ")")
    with (String " " (String "(" (String "c" (String "o" (String "p"
           (String "y" (String " " (pretty i +:+ ")")))))))) in Heq.
  discriminate Heq.
Qed.

(** When the loop gives up, every candidate it has seen is taken. *)
Lemma whileIncludes_None (fuel : nat) (keys : list string)
    (next : nat → string) (name : string) (i : nat) :
  whileIncludes fuel keys next name i = None →
  name ∈ keys ∧ ∀ j, i ≤ j < i + fuel → next j ∈ keys.
Proof.
  revert name i. induction fuel as [|fuel IH]; intros name i; simpl.
  - destruct (includes name keys) eqn:Hin; [|done].
    intros _. split; [by apply includes_true | lia].
  - destruct (includes name keys) eqn:Hin; [|done].
    intros Hnone. apply IH in Hnone as [Hnext Hrest].
    split; [by apply includes_true|].
    intros j Hj. destruct (decide (j = i)) as [->|Hne]; [done|].
    apply Hrest. lia.
Qed.

(** The name the loop ends with is free, and every earlier candidate was
    taken. *)
Lemma whileIncludes_Some (fuel : nat) (keys : list string)
    (next : nat → string) (name : string) (i : nat) (r : string) :
  whileIncludes fuel keys next name i = Some r →
  (r ∉ keys)
  ∧ (((name ∉ keys) ∧ r = name)
     ∨ (name ∈ keys
        ∧ ∃ j, i ≤ j ∧ r = next j ∧ ∀ m, i ≤ m < j → next m ∈ keys)).
Proof.
  revert name i. induction fuel as [|fuel IH]; intros name i; simpl.
  - destruct (includes name keys) eqn:Hin; [done|].
    intros [= <-]. apply includes_false in Hin. auto.
  - destruct (includes name keys) eqn:Hin.
    + intros Hsome. apply includes_true in Hin.
      apply IH in Hsome as [Hfree [[Hn ->]|[Hn (j & Hj & -> & Hall)]]].
      * split; [done|]. right. split; [done|].
        exists i. split_and!; [lia | done | lia].
      * split; [done|]. right. split; [done|].
        exists j. split_and!; [lia | done |].
        intros m Hm. destruct (decide (m = i)) as [->|Hne]; [done|].
        apply Hall. lia.
    + intros [= <-]. apply includes_false in Hin. auto.
Qed.

(** With pairwise distinct candidates the loop ends within [length keys]
    rounds. *)
Lemma freeName_total (keys : list string) (first : string)
    (next : nat → string) :
  Inj (=) (=) next → (∀ i, next i ≠ first) →
  is_Some (freeName keys first next).
Proof.
  intros Hinj Hfirst. unfold freeName.
  destruct (whileIncludes _ _ _ _ _) as [r|] eqn:Hloop; [by eexists|].
  exfalso. apply whileIncludes_None in Hloop as [Hin Hall].
  assert (Hsub : first :: (next <$> seq 2 (length keys)) ⊆+ keys).
  { apply NoDup_submseteq.
    - apply NoDup_cons. split.
      + intros (j & Hj & _)%list_elem_of_fmap. by eapply Hfirst.
      + apply NoDup_fmap_2; [done|]. apply NoDup_seq.
    - intros x [->|(j & -> & Hj)%list_elem_of_fmap]%elem_of_cons; [done|].
      apply Hall. apply elem_of_seq in Hj. lia. }
  apply submseteq_length in Hsub. simpl in Hsub.
  rewrite length_fmap, length_seq in Hsub. lia.
Qed.

(** ** The dialog: renaming and inserting columns *)

Lemma handleDialogSubmit_closed (st : State) :
  pendingAction st = None → handleDialogSubmit st = st.
Proof. unfold handleDialogSubmit. by intros ->. Qed.

Lemma handleDialogSubmit_empty (st : State) :
  trim (dialogInput st) = "" → handleDialogSubmit st = st.
Proof.
  unfold handleDialogSubmit. intros ->.
  by destruct (pendingAction st).
Qed.

Lemma handleDialogSubmit_edit_collision (st : State) (oldKey : string) :
  pendingAction st = Some (PEdit oldKey) →
  trim (dialogInput st) ≠ oldKey →
  trim (dialogInput st) ∈ columnKeys st →
  handleDialogSubmit st = st.
Proof.
  unfold handleDialogSubmit. intros -> Hne Hin.
  case_bool_decide; [done|].
  rewrite (bool_decide_eq_true_2 _ Hne).
  by rewrite (proj2 (includes_true _ _) Hin).
Qed.

Lemma handleDialogSubmit_insert_collision (st : State) (k : string)
    (side : Side) :
  pendingAction st = Some (PInsert k side) →
  trim (dialogInput st) ∈ columnKeys st →
  handleDialogSubmit st = st.
Proof.
  unfold handleDialogSubmit. intros -> Hin.
  case_bool_decide; [done|].
  by rewrite (proj2 (includes_true _ _) Hin).
Qed.

Lemma options_for_type (t : ColumnType) (opts : list string) :
  (if bool_decide (t = select) then Some opts else None)
  = (if decide (t = select) then Some opts else None).
Proof. by case_bool_decide; case_decide. Qed.

Lemma edited_column (oldKey name : string) (nameChanged : bool)
    (t : ColumnType) (opts : list string) (c : ColumnConfig) :
  (nameChanged = false → name = oldKey) →
  (if bool_decide (key c ≠ oldKey) then c
   else mkColumnConfig (if nameChanged then name else key c) t
          (if bool_decide (t = select) then Some opts else None))
  = (if decide (key c = oldKey) then dialogColumn name t opts else c).
Proof.
  intros Hsame. unfold dialogColumn. rewrite options_for_type.
  destruct (decide (key c = oldKey)) as [Hc|Hc].
  - rewrite bool_decide_eq_false_2 by tauto.
    destruct nameChanged; [done|]. by rewrite Hc, Hsame.
  - by rewrite bool_decide_eq_true_2.
Qed.

Lemma handleDialogSubmit_edit (st : State) (oldKey : string) :
  pendingAction st = Some (PEdit oldKey) →
  trim (dialogInput st) ≠ "" →
  (trim (dialogInput st) ≠ oldKey → trim (dialogInput st) ∉ columnKeys st) →
  let name := trim (dialogInput st) in
  columnConfigs (handleDialogSubmit st) =
    (λ c, if decide (key c = oldKey)
          then dialogColumn name (dialogType st) (dialogOptions st) else c)
      <$> columnConfigs st
  ∧ rows (handleDialogSubmit st) =
      (if decide (name = oldKey) then rows st
       else (λ row : Row, <[name := prop row oldKey]> (delete oldKey row))
              <$> rows st)
  ∧ pendingAction (handleDialogSubmit st) = None.
Proof.
  intros Hact Hne Hfree name. unfold handleDialogSubmit. rewrite Hact.
  fold name. rewrite (bool_decide_eq_false_2 _ Hne).
  assert (Hgo : bool_decide (name ≠ oldKey) && includes name (columnKeys st)
                = false).
  { case_bool_decide as Hch; [|done]. simpl.
    apply includes_false. by apply Hfree. }
  rewrite Hgo. clear Hgo.
  assert (Hsame : bool_decide (name ≠ oldKey) = false → name = oldKey).
  { intros Hb. apply bool_decide_eq_false in Hb.
    by destruct (decide (name = oldKey)). }
  split_and!.
  - destruct (bool_decide (name ≠ oldKey)); simpl;
      apply list_fmap_ext; intros _ c _.
    + by apply (edited_column oldKey name true).
    + by apply (edited_column oldKey name false).
  - destruct (decide (name = oldKey)) as [Heq|Hch].
    + by rewrite (bool_decide_eq_false_2 (name ≠ oldKey)) by tauto.
    + by rewrite (bool_decide_eq_true_2 (name ≠ oldKey)) by done.
  - by destruct (bool_decide (name ≠ oldKey)).
Qed.

Lemma insertIdx_anchor (keys : list string) (k : string) (side : Side)
    (pre post : list string) :
  k ≠ "" → keys = pre ++ k :: post → k ∉ pre →
  insertIndex keys k side
  = Z.of_nat (match side with
              | SideLeft => length pre
              | SideRight => S (length pre)
              end).
Proof.
  intros Hne -> Hpre. unfold insertIndex.
  rewrite (bool_decide_eq_true_2 _ Hne), indexOf_first by done.
  rewrite bool_decide_eq_false_2 by lia.
  destruct side; lia.
Qed.

Lemma insertIdx_no_anchor (keys : list string) (k : string) (side : Side) :
  k = "" ∨ k ∉ keys →
  insertIndex keys k side
  = Z.of_nat (length keys).
Proof.
  intros Hk. unfold insertIndex.
  assert (Hidx : (if bool_decide (k ≠ "") then indexOf k keys else (-1)%Z)
                 = (-1)%Z).
  { case_bool_decide as Hne; [|done].
    apply indexOf_absent. by destruct Hk. }
  rewrite Hidx. by rewrite bool_decide_eq_true_2.
Qed.

(** Where an insertion lands: some position of the column array. *)
Lemma insertIdx_nat (keys : list string) (k : string) (side : Side) :
  ∃ n : nat,
    insertIndex keys k side = Z.of_nat n.
Proof.
  unfold insertIndex.
  pose proof (indexOf_ge k keys) as Hge.
  case_bool_decide as Hidx.
  - by exists (length keys).
  - destruct (bool_decide (k ≠ "")); [|done].
    destruct side.
    + exists (Z.to_nat (indexOf k keys)). lia.
    + exists (Z.to_nat (indexOf k keys + 1)). lia.
Qed.

Lemma handleDialogSubmit_insert (st : State) (k : string) (side : Side) :
  pendingAction st = Some (PInsert k side) →
  trim (dialogInput st) ≠ "" →
  trim (dialogInput st) ∉ columnKeys st →
  let name := trim (dialogInput st) in
  let insertIdx := insertIndex (columnKeys st) k side in
  columnConfigs (handleDialogSubmit st) =
    slice 0 insertIdx (columnConfigs st)
      ++ [dialogColumn name (dialogType st) (dialogOptions st)]
      ++ sliceFrom insertIdx (columnConfigs st)
  ∧ rows (handleDialogSubmit st) =
      (λ row : Row, <[name := getDefaultValue (dialogType st)]> row)
        <$> rows st
  ∧ pendingAction (handleDialogSubmit st) = None.
Proof.
  intros Hact Hne Hfree name insertIdx.
  unfold handleDialogSubmit. rewrite Hact.
  rewrite (bool_decide_eq_false_2 _ Hne).
  rewrite (proj2 (includes_false _ _) Hfree).
  split_and!; try done.
  simpl. unfold dialogColumn. by rewrite options_for_type.
Qed.

(** Membership in a concrete array of keys, by evaluation. *)
Ltac by_includes :=
  first [ apply includes_true; vm_compute; reflexivity
        | apply includes_false; vm_compute; reflexivity ].

(** C2.  A rename whose name trims to the empty string, a rename to a
    name that differs from the old key and is the key of an existing
    column, and an insertion whose trimmed name is the key of an existing
    column change neither the columns nor any row; the submission of the
    dialog then changes nothing at all. *)
Theorem C2_rejected_mutations_change_nothing (st : State) :
  (∀ oldKey cand t opts,
      trim cand = "" →
      columnConfigs (renameColumn oldKey cand t opts st) = columnConfigs st
      ∧ rows (renameColumn oldKey cand t opts st) = rows st)
  ∧ (∀ oldKey cand t opts,
      trim cand ≠ oldKey → trim cand ∈ columnKeys st →
      columnConfigs (renameColumn oldKey cand t opts st) = columnConfigs st
      ∧ rows (renameColumn oldKey cand t opts st) = rows st)
  ∧ (∀ anchorKey side cand t opts,
      trim cand ∈ columnKeys st →
      columnConfigs (insertColumn anchorKey side cand t opts st)
        = columnConfigs st
      ∧ rows (insertColumn anchorKey side cand t opts st) = rows st)
  ∧ (trim (dialogInput st) = ""
     ∨ (∃ oldKey, pendingAction st = Some (PEdit oldKey)
                  ∧ trim (dialogInput st) ≠ oldKey
                  ∧ trim (dialogInput st) ∈ columnKeys st)
     ∨ (∃ k side, pendingAction st = Some (PInsert k side)
                  ∧ trim (dialogInput st) ∈ columnKeys st) →
     handleDialogSubmit st = st).
Proof.
  split_and!.
  - intros oldKey cand t opts Hempty. unfold renameColumn.
    by rewrite handleDialogSubmit_empty.
  - intros oldKey cand t opts Hne Hin. unfold renameColumn.
    by rewrite (handleDialogSubmit_edit_collision _ oldKey).
  - intros anchorKey side cand t opts Hin. unfold insertColumn.
    by rewrite (handleDialogSubmit_insert_collision _ anchorKey side).
  - intros [Hempty | [(oldKey & Hact & Hne & Hin) | (k & side & Hact & Hin)]].
    + by apply handleDialogSubmit_empty.
    + by apply (handleDialogSubmit_edit_collision _ oldKey).
    + by apply (handleDialogSubmit_insert_collision _ k side).
Qed.

Lemma C2_rejected_mutations_change_nothing_witness :
  columnConfigs (renameColumn "status" " email " text [] demoState)
    = columnConfigs demoState
  ∧ rows (renameColumn "status" " email " text [] demoState) = rows demoState.
Proof.
  destruct (C2_rejected_mutations_change_nothing demoState)
    as (_ & Hcollision & _).
  apply (Hcollision "status" " email " text []).
  - vm_compute. discriminate.
  - by_includes.
Defined.

(** C5.  A rename of [oldKey] to a name that trims to a non-empty key
    which, when it differs from [oldKey], is no column's key: every column
    keyed [oldKey] gets the new key, type and options at its position (the
    options are kept for the select type only); all other columns stay;
    when the key changed, every row holds under the new key the very value
    it held under [oldKey], has no entry under [oldKey] any more, and
    keeps its other entries; when the key did not change the rows stay as
    they are.  The type plays no part in what a row holds. *)
Theorem C5_rename_column (st : State) (oldKey cand : string)
    (t : ColumnType) (opts : list string) :
  let name := trim cand in
  let st' := renameColumn oldKey cand t opts st in
  name ≠ "" →
  (name ≠ oldKey → name ∉ columnKeys st) →
  length (columnConfigs st') = length (columnConfigs st)
  ∧ (∀ i c, columnConfigs st !! i = Some c → key c = oldKey →
       columnConfigs st' !! i
         = Some (mkColumnConfig name t
                   (if decide (t = select) then Some opts else None)))
  ∧ (∀ i c, columnConfigs st !! i = Some c → key c ≠ oldKey →
       columnConfigs st' !! i = Some c)
  ∧ length (rows st') = length (rows st)
  ∧ (name ≠ oldKey →
     ∀ i (row : Row), rows st !! i = Some row →
       ∃ row' : Row,
         rows st' !! i = Some row'
         ∧ row' !! name = Some (prop row oldKey)
         ∧ (∀ v, row !! oldKey = Some v → row' !! name = Some v)
         ∧ row' !! oldKey = None
         ∧ (∀ k, k ≠ oldKey → k ≠ name → row' !! k = row !! k))
  ∧ (name = oldKey → rows st' = rows st)
  ∧ pendingAction st' = None.
Proof.
  intros name st' Hne Hfree.
  destruct (handleDialogSubmit_edit
              (setDialog (Some (PEdit oldKey)) cand t opts "" st) oldKey)
    as (Hcols & Hrows & Hclosed); [done..|].
  simpl in Hcols, Hrows. fold name in Hcols, Hrows.
  change (handleDialogSubmit _) with st' in Hcols, Hrows, Hclosed.
  split_and!.
  - by rewrite Hcols, length_fmap.
  - intros i c Hi Hc. rewrite Hcols, list_lookup_fmap, Hi. simpl.
    by rewrite decide_True.
  - intros i c Hi Hc. rewrite Hcols, list_lookup_fmap, Hi. simpl.
    by rewrite decide_False.
  - rewrite Hrows. case_decide; [done|]. by rewrite length_fmap.
  - intros Hch i row Hi. rewrite Hrows, decide_False by done.
    eexists. split; [by rewrite list_lookup_fmap, Hi|].
    split_and!.
    + by rewrite lookup_insert_eq.
    + intros v Hv. rewrite lookup_insert_eq. unfold prop. by rewrite Hv.
    + rewrite lookup_insert_ne by done. by rewrite lookup_delete_eq.
    + intros k Hk1 Hk2.
      rewrite lookup_insert_ne by done. by rewrite lookup_delete_ne.
  - intros Heq. by rewrite Hrows, decide_True.
  - done.
Qed.

Lemma C5_rename_column_witness :
  columnKeys (renameColumn "status" " state " checkbox [] demoState)
    = ["state"; "email"; "amount"]
  ∧ ∃ row' : Row,
      rows (renameColumn "status" " state " checkbox [] demoState) !! 0
        = Some row'
      ∧ row' !! "state" = Some (VStr "pending")
      ∧ row' !! "status" = None.
Proof.
  destruct (C5_rename_column demoState "status" " state " checkbox [])
    as (_ & _ & _ & _ & Hrow & _).
  - vm_compute. discriminate.
  - intros _. by_includes.
  - split; [reflexivity|].
    destruct (Hrow ltac:(vm_compute; discriminate) 0 demoRow eq_refl)
      as (row' & H0 & _ & Hmove & Hold & _).
    exists row'. split_and!; [done | | done].
    by apply Hmove.
Defined.

(** What an accepted insertion does to the columns and to the rows. *)
Lemma insertColumn_accepted (st : State) (anchorKey : string) (side : Side)
    (cand : string) (t : ColumnType) (opts : list string) :
  let name := trim cand in
  let st' := insertColumn anchorKey side cand t opts st in
  let insertIdx := insertIndex (columnKeys st) anchorKey side in
  name ≠ "" → name ∉ columnKeys st →
  columnConfigs st' =
    slice 0 insertIdx (columnConfigs st) ++ [dialogColumn name t opts]
      ++ sliceFrom insertIdx (columnConfigs st)
  ∧ rows st' = (λ row : Row, <[name := getDefaultValue t]> row) <$> rows st
  ∧ pendingAction st' = None.
Proof.
  intros name st' insertIdx Hne Hfree.
  by apply (handleDialogSubmit_insert
              (setDialog (Some (PInsert anchorKey side)) cand t opts "" st)
              anchorKey side).
Qed.

(** C6.  An insertion whose name trims to a non-empty key that no column
    has: next to an anchor column the new column lands at the anchor's
    index when the side is left and right after the anchor when the side
    is right; with an empty or unknown anchor it lands at the end; every
    row gets the default value of the type under the new key and keeps its
    other entries.  On the columns status, email, amount the insertion of
    "Phone", a phone column, to the right of email gives status, email,
    Phone, amount, and every row holds the empty string under Phone. *)
Theorem C6_insert_column (st : State) (anchorKey : string) (side : Side)
    (cand : string) (t : ColumnType) (opts : list string) :
  let name := trim cand in
  let st' := insertColumn anchorKey side cand t opts st in
  let new :=
    mkColumnConfig name t (if decide (t = select) then Some opts else None) in
  name ≠ "" → name ∉ columnKeys st →
  (∀ pre c post,
      columnConfigs st = pre ++ c :: post → key c = anchorKey →
      anchorKey ∉ key <$> pre → anchorKey ≠ "" →
      indexOf anchorKey (columnKeys st) = Z.of_nat (length pre)
      ∧ columnConfigs st' =
          match side with
          | SideLeft => pre ++ new :: c :: post
          | SideRight => pre ++ c :: new :: post
          end)
  ∧ (anchorKey = "" ∨ anchorKey ∉ columnKeys st →
     columnConfigs st' = columnConfigs st ++ [new])
  ∧ length (rows st') = length (rows st)
  ∧ (∀ i (row : Row), rows st !! i = Some row →
       ∃ row' : Row,
         rows st' !! i = Some row'
         ∧ row' !! name = Some (getDefaultValue t)
         ∧ (∀ k, k ≠ name → row' !! k = row !! k))
  ∧ (∀ s : State,
       columnConfigs s = initialColumns →
       columnKeys (insertColumn "email" SideRight "Phone" phone [] s)
         = ["status"; "email"; "Phone"; "amount"]
       ∧ ∀ row : Row,
           row ∈ rows (insertColumn "email" SideRight "Phone" phone [] s) →
           row !! "Phone" = Some (VStr "")).
Proof.
  intros name st' new Hne Hfree.
  destruct (insertColumn_accepted st anchorKey side cand t opts Hne Hfree)
    as (Hcols & Hrows & _).
  fold name st' in Hcols, Hrows.
  split_and!.
  - intros pre c post Hsplit Hc Hpre Hanchor.
    assert (Hkeys : columnKeys st = (key <$> pre) ++ anchorKey :: (key <$> post)).
    { unfold columnKeys. by rewrite Hsplit, fmap_app, fmap_cons, Hc. }
    split; [rewrite Hkeys, indexOf_first by done; by rewrite length_fmap|].
    rewrite Hcols.
    rewrite (insertIdx_anchor (columnKeys st) anchorKey side
               (key <$> pre) (key <$> post)) by done.
    rewrite length_fmap, Hsplit. destruct side.
    + by rewrite splice_at.
    + replace (pre ++ c :: post) with ((pre ++ [c]) ++ post)
        by (by rewrite <- app_assoc).
      replace (S (length pre)) with (length (pre ++ [c]))
        by (rewrite length_app; simpl; lia).
      rewrite splice_at. by rewrite <- app_assoc.
  - intros Hanchor. rewrite Hcols.
    rewrite (insertIdx_no_anchor (columnKeys st) anchorKey side Hanchor).
    unfold columnKeys. rewrite length_fmap.
    rewrite slice_0_take, sliceFrom_drop.
    by rewrite take_ge, drop_ge by lia.
  - by rewrite Hrows, length_fmap.
  - intros i row Hi. eexists.
    split; [by rewrite Hrows, list_lookup_fmap, Hi|].
    split; [by rewrite lookup_insert_eq|].
    intros k Hk. by rewrite lookup_insert_ne.
  - intros s Hs.
    destruct (insertColumn_accepted s "email" SideRight "Phone" phone [])
      as (Hcols' & Hrows' & _).
    { vm_compute. discriminate. }
    { unfold columnKeys. rewrite Hs. by_includes. }
    split.
    + unfold columnKeys at 1. rewrite Hcols'. unfold columnKeys.
      rewrite Hs. reflexivity.
    + intros row Hrow. rewrite Hrows' in Hrow.
      apply list_elem_of_fmap in Hrow as (r & -> & _).
      by rewrite lookup_insert_eq.
Qed.

Lemma C6_insert_column_witness :
  columnKeys (insertColumn "status" SideLeft " Phone " phone [] demoState)
    = ["Phone"; "status"; "email"; "amount"].
Proof.
  destruct (C6_insert_column demoState "status" SideLeft " Phone " phone [])
    as (Hanchor & _).
  - vm_compute. discriminate.
  - by_includes.
  - destruct (Hanchor [] (mkColumnConfig "status" text None)
                [mkColumnConfig "email" email None;
                 mkColumnConfig "amount" currency None])
      as [_ Hcols]; [reflexivity | reflexivity | apply not_elem_of_nil
                     | discriminate |].
    unfold columnKeys. rewrite Hcols. reflexivity.
Defined.

(** An insertion under a blank name: the trimmed name is no column's key,
    and still no column is placed and no row gets an entry. *)
Lemma C6_blank_name_inserts_nothing :
  let st' := insertColumn "email" SideRight "   " phone [] demoState in
  (trim "   " ∉ columnKeys demoState)
  ∧ columnKeys st' = ["status"; "email"; "amount"]
  ∧ ∀ row : Row, row ∈ rows st' → row !! trim "   " = None.
Proof.
  split_and!.
  - by_includes.
  - reflexivity.
  - intros row Hrow. vm_compute in Hrow.
    apply list_elem_of_singleton in Hrow as ->. reflexivity.
Qed.

(** ** Duplicating and quick-adding columns *)

Lemma freeName_first (keys : list string) (first : string)
    (next : nat → string) :
  first ∉ keys → freeName keys first next = Some first.
Proof.
  intros Hfree. unfold freeName.
  destruct (length keys); simpl;
    by rewrite (proj2 (includes_false _ _) Hfree).
Qed.

Lemma freeName_second (keys : list string) (first : string)
    (next : nat → string) :
  first ∈ keys → next 2 ∉ keys → freeName keys first next = Some (next 2).
Proof.
  intros Hin Hfree. unfold freeName.
  destruct keys as [|k keys]; [by apply elem_of_nil in Hin|].
  simpl. rewrite (proj2 (includes_true _ _) Hin).
  destruct (length keys); simpl;
    by rewrite (proj2 (includes_false _ _) Hfree).
Qed.

Lemma freeName_copy_total (keys : list string) (k : string) :
  is_Some (freeName keys (k +:+ " (copy)") (copyName k)).
Proof.
  apply freeName_total; [apply copyName_inj | apply copyName_ne_first].
Qed.

Lemma freeName_quick_total (keys : list string) (t : ColumnType) :
  is_Some (freeName keys (COLUMN_TYPE_LABELS t) (quickName t)).
Proof.
  apply freeName_total; [apply quickName_inj | apply quickName_ne_label].
Qed.

Lemma onDuplicate_absent (st : State) (k : string) :
  k ∉ columnKeys st → onDuplicate k st = st.
Proof.
  intros Hk. unfold onDuplicate. by rewrite find_key_none.
Qed.

Lemma onDuplicate_present (st : State) (k copy : string)
    (pre post : list ColumnConfig) (c : ColumnConfig) :
  columnConfigs st = pre ++ c :: post → key c = k → k ∉ key <$> pre →
  freeName (columnKeys st) (k +:+ " (copy)") (copyName k) = Some copy →
  columnConfigs (onDuplicate k st)
    = pre ++ c :: mkColumnConfig copy (type c) (options c) :: post
  ∧ rows (onDuplicate k st)
    = (λ row : Row,
         <[copy := nullish (prop row k) (getDefaultValue (type c))]> row)
        <$> rows st.
Proof.
  intros Hsplit Hc Hpre Hname. unfold onDuplicate.
  rewrite Hsplit, (find_key_first k pre post c) by done.
  rewrite Hname. simpl. split; [|done].
  assert (Hidx : (indexOf k (columnKeys st) + 1)%Z
                 = Z.of_nat (length (pre ++ [c]))).
  { unfold columnKeys. rewrite Hsplit, fmap_app, fmap_cons, Hc.
    rewrite indexOf_first by done.
    rewrite length_fmap, length_app. simpl. lia. }
  rewrite Hidx, Hsplit.
  replace (pre ++ c :: post) with ((pre ++ [c]) ++ post)
    by (by rewrite <- app_assoc).
  rewrite splice_at_cons. by rewrite <- app_assoc.
Qed.

(** C3.  On a table that has a column "amount" and no column named
    "amount (copy)" or "amount (copy 2)", two duplications of "amount"
    give the copies those two names, each placed right after the source,
    so the columns read amount, "amount (copy 2)", "amount (copy)"; both
    copies carry the type and the options of the source, and every row
    holds under both new keys its value under "amount", or the default
    value of the type when that value is null or undefined. *)
Theorem C3_duplicate_amount_twice (st : State) :
  let st1 := duplicateColumn "amount" st in
  let st2 := duplicateColumn "amount" st1 in
  "amount" ∈ columnKeys st →
  "amount (copy)" ∉ columnKeys st →
  "amount (copy 2)" ∉ columnKeys st →
  ∃ pre c post,
    columnConfigs st = pre ++ c :: post
    ∧ key c = "amount" ∧ ("amount" ∉ key <$> pre)
    ∧ columnConfigs st1
      = pre ++ c :: mkColumnConfig "amount (copy)" (type c) (options c)
            :: post
    ∧ columnConfigs st2
      = pre ++ c :: mkColumnConfig "amount (copy 2)" (type c) (options c)
            :: mkColumnConfig "amount (copy)" (type c) (options c)
            :: post
    ∧ length (rows st2) = length (rows st)
    ∧ ∀ i (row : Row), rows st !! i = Some row →
        ∃ row2 : Row,
          rows st2 !! i = Some row2
          ∧ row2 !! "amount (copy)"
            = Some (nullish (prop row "amount") (getDefaultValue (type c)))
          ∧ row2 !! "amount (copy 2)"
            = Some (nullish (prop row "amount") (getDefaultValue (type c)))
          ∧ (∀ v, row !! "amount" = Some v → v ≠ VNull → v ≠ VUndefined →
               row2 !! "amount (copy)" = Some v
               ∧ row2 !! "amount (copy 2)" = Some v)
          ∧ (∀ k, k ≠ "amount (copy)" → k ≠ "amount (copy 2)" →
               row2 !! k = row !! k).
Proof.
  intros st1 st2 Hin Hfree1 Hfree2.
  destruct (columns_split_first "amount" (columnConfigs st) Hin)
    as (pre & c & post & Hsplit & Hc & Hpre).
  exists pre, c, post.
  destruct (onDuplicate_present st "amount" "amount (copy)" pre post c)
    as [Hcols1 Hrows1]; [done..| by apply freeName_first |].
  fold (duplicateColumn "amount" st) in Hcols1, Hrows1. fold st1 in Hcols1, Hrows1.
  assert (Hkeys1 : columnKeys st1
                   = (key <$> pre) ++ "amount" :: "amount (copy)"
                       :: (key <$> post)).
  { unfold columnKeys. rewrite Hcols1, fmap_app, !fmap_cons. by rewrite Hc. }
  assert (Hkeys : columnKeys st = (key <$> pre) ++ "amount" :: (key <$> post)).
  { unfold columnKeys. rewrite Hsplit, fmap_app, !fmap_cons. by rewrite Hc. }
  destruct (onDuplicate_present st1 "amount" "amount (copy 2)" pre
              (mkColumnConfig "amount (copy)" (type c) (options c) :: post) c)
    as [Hcols2 Hrows2]; [done..| |].
  { apply (freeName_second _ _ (copyName "amount")).
    - rewrite Hkeys1. rewrite elem_of_app, !elem_of_cons. auto.
    - change (copyName "amount" 2) with "amount (copy 2)".
      rewrite Hkeys1. rewrite Hkeys in Hfree2.
      rewrite elem_of_app, !elem_of_cons in *.
      intros [?|[?|[?|?]]]; [tauto | done | done | tauto]. }
  fold (duplicateColumn "amount" st1) in Hcols2, Hrows2.
  fold st2 in Hcols2, Hrows2.
  split_and!; try done.
  - by rewrite Hrows2, Hrows1, !length_fmap.
  - intros i row Hi.
    set (v := nullish (prop row "amount") (getDefaultValue (type c))).
    exists (<["amount (copy 2)" := v]> (<["amount (copy)" := v]> row)).
    assert (Hrow2 : rows st2 !! i
              = Some (<["amount (copy 2)" := v]> (<["amount (copy)" := v]> row))).
    { rewrite Hrows2, Hrows1, !list_lookup_fmap, Hi. simpl.
      do 2 f_equal. unfold prop. by rewrite lookup_insert_ne. }
    assert (Hc1 : (<["amount (copy 2)" := v]> (<["amount (copy)" := v]> row) : Row)
                    !! "amount (copy)" = Some v).
    { rewrite lookup_insert_ne by done. by rewrite lookup_insert_eq. }
    assert (Hc2 : (<["amount (copy 2)" := v]> (<["amount (copy)" := v]> row) : Row)
                    !! "amount (copy 2)" = Some v).
    { by rewrite lookup_insert_eq. }
    split_and!; try done.
    + intros w Hw Hnull Hundef. rewrite Hc1, Hc2.
      unfold v, prop. rewrite Hw. by destruct w.
    + intros k Hk1 Hk2. by rewrite !lookup_insert_ne.
Qed.

Lemma C3_duplicate_amount_twice_witness :
  columnKeys (duplicateColumn "amount" (duplicateColumn "amount" demoState))
    = ["status"; "email"; "amount"; "amount (copy 2)"; "amount (copy)"].
Proof.
  destruct (C3_duplicate_amount_twice demoState)
    as (pre & c & post & Hsplit & Hc & Hpre & _ & Hcols2 & _);
    [by_includes..|].
  reflexivity.
Defined.

(** Two duplications of the one column amount: the second copy stands
    between the source and the first copy, and the row whose amount is
    null holds the default value, not null, under the copies. *)
Lemma C3_second_copy_precedes_first :
  let st2 := duplicateColumn "amount" (duplicateColumn "amount" amountState) in
  columnKeys st2 = ["amount"; "amount (copy 2)"; "amount (copy)"]
  ∧ columnKeys st2 ≠ ["amount"; "amount (copy)"; "amount (copy 2)"]
  ∧ (∃ row row2 : Row,
        rows amountState !! 1 = Some row ∧ rows st2 !! 1 = Some row2
        ∧ row !! "amount" = Some VNull
        ∧ row2 !! "amount (copy)" = Some (VStr "")).
Proof.
  split_and!.
  - reflexivity.
  - vm_compute. discriminate.
  - eexists _, _. split_and!; reflexivity.
Qed.

Lemma handleQuickAdd_select (st : State) :
  handleQuickAdd select st =
    setDialog
      (Some (PInsert (default "" (last (columnKeys st))) SideRight))
      "Select" select [] "" st.
Proof.
  unfold handleQuickAdd. rewrite bool_decide_eq_true_2 by done.
  destruct (last (columnKeys st)) as [k|]; [|done].
  simpl. case_bool_decide as Hk; [done|]. by rewrite Hk.
Qed.

Lemma handleQuickAdd_other (st : State) (t : ColumnType) (name : string) :
  t ≠ select →
  freeName (columnKeys st) (COLUMN_TYPE_LABELS t) (quickName t) = Some name →
  columnConfigs (handleQuickAdd t st)
    = columnConfigs st ++ [mkColumnConfig name t None]
  ∧ rows (handleQuickAdd t st)
    = (λ row : Row, <[name := getDefaultValue t]> row) <$> rows st.
Proof.
  intros Ht Hname. unfold handleQuickAdd.
  rewrite bool_decide_eq_false_2 by done. by rewrite Hname.
Qed.

(** C4.  A quick add of a type other than select names the new column by
    the label of the type when that is free, and else by the label and
    the least number from 2 on that makes a free name; it puts the
    column, without options, at the end and gives every row the default
    value of the type under the new key, leaving its other entries.  A
    quick add of the select type adds nothing: it opens the insertion
    dialog, to the right of the last column, on the name "Select".  Two
    quick adds of text on a table without columns "Text" and "Text 2"
    add "Text" and then "Text 2". *)
Theorem C4_quick_add_column (st : State) (t : ColumnType) :
  let label := COLUMN_TYPE_LABELS t in
  let st' := quickAddColumn t st in
  (t ≠ select →
   ∃ name,
     (name ∉ columnKeys st)
     ∧ (((label ∉ columnKeys st) ∧ name = label)
        ∨ (label ∈ columnKeys st
           ∧ ∃ j, 2 ≤ j ∧ name = label +:+ " " +:+ pretty j
                  ∧ ∀ m, 2 ≤ m < j →
                         label +:+ " " +:+ pretty m ∈ columnKeys st))
     ∧ columnConfigs st' = columnConfigs st ++ [mkColumnConfig name t None]
     ∧ length (rows st') = length (rows st)
     ∧ ∀ i (row : Row), rows st !! i = Some row →
         ∃ row' : Row,
           rows st' !! i = Some row'
           ∧ row' !! name = Some (getDefaultValue t)
           ∧ (∀ k, k ≠ name → row' !! k = row !! k))
  ∧ (columnConfigs (quickAddColumn select st) = columnConfigs st
     ∧ rows (quickAddColumn select st) = rows st
     ∧ pendingAction (quickAddColumn select st)
       = Some (PInsert (default "" (last (columnKeys st))) SideRight)
     ∧ dialogInput (quickAddColumn select st) = "Select"
     ∧ dialogType (quickAddColumn select st) = select)
  ∧ ("Text" ∉ columnKeys st → "Text 2" ∉ columnKeys st →
     columnKeys (quickAddColumn text st) = columnKeys st ++ ["Text"]
     ∧ columnKeys (quickAddColumn text (quickAddColumn text st))
       = columnKeys st ++ ["Text"; "Text 2"]).
Proof.
  intros label st'. split; [|split].
  - intros Ht.
    destruct (freeName_quick_total (columnKeys st) t) as [name Hname].
    destruct (handleQuickAdd_other st t name Ht Hname) as [Hcols Hrows].
    fold (quickAddColumn t st) in Hcols, Hrows. fold st' in Hcols, Hrows.
    apply whileIncludes_Some in Hname as [Hfree Hshape].
    exists name. split_and!; try done.
    + by rewrite Hrows, length_fmap.
    + intros i row Hi. eexists.
      split; [by rewrite Hrows, list_lookup_fmap, Hi|].
      split; [by rewrite lookup_insert_eq|].
      intros k Hk. by rewrite lookup_insert_ne.
  - unfold quickAddColumn. by rewrite handleQuickAdd_select.
  - intros Hfree1 Hfree2.
    destruct (handleQuickAdd_other st text "Text") as [Hcols1 _];
      [done | by apply freeName_first |].
    assert (Hkeys1 : columnKeys (quickAddColumn text st)
                     = columnKeys st ++ ["Text"]).
    { unfold columnKeys, quickAddColumn. by rewrite Hcols1, fmap_app. }
    split; [done|].
    destruct (handleQuickAdd_other (quickAddColumn text st) text "Text 2")
      as [Hcols2 _]; [done | |].
    { apply (freeName_second _ _ (quickName text)).
      - rewrite Hkeys1, elem_of_app, list_elem_of_singleton. auto.
      - change (quickName text 2) with "Text 2".
        rewrite Hkeys1, elem_of_app, list_elem_of_singleton.
        intros [?|?]; done. }
    unfold columnKeys at 1. unfold quickAddColumn at 1.
    rewrite Hcols2, fmap_app. fold (columnKeys (quickAddColumn text st)).
    rewrite Hkeys1. by rewrite <- app_assoc.
Qed.

Lemma C4_quick_add_column_witness :
  columnKeys (quickAddColumn text (quickAddColumn text demoState))
    = ["status"; "email"; "amount"; "Text"; "Text 2"].
Proof.
  destruct (C4_quick_add_column demoState text) as (_ & _ & Htwice).
  destruct Htwice as [_ H2]; [by_includes..|].
  rewrite H2. reflexivity.
Defined.

(** A quick add of the select type appends no column and gives no row
    an entry: it only opens the dialog. *)
Lemma C4_quick_add_select_adds_nothing :
  let st' := quickAddColumn select demoState in
  columnKeys st' = ["status"; "email"; "amount"]
  ∧ rows st' = rows demoState
  ∧ (∀ row : Row, row ∈ rows st' → row !! "Select" = None)
  ∧ pendingAction st' = Some (PInsert "amount" SideRight).
Proof.
  split_and!; try reflexivity.
  intros row Hrow. vm_compute in Hrow.
  apply list_elem_of_singleton in Hrow as ->. reflexivity.
Qed.

(** ** Rows and their identifiers *)

Lemma getRowId_absent (row : Row) :
  row !! "id" = None ∨ row !! "id" = Some VUndefined
    ∨ row !! "id" = Some VNull →
  getRowId row = "".
Proof.
  unfold getRowId, prop. by intros [-> | [-> | ->]].
Qed.

Lemma getRowId_present (row : Row) (v : Value) :
  row !! "id" = Some v → v ≠ VUndefined → v ≠ VNull →
  getRowId row = String_ v.
Proof.
  unfold getRowId, prop. intros -> ? ?. by destruct v.
Qed.

Lemma elem_of_selectedRows (st : State) (row : Row) :
  row ∈ selectedRows st
  ↔ rowSelection st ≠ ∅
    ∧ isRowSelected (rowSelection st) (getRowId row) = true
    ∧ row ∈ rows st.
Proof.
  unfold selectedRows. case_bool_decide as Hempty.
  - split; [by intros ?%elem_of_nil | by intros [? _]].
  - rewrite list_elem_of_filter. tauto.
Qed.

Lemma elem_of_selectedIds (st : State) (i : string) :
  i ∈@{gset string} list_to_set (getRowId <$> selectedRows st)
  ↔ rowSelection st ≠ ∅
    ∧ isRowSelected (rowSelection st) i = true
    ∧ ∃ row : Row, row ∈ rows st ∧ getRowId row = i.
Proof.
  rewrite elem_of_list_to_set, list_elem_of_fmap.
  split.
  - intros (row & -> & Hrow).
    apply elem_of_selectedRows in Hrow as (? & ? & ?). eauto.
  - intros (Hne & Hsel & row & Hin & <-). exists row. split; [done|].
    by apply elem_of_selectedRows.
Qed.

Lemma isRowSelected_own (selection : gmap string bool) (i : string) :
  selection !! i = Some true → isRowSelected selection i = true.
Proof. unfold isRowSelected. by intros ->. Qed.

Lemma isRowSelected_plain (selection : gmap string bool) (i : string) :
  inObjectPrototype i = false →
  isRowSelected selection i = true ↔ selection !! i = Some true.
Proof.
  unfold isRowSelected. intros Hi.
  destruct (selection !! i) as [[]|]; rewrite ?Hi; naive_solver.
Qed.

Lemma isRowSelected_ids (ids : gset string) (i : string) :
  isRowSelected (gset_to_gmap true ids) i = true
  ↔ i ∈ ids ∨ inObjectPrototype i = true.
Proof.
  unfold isRowSelected.
  destruct (gset_to_gmap true ids !! i) as [b|] eqn:Hlook.
  - apply lookup_gset_to_gmap_Some in Hlook as [Hin <-]. tauto.
  - apply lookup_gset_to_gmap_None in Hlook. tauto.
Qed.

Lemma gset_to_gmap_empty_iff (ids : gset string) :
  gset_to_gmap true ids = (∅ : gmap string bool) ↔ ids = ∅.
Proof.
  split.
  - intros Hempty. apply leibniz_equiv, elem_of_equiv_empty. intros i Hi.
    assert (Hlook : gset_to_gmap true ids !! i = Some true)
      by (by apply lookup_gset_to_gmap_Some).
    by rewrite Hempty, lookup_empty in Hlook.
  - intros ->. apply gset_to_gmap_empty.
Qed.

Lemma elem_of_rows_handleDeleteSelectedRows (st : State) (row : Row) :
  row ∈ rows (handleDeleteSelectedRows st)
  ↔ row ∈ rows st
    ∧ getRowId row ∉@{gset string} list_to_set (getRowId <$> selectedRows st).
Proof.
  unfold handleDeleteSelectedRows. simpl.
  rewrite list_elem_of_filter. tauto.
Qed.

Lemma elem_of_rows_deleteRows (ids : gset string) (st : State) (row : Row) :
  row ∈ rows (deleteRows ids st)
  ↔ row ∈ rows st
    ∧ (ids = ∅
       ∨ ((getRowId row ∉ ids)
          ∧ inObjectPrototype (getRowId row) = false)).
Proof.
  unfold deleteRows. rewrite elem_of_rows_handleDeleteSelectedRows.
  rewrite elem_of_selectedIds. simpl.
  rewrite isRowSelected_ids, gset_to_gmap_empty_iff.
  split.
  - intros [Hin Hn]. split; [done|].
    destruct (decide (ids = ∅)) as [|Hne]; [by left|right].
    destruct (inObjectPrototype (getRowId row)) eqn:Hproto.
    + exfalso. apply Hn. eauto 6.
    + split; [|done]. intros Hid. apply Hn. eauto 6.
  - intros [Hin Hn]. split; [done|].
    intros (Hne & Hsel & _). destruct Hn as [?|[Hout Hproto]]; [done|].
    destruct Hsel as [?|Hsel]; [done|]. by rewrite Hproto in Hsel.
Qed.

(** ** The invariants of the table model *)

Lemma rowsComplete_On (st : State) :
  rowsComplete st ↔ rowsCompleteOn (λ _, True) st.
Proof.
  unfold rowsComplete, rowsCompleteOn. naive_solver.
Qed.

Lemma rowsCompleteOn_weaken (P Q : string → Prop) (st : State) :
  (∀ k, Q k → P k) → rowsCompleteOn P st → rowsCompleteOn Q st.
Proof.
  unfold rowsCompleteOn. naive_solver.
Qed.

(** [row[key] = v] at the other keys. *)
Lemma lookup_assign_ne (key k : string) (v : Value) (row : Row) :
  key ≠ k → assign key v row !! k = row !! k.
Proof.
  intros Hne. unfold assign. case_match; [done|].
  by rewrite lookup_insert_ne.
Qed.

(** [row[key] = v] at the key: stored, unless the key is "__proto__". *)
Lemma lookup_assign_eq (key : string) (v : Value) (row : Row) :
  key ≠ "__proto__" → assign key v row !! key = Some v.
Proof.
  intros Hne. unfold assign.
  rewrite bool_decide_eq_false_2 by done. simpl.
  by rewrite lookup_insert_eq.
Qed.

Lemma lookup_assign_proto (v : Value) (row : Row) :
  row !! "__proto__" = None → assign "__proto__" v row = row.
Proof.
  intros Hnone. unfold assign.
  by rewrite !bool_decide_eq_true_2.
Qed.

Section Invariants.
Variable P : string → Prop.

(** Both invariants read columns and rows only. *)
Lemma invariants_same_table (st st' : State) :
  columnConfigs st' = columnConfigs st → rows st' = rows st →
  keysDistinct st ∧ rowsCompleteOn P st →
  keysDistinct st' ∧ rowsCompleteOn P st'.
Proof.
  unfold keysDistinct, rowsCompleteOn, columnKeys. by intros -> ->.
Qed.

(** A new key on every row, next to the keys the rows had. *)
Lemma rowsComplete_new_key (st st' : State) (name : string)
    (v : Row → Value) :
  (∀ k, k ∈ columnKeys st' → k = name ∨ k ∈ columnKeys st) →
  rows st' = (λ row : Row, <[name := v row]> row) <$> rows st →
  rowsCompleteOn P st → rowsCompleteOn P st'.
Proof.
  intros Hkeys Hrows Hinv row' Hrow' k Hk HP.
  rewrite Hrows in Hrow'.
  apply list_elem_of_fmap in Hrow' as (row & -> & Hrow).
  destruct (decide (k = name)) as [->|Hne].
  - rewrite lookup_insert_eq. by eexists.
  - rewrite lookup_insert_ne by done.
    apply (Hinv row Hrow); [|done]. by destruct (Hkeys k Hk).
Qed.

(** A column put somewhere among the columns. *)
Lemma keysDistinct_new_column (st st' : State) (n : nat)
    (new : ColumnConfig) :
  columnConfigs st'
    = take n (columnConfigs st) ++ new :: drop n (columnConfigs st) →
  key new ∉ columnKeys st →
  keysDistinct st →
  keysDistinct st'
  ∧ ∀ k, k ∈ columnKeys st' → k = key new ∨ k ∈ columnKeys st.
Proof.
  intros Hcols Hfree Hinv.
  assert (Hperm : columnKeys st' ≡ₚ key new :: columnKeys st).
  { assert (Hp : columnConfigs st' ≡ₚ new :: columnConfigs st).
    { rewrite Hcols, <- Permutation_middle. by rewrite take_drop. }
    unfold columnKeys. by rewrite Hp. }
  split.
  - unfold keysDistinct. rewrite Hperm. by apply NoDup_cons.
  - intros k Hk. rewrite Hperm in Hk. by apply elem_of_cons in Hk.
Qed.

(** The submission of the dialog, whatever the dialog holds. *)
Lemma handleDialogSubmit_invariants (st : State) :
  keysDistinct st ∧ rowsCompleteOn P st →
  keysDistinct (handleDialogSubmit st)
  ∧ rowsCompleteOn P (handleDialogSubmit st).
Proof.
  intros Hinv.
  destruct (pendingAction st) as [[oldKey|k side]|] eqn:Hact;
    [| |by rewrite handleDialogSubmit_closed].
  - destruct (decide (trim (dialogInput st) = "")) as [Hempty|Hne];
      [by rewrite handleDialogSubmit_empty|].
    destruct (decide (trim (dialogInput st) ≠ oldKey
                      ∧ trim (dialogInput st) ∈ columnKeys st))
      as [[Hch Hin]|Hok];
      [by rewrite (handleDialogSubmit_edit_collision _ oldKey)|].
    assert (Hfree : trim (dialogInput st) ≠ oldKey →
                    trim (dialogInput st) ∉ columnKeys st) by tauto.
    destruct (handleDialogSubmit_edit st oldKey Hact Hne Hfree)
      as (Hcols & Hrows & _).
    set (st' := handleDialogSubmit st) in *.
    set (name := trim (dialogInput st)) in *.
    destruct Hinv as [Hdistinct Hcomplete].
    assert (Hkeys : columnKeys st'
              = (λ k, if decide (k = oldKey) then name else k)
                  <$> columnKeys st).
    { unfold columnKeys. rewrite Hcols, <- !list_fmap_compose.
      apply list_fmap_ext. intros _ c _. simpl.
      by destruct (decide (key c = oldKey)). }
    destruct (decide (name = oldKey)) as [Hsame|Hch].
    + (* the key stays: the keys and the rows are the old ones *)
      assert (Hkeys' : columnKeys st' = columnKeys st).
      { rewrite Hkeys. rewrite <- (list_fmap_id (columnKeys st)) at 2.
        apply list_fmap_ext. intros _ k _. simpl.
        destruct (decide (k = oldKey)); congruence. }
      split.
      * unfold keysDistinct. by rewrite Hkeys'.
      * unfold rowsCompleteOn. by rewrite Hkeys', Hrows.
    + specialize (Hfree Hch). split.
      * unfold keysDistinct. rewrite Hkeys.
        apply NoDup_fmap_2_strong; [|done].
        intros x y Hx Hy.
        destruct (decide (x = oldKey)), (decide (y = oldKey)); congruence.
      * intros row' Hrow' k Hk HP. rewrite Hrows in Hrow'.
        apply list_elem_of_fmap in Hrow' as (row & -> & Hrow).
        rewrite Hkeys in Hk.
        apply list_elem_of_fmap in Hk as (k0 & Hk & Hk0).
        destruct (decide (k0 = oldKey)) as [Hold|Hold].
        -- subst k. rewrite lookup_insert_eq. by eexists.
        -- subst k. rewrite lookup_insert_ne by congruence.
           rewrite lookup_delete_ne by done. by apply (Hcomplete row).
  - destruct (decide (trim (dialogInput st) = "")) as [Hempty|Hne];
      [by rewrite handleDialogSubmit_empty|].
    destruct (decide (trim (dialogInput st) ∈ columnKeys st)) as [Hin|Hfree];
      [by rewrite (handleDialogSubmit_insert_collision _ k side)|].
    destruct (handleDialogSubmit_insert st k side Hact Hne Hfree)
      as (Hcols & Hrows & _).
    destruct (insertIdx_nat (columnKeys st) k side) as [n Hn].
    rewrite Hn, slice_0_take, sliceFrom_drop in Hcols.
    destruct Hinv as [Hdistinct Hcomplete].
    destruct (keysDistinct_new_column _ _ n _ Hcols Hfree Hdistinct)
      as [Hdistinct' Hkeys].
    split; [done|].
    by apply (rowsComplete_new_key st _ (trim (dialogInput st))
                (λ _, getDefaultValue (dialogType st))).
Qed.

Lemma renameColumn_invariants (st : State) (oldKey cand : string)
    (t : ColumnType) (opts : list string) :
  keysDistinct st ∧ rowsCompleteOn P st →
  keysDistinct (renameColumn oldKey cand t opts st)
  ∧ rowsCompleteOn P (renameColumn oldKey cand t opts st).
Proof.
  intros Hinv. apply handleDialogSubmit_invariants.
  by apply (invariants_same_table st).
Qed.

Lemma insertColumn_invariants (st : State) (anchorKey : string)
    (side : Side) (cand : string) (t : ColumnType) (opts : list string) :
  keysDistinct st ∧ rowsCompleteOn P st →
  keysDistinct (insertColumn anchorKey side cand t opts st)
  ∧ rowsCompleteOn P (insertColumn anchorKey side cand t opts st).
Proof.
  intros Hinv. apply handleDialogSubmit_invariants.
  by apply (invariants_same_table st).
Qed.

Lemma duplicateColumn_invariants (st : State) (k : string) :
  keysDistinct st ∧ rowsCompleteOn P st →
  keysDistinct (duplicateColumn k st)
  ∧ rowsCompleteOn P (duplicateColumn k st).
Proof.
  intros Hinv. unfold duplicateColumn.
  destruct (decide (k ∈ columnKeys st)) as [Hin|Hout];
    [|by rewrite onDuplicate_absent].
  destruct (columns_split_first k (columnConfigs st) Hin)
    as (pre & c & post & Hsplit & Hc & Hpre).
  destruct (freeName_copy_total (columnKeys st) k) as [copy Hcopy].
  destruct (onDuplicate_present st k copy pre post c Hsplit Hc Hpre Hcopy)
    as [Hcols Hrows].
  apply whileIncludes_Some in Hcopy as [Hfree _].
  destruct Hinv as [Hdistinct Hcomplete].
  destruct (keysDistinct_new_column st (onDuplicate k st)
              (S (length pre))
              (mkColumnConfig copy (type c) (options c)))
    as [Hdistinct' Hkeys]; [|done..|].
  { rewrite Hcols, Hsplit.
    replace (pre ++ c :: post) with ((pre ++ [c]) ++ post)
      by (by rewrite <- app_assoc).
    replace (S (length pre)) with (length (pre ++ [c]))
      by (rewrite length_app; simpl; lia).
    rewrite take_app_length, drop_app_length. by rewrite <- !app_assoc. }
  split; [done|].
  by apply (rowsComplete_new_key st _ copy
              (λ row, nullish (prop row k) (getDefaultValue (type c)))).
Qed.

Lemma quickAddColumn_invariants (st : State) (t : ColumnType) :
  keysDistinct st ∧ rowsCompleteOn P st →
  keysDistinct (quickAddColumn t st)
  ∧ rowsCompleteOn P (quickAddColumn t st).
Proof.
  intros Hinv. unfold quickAddColumn.
  destruct (decide (t = select)) as [->|Ht].
  { apply (invariants_same_table st); [..|done];
      by rewrite handleQuickAdd_select. }
  destruct (freeName_quick_total (columnKeys st) t) as [name Hname].
  destruct (handleQuickAdd_other st t name Ht Hname) as [Hcols Hrows].
  apply whileIncludes_Some in Hname as [Hfree _].
  destruct Hinv as [Hdistinct Hcomplete].
  destruct (keysDistinct_new_column st (handleQuickAdd t st)
              (length (columnConfigs st)) (mkColumnConfig name t None))
    as [Hdistinct' Hkeys]; [|done..|].
  { by rewrite Hcols, take_ge, drop_ge by lia. }
  split; [done|].
  by apply (rowsComplete_new_key st _ name (λ _, getDefaultValue t)).
Qed.

Lemma deleteColumn_invariants (st : State) (k : string) :
  keysDistinct st ∧ rowsCompleteOn P st →
  keysDistinct (deleteColumn k st) ∧ rowsCompleteOn P (deleteColumn k st).
Proof.
  intros [Hdistinct Hcomplete].
  assert (Hsub : columnKeys (deleteColumn k st) `sublist_of` columnKeys st).
  { unfold columnKeys, deleteColumn, onDelete. simpl.
    apply fmap_sublist, sublist_filter. }
  split.
  - by eapply sublist_NoDup.
  - intros row Hrow k' Hk'. apply (Hcomplete row Hrow).
    by eapply elem_of_sublist.
Qed.

(** The row that [handleAddRow] builds has an entry for every column key
    but "__proto__". *)
Lemma addRow_invariants (st : State) (uuid : string) :
  (∀ k, P k → k ≠ "__proto__") →
  keysDistinct st ∧ rowsCompleteOn P st →
  keysDistinct (addRow uuid st) ∧ rowsCompleteOn P (addRow uuid st).
Proof.
  intros HP [Hdistinct Hcomplete]. split; [done|].
  intros row Hrow k Hk HPk. unfold addRow, handleAddRow in Hrow.
  simpl in Hrow. apply elem_of_app in Hrow as [Hrow|Hrow].
  { by apply (Hcomplete row). }
  apply list_elem_of_singleton in Hrow as ->.
  change (columnKeys (addRow uuid st)) with (key <$> columnConfigs st) in Hk.
  specialize (HP k HPk).
  generalize ({[ "id" := VStr uuid ]} : Row).
  induction (columnConfigs st) as [|c cols IH] using rev_ind; intros init.
  - by apply elem_of_nil in Hk.
  - rewrite foldl_app. simpl.
    rewrite fmap_app in Hk. apply elem_of_app in Hk as [Hk|Hk].
    + destruct (decide (key c = k)) as [->|Hne].
      * rewrite lookup_assign_eq by done. by eexists.
      * rewrite lookup_assign_ne by done. by apply IH.
    + apply list_elem_of_singleton in Hk as ->.
      rewrite lookup_assign_eq by done. by eexists.
Qed.

Lemma handleDeleteSelectedRows_invariants (st : State) :
  keysDistinct st ∧ rowsCompleteOn P st →
  keysDistinct (handleDeleteSelectedRows st)
  ∧ rowsCompleteOn P (handleDeleteSelectedRows st).
Proof.
  intros [Hdistinct Hcomplete]. split; [done|].
  intros row Hrow k Hk.
  apply elem_of_rows_handleDeleteSelectedRows in Hrow as [Hrow _].
  by apply (Hcomplete row).
Qed.

Lemma deleteRows_invariants (st : State) (ids : gset string) :
  keysDistinct st ∧ rowsCompleteOn P st →
  keysDistinct (deleteRows ids st) ∧ rowsCompleteOn P (deleteRows ids st).
Proof.
  intros Hinv. apply handleDeleteSelectedRows_invariants.
  by apply (invariants_same_table st).
Qed.

Lemma setCellValue_invariants (st : State) (rowIndex : nat) (k : string)
    (value : Value) :
  keysDistinct st ∧ rowsCompleteOn P st →
  keysDistinct (setCellValue rowIndex k value st)
  ∧ rowsCompleteOn P (setCellValue rowIndex k value st).
Proof.
  intros [Hdistinct Hcomplete]. split; [done|].
  intros row' Hrow' k' Hk' HP. unfold setCellValue, onCellChange in Hrow'.
  simpl in Hrow'.
  apply elem_of_lookup_imap in Hrow' as (i & row & -> & Hi).
  assert (Hold : is_Some (row !! k')).
  { apply (Hcomplete row); [|done..]. by eapply list_elem_of_lookup_2. }
  case_bool_decide; [|done].
  destruct (decide (k = k')) as [->|Hne].
  - rewrite lookup_insert_eq. by eexists.
  - by rewrite lookup_insert_ne.
Qed.

(** One mutation: every one keeps the invariants, adding a row as long
    as [P] leaves out "__proto__". *)
Lemma applyMutation_invariants (m : Mutation) (st : State) :
  (∀ k, P k → k ≠ "__proto__") ∨ (∀ uuid, m ≠ AddRow uuid) →
  keysDistinct st ∧ rowsCompleteOn P st →
  keysDistinct (applyMutation m st) ∧ rowsCompleteOn P (applyMutation m st).
Proof.
  intros HP. destruct m; simpl.
  - apply renameColumn_invariants.
  - apply insertColumn_invariants.
  - apply duplicateColumn_invariants.
  - apply quickAddColumn_invariants.
  - apply deleteColumn_invariants.
  - done.
  - destruct HP as [HP|HP]; [by apply addRow_invariants|].
    by destruct (HP uuid).
  - apply deleteRows_invariants.
  - apply setCellValue_invariants.
Qed.

Lemma runMutations_invariants (ms : list Mutation) (st : State) :
  (∀ k, P k → k ≠ "__proto__") ∨ (∀ uuid, AddRow uuid ∉ ms) →
  keysDistinct st ∧ rowsCompleteOn P st →
  keysDistinct (runMutations ms st) ∧ rowsCompleteOn P (runMutations ms st).
Proof.
  revert st. induction ms as [|m ms IH]; intros st HP Hinv; [done|].
  apply IH.
  - destruct HP as [HP|HP]; [by left|right].
    intros uuid Hin. apply (HP uuid). by apply list_elem_of_further.
  - apply applyMutation_invariants; [|done].
    destruct HP as [HP|HP]; [by left|right].
    intros uuid ->. apply (HP uuid), list_elem_of_here.
Qed.

End Invariants.

Lemma keysDistinct_demoState : keysDistinct demoState.
Proof.
  unfold keysDistinct. apply (bool_decide_unpack _). vm_compute. exact I.
Qed.

Lemma rowsComplete_demoState : rowsComplete demoState.
Proof.
  intros row Hrow k Hk.
  apply list_elem_of_singleton in Hrow as ->.
  unfold columnKeys in Hk. simpl in Hk.
  rewrite !elem_of_cons in Hk.
  destruct Hk as [->|[->|[->|Hk]]];
    [..|by apply elem_of_nil in Hk];
    apply (bool_decide_unpack _); vm_compute; exact I.
Qed.

(** C1.  The claim fails on the code.  The demo table has pairwise
    distinct column keys and complete rows.  After a column "__proto__"
    is inserted and a row is added, the keys are still pairwise distinct
    and "__proto__" is one of them, but the added row has no entry under
    it: [handleAddRow] stores the defaults by assignment, and an
    assignment under "__proto__" stores nothing.  So the rows are no
    longer complete. *)
Theorem C1_added_row_lacks_proto_entry :
  keysDistinct demoState ∧ rowsComplete demoState
  ∧ keysDistinct (runMutations protoMutations demoState)
  ∧ "__proto__" ∈ columnKeys (runMutations protoMutations demoState)
  ∧ (∃ row : Row,
       rows (runMutations protoMutations demoState) !! 1 = Some row
       ∧ row !! "__proto__" = None
       ∧ row !! "status" = Some (VStr ""))
  ∧ ¬ rowsComplete (runMutations protoMutations demoState).
Proof.
  assert (Hrow : ∃ row : Row,
       rows (runMutations protoMutations demoState) !! 1 = Some row
       ∧ row !! "__proto__" = None
       ∧ row !! "status" = Some (VStr "")).
  { eexists. split; [reflexivity|]. split; by vm_compute. }
  assert (Hkey : "__proto__"
                 ∈ columnKeys (runMutations protoMutations demoState)).
  { by_includes. }
  split_and!.
  - apply keysDistinct_demoState.
  - apply rowsComplete_demoState.
  - unfold keysDistinct. apply (bool_decide_unpack _). vm_compute. exact I.
  - exact Hkey.
  - exact Hrow.
  - intros Hcomplete. destruct Hrow as (row & Hlook & Hnone & _).
    apply list_elem_of_lookup_2 in Hlook.
    destruct (Hcomplete row Hlook "__proto__" Hkey) as [v Hv].
    by rewrite Hnone in Hv.
Qed.

(** ** The display formatter *)
Section Format.
Context `{Host}.

Lemma formatCellValue_empty (t : ColumnType) :
  formatCellValue VUndefined t = ""
  ∧ formatCellValue VNull t = ""
  ∧ formatCellValue (VStr "") t = "".
Proof. by destruct t. Qed.

Lemma formatCellValue_phone_unfold (value : Value) :
  value ≠ VUndefined → value ≠ VNull → value ≠ VStr "" →
  formatCellValue value phone =
    let digits := stripNonDigits (String_ value) in
    if bool_decide (String.length digits = 10) then
      "(" +:+ strSlice 0 3 digits +:+ ") " +:+ strSlice 3 6 digits
          +:+ "-" +:+ strSliceFrom 6 digits
    else if bool_decide (String.length digits = 11)
            && startsWith "1" digits then
      "+1 (" +:+ strSlice 1 4 digits +:+ ") " +:+ strSlice 4 7 digits
             +:+ "-" +:+ strSliceFrom 7 digits
    else String_ value.
Proof.
  intros Hu Hn He. unfold formatCellValue.
  rewrite bool_decide_eq_false_2; [done | by intros [?|[?|?]]].
Qed.

End Format.

(** A string of a known small length is a sequence of that many
    characters. *)
Ltac explode_string s H :=
  repeat (destruct s as [| ? s]; simpl in H; try discriminate H);
  clear H.

(** C9.  A value that is neither null, undefined nor the empty string is
    formatted as a phone number from its digits alone: ten digits
    [AAABBBCCCC] give ["(AAA) BBB-CCCC"], eleven digits [1AAABBBCCCC]
    give ["+1 (AAA) BBB-CCCC"], and a digit count other than ten and
    eleven gives the value's own string; so do eleven digits that do not
    start with 1.  The three examples of the specification follow. *)
Theorem C9_format_phone `{Host} (value : Value) :
  value ≠ VUndefined → value ≠ VNull → value ≠ VStr "" →
  let digits := stripNonDigits (String_ value) in
  (∀ a b c : string,
      String.length a = 3 → String.length b = 3 → String.length c = 4 →
      digits = a +:+ b +:+ c →
      formatCellValue value phone = "(" +:+ a +:+ ") " +:+ b +:+ "-" +:+ c)
  ∧ (∀ a b c : string,
      String.length a = 3 → String.length b = 3 → String.length c = 4 →
      digits = "1" +:+ a +:+ b +:+ c →
      formatCellValue value phone
        = "+1 (" +:+ a +:+ ") " +:+ b +:+ "-" +:+ c)
  ∧ (String.length digits ≠ 10 → String.length digits ≠ 11 →
      formatCellValue value phone = String_ value)
  ∧ (String.length digits = 11 → startsWith "1" digits = false →
      formatCellValue value phone = String_ value)
  ∧ formatCellValue (VStr "5551234567") phone = "(555) 123-4567"
  ∧ formatCellValue (VStr "15551234567") phone = "+1 (555) 123-4567"
  ∧ formatCellValue (VStr "123") phone = "123".
Proof.
  intros Hu Hn He digits.
  rewrite (formatCellValue_phone_unfold value Hu Hn He).
  fold digits. cbv zeta.
  repeat split.
  - intros a b c Ha Hb Hc ->.
    explode_string a Ha. explode_string b Hb. explode_string c Hc.
    reflexivity.
  - intros a b c Ha Hb Hc ->.
    explode_string a Ha. explode_string b Hb. explode_string c Hc.
    reflexivity.
  - intros H10 H11.
    rewrite (bool_decide_eq_false_2 _ H10), (bool_decide_eq_false_2 _ H11).
    reflexivity.
  - intros H11 H1.
    rewrite H11, H1. reflexivity.
Qed.

Lemma C9_format_phone_witness :
  formatCellValue (H := noHost) (VStr "555-123-4567") phone = "(555) 123-4567".
Proof.
  pose proof (C9_format_phone (H := noHost) (VStr "555-123-4567")
                ltac:(discriminate) ltac:(discriminate) ltac:(discriminate))
    as [H10 _].
  apply (H10 "555" "123" "4567"); reflexivity.
Defined.

(** ** Sorting by a column *)

Lemma sorting_toggleSort (k : string) (st : State) :
  sorting (toggleSort k st) =
    match JS.find (λ s, bool_decide (sortId s = k)) (sorting st) with
    | None => [mkColumnSort k false]
    | Some existing => if desc existing then [] else [mkColumnSort k true]
    end.
Proof.
  unfold toggleSort, onSort. simpl.
  destruct (JS.find _ _) as [[i []]|]; reflexivity.
Qed.

Lemma find_sortId_none (k : string) (l : list ColumnSort) :
  (∀ d, d ∈ l → sortId d ≠ k) →
  JS.find (λ s, bool_decide (sortId s = k)) l = None.
Proof.
  induction l as [|d l IH]; intros Hall; [done|].
  simpl. rewrite bool_decide_eq_false_2.
  - apply IH. intros d' Hd'. apply Hall. by right.
  - apply Hall. by left.
Qed.

(** C7.  [toggleSort k] sets [{k, ascending}] when no descriptor is on
    [k] (none at all, or only on other columns), turns [{k, ascending}]
    into [{k, descending}] and [{k, descending}] into no descriptor; it
    never leaves more than one descriptor and touches neither columns nor
    rows; from the unsorted state three toggles of [k] go through
    ascending and descending back to unsorted. *)
Theorem C7_toggleSort (k : string) (st : State) :
  ((∀ d, d ∈ sorting st → sortId d ≠ k) →
     sorting (toggleSort k st) = [mkColumnSort k false])
  ∧ (sorting st = [mkColumnSort k false] →
     sorting (toggleSort k st) = [mkColumnSort k true])
  ∧ (sorting st = [mkColumnSort k true] →
     sorting (toggleSort k st) = [])
  ∧ length (sorting (toggleSort k st)) ≤ 1
  ∧ (sorting st = [] →
     sorting (toggleSort k st) = [mkColumnSort k false]
     ∧ sorting (toggleSort k (toggleSort k st)) = [mkColumnSort k true]
     ∧ sorting (toggleSort k (toggleSort k (toggleSort k st))) = [])
  ∧ columnConfigs (toggleSort k st) = columnConfigs st
  ∧ rows (toggleSort k st) = rows st.
Proof.
  assert (Hasc : ∀ s, sorting s = [mkColumnSort k false] →
                      sorting (toggleSort k s) = [mkColumnSort k true]).
  { intros s Hs. rewrite sorting_toggleSort, Hs. simpl.
    by rewrite bool_decide_eq_true_2. }
  assert (Hdesc : ∀ s, sorting s = [mkColumnSort k true] →
                       sorting (toggleSort k s) = []).
  { intros s Hs. rewrite sorting_toggleSort, Hs. simpl.
    by rewrite bool_decide_eq_true_2. }
  assert (Hnone : ∀ s, (∀ d, d ∈ sorting s → sortId d ≠ k) →
                       sorting (toggleSort k s) = [mkColumnSort k false]).
  { intros s Hs. by rewrite sorting_toggleSort, find_sortId_none. }
  split_and!; try done.
  - by apply Hnone.
  - by apply Hasc.
  - by apply Hdesc.
  - rewrite sorting_toggleSort.
    destruct (JS.find _ _) as [[i []]|]; simpl; lia.
  - intros Hnil.
    assert (H1 : sorting (toggleSort k st) = [mkColumnSort k false]).
    { apply Hnone. rewrite Hnil. intros d Hd. by apply elem_of_nil in Hd. }
    split_and!; [done | by apply Hasc | by apply Hdesc, Hasc].
Qed.

Lemma C7_toggleSort_witness :
  sorting (toggleSort "amount" demoState) = [mkColumnSort "amount" false]
  ∧ sorting (toggleSort "amount" (toggleSort "amount" demoState))
    = [mkColumnSort "amount" true]
  ∧ sorting (toggleSort "amount"
               (toggleSort "amount" (toggleSort "amount" demoState))) = [].
Proof.
  destruct (C7_toggleSort "amount" demoState) as (_ & _ & _ & _ & Hcycle & _).
  apply Hcycle. reflexivity.
Defined.

(** ** Aggregates *)


Section Sorting.
Context {T : Type} `{Arith T}.
Implicit Types (l u : list T) (a b c x : T).

(** The sort rearranges, whatever the comparator and the arithmetic. *)
Lemma insertBy_Permutation (cmp : T → T → T) x l :
  insertBy cmp x l ≡ₚ x :: l.
Proof.
  induction l as [|y l IH]; simpl; [done|].
  destruct (nPos _); [|done].
  rewrite IH. apply Permutation_swap.
Qed.

Lemma sortBy_Permutation (cmp : T → T → T) l :
  sortBy cmp l ≡ₚ l.
Proof.
  induction l as [|x l IH]; simpl; [done|].
  unfold sortBy in *. simpl. by rewrite insertBy_Permutation, IH.
Qed.

Lemma sortBy_length (cmp : T → T → T) l :
  length (sortBy cmp l) = length l.
Proof. apply Permutation_length, sortBy_Permutation. Qed.

Lemma insertBy_cons (cmp : T → T → T) x (y : T) l :
  insertBy cmp x (y :: l)
  = if nPos (cmp x y) then y :: insertBy cmp x l else x :: y :: l.
Proof. reflexivity. Qed.

Lemma at_elem l (i : nat) : i < length l → at_ l i ∈ l.
Proof.
  intros Hi. unfold at_.
  destruct (lookup_lt_is_Some_2 l i Hi) as [x Hx].
  rewrite (nth_lookup_Some _ _ _ _ Hx). by eapply list_elem_of_lookup_2.
Qed.

Lemma consistentOn_total u a b :
  consistentOn u → a ∈ u → b ∈ u → notAfter a b ∨ notAfter b a.
Proof.
  intros Hu Ha Hb. unfold consistentOn in Hu.
  rewrite Forall_forall in Hu. specialize (Hu a Ha).
  rewrite Forall_forall in Hu. by destruct (Hu b Hb).
Qed.

Lemma consistentOn_trans u a b c :
  consistentOn u → a ∈ u → b ∈ u → c ∈ u →
  notAfter a b → notAfter b c → notAfter a c.
Proof.
  intros Hu Ha Hb Hc. unfold consistentOn in Hu.
  rewrite Forall_forall in Hu. specialize (Hu a Ha).
  rewrite Forall_forall in Hu. destruct (Hu b Hb) as [_ Htrans].
  rewrite Forall_forall in Htrans. by apply Htrans.
Qed.

Lemma separatedOn_eq u a b :
  separatedOn u → a ∈ u → b ∈ u → notAfter a b → notAfter b a → a = b.
Proof.
  intros Hu Ha Hb. unfold separatedOn in Hu.
  rewrite Forall_forall in Hu. specialize (Hu a Ha).
  rewrite Forall_forall in Hu. by apply Hu.
Qed.

(** Under a consistent comparator the sort puts no number before one
    that is not after it. *)
Lemma insertBy_StronglySorted u x l :
  consistentOn u → x ∈ u → (∀ y, y ∈ l → y ∈ u) →
  StronglySorted notAfter l →
  StronglySorted notAfter (insertBy (λ a b, nSub a b) x l).
Proof.
  intros Hu Hx Hl Hsorted.
  induction Hsorted as [|y l Hs IH Hall].
  - by repeat constructor.
  - assert (Hy : y ∈ u) by apply Hl, list_elem_of_here.
    assert (Hl' : ∀ z, z ∈ l → z ∈ u).
    { intros z Hz. by apply Hl, list_elem_of_further. }
    rewrite insertBy_cons. destruct (nPos (nSub x y)) eqn:Hc.
    + constructor; [by apply IH|].
      rewrite insertBy_Permutation. constructor; [|done].
      destruct (consistentOn_total u x y Hu Hx Hy) as [Hxy|Hyx]; [|done].
      unfold notAfter in Hxy. congruence.
    + constructor; [by constructor|].
      constructor; [done|].
      rewrite Forall_forall in Hall. apply Forall_forall. intros z Hz.
      apply (consistentOn_trans u x y z); auto.
Qed.

Lemma sortBy_StronglySorted_in u l :
  consistentOn u → (∀ y, y ∈ l → y ∈ u) →
  StronglySorted notAfter (sortBy (λ a b, nSub a b) l).
Proof.
  intros Hu. induction l as [|x l IH]; intros Hl; [constructor|].
  change (sortBy (λ a b, nSub a b) (x :: l))
    with (insertBy (λ a b, nSub a b) x (sortBy (λ a b, nSub a b) l)).
  apply (insertBy_StronglySorted u); [done | | |].
  - apply Hl, list_elem_of_here.
  - intros y Hy. rewrite sortBy_Permutation in Hy.
    by apply Hl, list_elem_of_further.
  - apply IH. intros y Hy. by apply Hl, list_elem_of_further.
Qed.

Lemma sortBy_StronglySorted l :
  consistentOn l → StronglySorted notAfter (sortBy (λ a b, nSub a b) l).
Proof. intros Hl. by apply (sortBy_StronglySorted_in l). Qed.

(** Two arrangements of the same numbers that are both in order are one
    list, when the comparator tells the numbers apart. *)
Lemma StronglySorted_arrangement u l1 l2 :
  separatedOn u → (∀ y, y ∈ l1 → y ∈ u) →
  StronglySorted notAfter l1 → StronglySorted notAfter l2 →
  l1 ≡ₚ l2 → l1 = l2.
Proof.
  intros Hu Hl1 Hs1. revert l2.
  induction Hs1 as [|a l1 Hs1 IH Hall1]; intros l2 Hs2 Hperm.
  { by apply Permutation_nil_l in Hperm. }
  destruct Hs2 as [|b l2 Hs2 Hall2].
  { by apply Permutation_nil_r in Hperm. }
  assert (Hab : a = b).
  { assert (Ha : a ∈ b :: l2).
    { rewrite <- Hperm. apply list_elem_of_here. }
    assert (Hb : b ∈ a :: l1).
    { rewrite Hperm. apply list_elem_of_here. }
    apply elem_of_cons in Ha as [?|Ha]; [done|].
    apply elem_of_cons in Hb as [?|Hb]; [done|].
    rewrite Forall_forall in Hall1, Hall2.
    apply (separatedOn_eq u); auto.
    - apply Hl1, list_elem_of_here.
    - by apply Hl1, list_elem_of_further. }
  subst b. f_equal. apply IH; [|done|].
  - intros y Hy. by apply Hl1, list_elem_of_further.
  - by eapply Permutation_cons_inv.
Qed.

Lemma sortBy_arrangement l l' :
  l ≡ₚ l' → consistentOn l → separatedOn l →
  sortBy (λ a b, nSub a b) l = sortBy (λ a b, nSub a b) l'.
Proof.
  intros Hperm Hc Hs.
  apply (StronglySorted_arrangement l); [done | | | |].
  - intros y Hy. by rewrite sortBy_Permutation in Hy.
  - by apply sortBy_StronglySorted.
  - apply (sortBy_StronglySorted_in l); [done|].
    intros y Hy. by rewrite Hperm.
  - by rewrite !sortBy_Permutation.
Qed.

(** What [computeAggregate] computes, mode by mode. *)
Lemma computeAggregate_empty (mode : AggregateMode) :
  computeAggregate ([] : list T) mode = nOfNat 0.
Proof. reflexivity. Qed.



Lemma computeAggregate_median_odd l :
  length l mod 2 = 1 →
  computeAggregate l ModeMedian
  = at_ (sortBy (λ a b, nSub a b) l) (length l / 2).
Proof.
  intros Hodd. unfold computeAggregate.
  rewrite bool_decide_eq_false_2
    by (destruct l; [discriminate Hodd | done]).
  rewrite sortBy_length.
  rewrite bool_decide_eq_true_2 by lia. reflexivity.
Qed.

Lemma computeAggregate_median_even l :
  l ≠ [] → length l mod 2 = 0 →
  computeAggregate l ModeMedian
  = nDiv (nAdd (at_ (sortBy (λ a b, nSub a b) l) (length l / 2 - 1))
               (at_ (sortBy (λ a b, nSub a b) l) (length l / 2)))
         (nOfNat 2).
Proof.
  intros Hne Heven. unfold computeAggregate.
  rewrite bool_decide_eq_false_2 by (by destruct l).
  rewrite sortBy_length.
  rewrite bool_decide_eq_false_2 by lia. reflexivity.
Qed.

End Sorting.








(* ===================================================================== *)
(** * Further properties of the component *)
(* ===================================================================== *)

(** ** The dialog form *)

Lemma key_determines_column (cols : list ColumnConfig) (c d : ColumnConfig) :
  NoDup (key <$> cols) → c ∈ cols → d ∈ cols → key c = key d → c = d.
Proof.
  induction cols as [|e cols IH]; intros Hnd Hc Hd Hkey.
  - by apply elem_of_nil in Hc.
  - rewrite fmap_cons in Hnd. apply NoDup_cons in Hnd as [Hfresh Hnd].
    apply elem_of_cons in Hc as [->|Hc]; apply elem_of_cons in Hd as [->|Hd].
    + done.
    + destruct Hfresh. rewrite Hkey. by apply list_elem_of_fmap_2.
    + destruct Hfresh. rewrite <- Hkey. by apply list_elem_of_fmap_2.
    + by apply IH.
Qed.

Lemma find_key_present (cols : list ColumnConfig) (c : ColumnConfig) :
  NoDup (key <$> cols) → c ∈ cols →
  JS.find (λ d, bool_decide (key d = key c)) cols = Some c.
Proof.
  intros Hnd Hc.
  destruct (columns_split_first (key c) cols) as (pre & d & post & -> & Hd & Hpre).
  { by apply list_elem_of_fmap_2. }
  rewrite (find_key_first (key c) pre post d) by done.
  f_equal. apply (key_determines_column (pre ++ d :: post)); try done.
  rewrite elem_of_app, elem_of_cons. auto.
Qed.

(** X1.  Opening the edit dialog of a column and saving it untouched
    changes neither the columns nor the rows, provided the keys are
    pairwise distinct, the key is non-empty and has no white space around
    it, and the column has options exactly when it is a select column.  A
    select column without options is saved with the empty list of
    options. *)
Theorem edit_saved_untouched (st : State) (c : ColumnConfig) :
  keysDistinct st → c ∈ columnConfigs st →
  trim (key c) = key c → key c ≠ "" →
  let st' := handleDialogSubmit (onEdit (key c) st) in
  pendingAction st' = None
  ∧ rows st' = rows st
  ∧ ((type c = select ↔ is_Some (options c)) →
     columnConfigs st' = columnConfigs st)
  ∧ (type c = select → options c = None →
     mkColumnConfig (key c) select (Some []) ∈ columnConfigs st').
Proof.
  intros Hnd Hc Htrim Hne st'.
  assert (Hopen : onEdit (key c) st
            = setDialog (Some (PEdit (key c))) (key c) (type c)
                (default [] (options c)) "" st).
  { unfold onEdit, openDialog. by rewrite find_key_present. }
  destruct (handleDialogSubmit_edit (onEdit (key c) st) (key c))
    as (Hcols & Hrows & Hclosed); rewrite ?Hopen; simpl; rewrite ?Htrim;
    try done.
  fold st' in Hcols, Hrows, Hclosed.
  rewrite Hopen in Hcols, Hrows. simpl in Hcols, Hrows.
  rewrite Htrim in Hcols, Hrows. rewrite decide_True in Hrows by done.
  split_and!; try done.
  - intros Hopts. rewrite Hcols.
    rewrite <- (list_fmap_id (columnConfigs st)) at 2.
    apply list_fmap_ext. intros i d Hd. simpl.
    destruct (decide (key d = key c)) as [Hkey|]; [|done].
    assert (d = c) as ->.
    { apply (key_determines_column (columnConfigs st)); try done.
      by eapply list_elem_of_lookup_2. }
    unfold dialogColumn. destruct c as [k t o]; simpl in *. f_equal.
    destruct (decide (t = select)) as [Ht|Ht].
    + destruct (proj1 Hopts Ht) as [os ->]. done.
    + destruct o as [os|]; [|done]. destruct Ht. apply Hopts. by eexists.
  - intros Ht Ho. rewrite Hcols.
    apply list_elem_of_fmap. exists c. split; [|done].
    rewrite decide_True by done. unfold dialogColumn.
    rewrite Ht, Ho. by rewrite decide_True.
Qed.

Lemma edit_saved_untouched_witness :
  columnConfigs (handleDialogSubmit (onEdit "email" demoState))
    = columnConfigs demoState
  ∧ rows (handleDialogSubmit (onEdit "email" demoState)) = rows demoState.
Proof.
  destruct (edit_saved_untouched demoState (mkColumnConfig "email" email None))
    as (_ & Hrows & Hcols & _).
  - unfold keysDistinct. apply (bool_decide_unpack _). vm_compute. exact I.
  - apply list_elem_of_further, list_elem_of_here.
  - reflexivity.
  - discriminate.
  - split; [|exact Hrows]. apply Hcols. simpl. split.
    + discriminate.
    + intros [os Hos]. discriminate Hos.
Defined.

Lemma label_in_labelValues (t : ColumnType) :
  COLUMN_TYPE_LABELS t ∈ labelValues.
Proof.
  apply includes_true. by destruct t.
Qed.

Lemma onTypeChange_insert_default (t : ColumnType) (st : State) (k : string)
    (side : Side) :
  pendingAction st = Some (PInsert k side) →
  dialogInput st ∈ labelValues →
  dialogInput (onTypeChange t st) = COLUMN_TYPE_LABELS t.
Proof.
  intros Hact Hin. unfold onTypeChange. simpl.
  by rewrite Hact, (proj2 (includes_true _ _) Hin).
Qed.

(** X2.  The type selector of the dialog.  In an insert dialog the name
    follows the chosen type for as long as it is one of the type labels:
    after the dialog is opened and any types are chosen in turn, the
    name is the label of the type chosen last.  A name that is no label
    and is not blank is kept, and in an edit dialog the name is never
    touched.  The options typed so far, the columns and the rows are
    left alone. *)
Theorem type_selector_and_name (st : State) (t : ColumnType) :
  (∀ k side ot ts,
      let st0 := openDialog (PInsert k side) ot st in
      let st' := runForm (ChooseType <$> (ts ++ [t])) st0 in
      dialogInput st' = COLUMN_TYPE_LABELS t ∧ dialogType st' = t
      ∧ pendingAction st' = Some (PInsert k side))
  ∧ (dialogInput st ∉ labelValues → trim (dialogInput st) ≠ "" →
     dialogInput (onTypeChange t st) = dialogInput st)
  ∧ (∀ k, pendingAction st = Some (PEdit k) →
     dialogInput (onTypeChange t st) = dialogInput st)
  ∧ dialogType (onTypeChange t st) = t
  ∧ dialogOptions (onTypeChange t st) = dialogOptions st
  ∧ columnConfigs (onTypeChange t st) = columnConfigs st
  ∧ rows (onTypeChange t st) = rows st.
Proof.
  split_and!; try done.
  - intros k side ot ts st0 st'.
    assert (Hinv : ∀ us s,
              pendingAction s = Some (PInsert k side) →
              dialogInput s ∈ labelValues →
              pendingAction (runForm (ChooseType <$> us) s)
                = Some (PInsert k side)
              ∧ dialogInput (runForm (ChooseType <$> us) s) ∈ labelValues).
    { induction us as [|u us IH]; intros s Hact Hin; [done|].
      simpl. apply IH; [done|].
      rewrite (onTypeChange_insert_default u s k side) by done.
      apply label_in_labelValues. }
    unfold st'. rewrite fmap_app. unfold runForm. rewrite foldl_app.
    fold (runForm (ChooseType <$> ts) st0). simpl.
    destruct (Hinv ts st0) as [Hact Hin]; [done | apply label_in_labelValues |].
    split_and!; [|done|done].
    by apply (onTypeChange_insert_default t _ k side).
  - intros Hin Hblank. unfold onTypeChange. simpl.
    rewrite (proj2 (includes_false _ _) Hin).
    by rewrite bool_decide_eq_false_2.
  - intros k Hact. unfold onTypeChange. simpl. rewrite Hact.
    by rewrite andb_false_r.
Qed.

Lemma type_selector_and_name_witness :
  dialogInput
    (onTypeChange phone
       (setDialogInput "Mobile" (openDialog (PInsert "email" SideLeft) None demoState)))
  = "Mobile".
Proof.
  destruct (type_selector_and_name
              (setDialogInput "Mobile"
                 (openDialog (PInsert "email" SideLeft) None demoState))
              phone) as (_ & Hkept & _).
  apply Hkept.
  - by_includes.
  - vm_compute. discriminate.
Defined.

Lemma filterFrom_keep {A} (p : A → nat → bool) (j : nat) (l : list A) :
  (∀ x n, j ≤ n → p x n = true) → filterFrom p j l = l.
Proof.
  revert j. induction l as [|x l IH]; intros j Hp; [done|].
  simpl. rewrite Hp by lia. f_equal. apply IH.
  intros y n Hn. apply Hp. lia.
Qed.

(** Filtering out the index [i] deletes the [i]-th element. *)
Lemma filterFrom_delete {A} (i j : nat) (l : list A) :
  filterFrom (λ _ n, bool_decide (n ≠ j + i)) j l = delete i l.
Proof.
  revert i j. induction l as [|x l IH]; intros i j; [by destruct i|].
  simpl. destruct i as [|i].
  - rewrite bool_decide_eq_false_2 by lia. simpl.
    apply filterFrom_keep. intros y n Hn. apply bool_decide_eq_true_2. lia.
  - rewrite bool_decide_eq_true_2 by lia. simpl. f_equal.
    replace (j + S i) with (S j + i) by lia. apply IH.
Qed.

Lemma dialogOptions_removeOption (i : nat) (st : State) :
  dialogOptions (removeOption i st) = delete i (dialogOptions st).
Proof. unfold removeOption. simpl. apply (filterFrom_delete i 0). Qed.

Lemma formStep_optionsClean (e : FormEvent) (st : State) :
  optionsClean (dialogOptions st) →
  optionsClean (dialogOptions (formStep e st)).
Proof.
  intros [Hnd Hne]. destruct e; unfold formStep; try (by split).
  - unfold addOption.
    destruct (bool_decide (trim (newOptionValue st) ≠ "")) eqn:Hv;
      [|done].
    destruct (includes (trim (newOptionValue st)) (dialogOptions st)) eqn:Hin;
      [done|].
    simpl. apply bool_decide_eq_true in Hv. apply includes_false in Hin.
    split.
    + apply NoDup_app. split_and!; [done | | apply NoDup_singleton].
      intros x Hx ->%list_elem_of_singleton. done.
    + rewrite elem_of_app, list_elem_of_singleton. intros [?|?]; done.
  - rewrite dialogOptions_removeOption. split.
    + apply (sublist_NoDup _ (dialogOptions st)); [done | apply sublist_delete].
    + intros Hin. apply Hne. eapply elem_of_sublist; [done|].
      apply sublist_delete.
Qed.

Lemma formStep_table (e : FormEvent) (st : State) :
  columnConfigs (formStep e st) = columnConfigs st
  ∧ rows (formStep e st) = rows st
  ∧ pendingAction (formStep e st) = pendingAction st.
Proof.
  destruct e; simpl; try done.
  unfold addOption. by destruct (_ && _).
Qed.

Lemma runForm_invariants (es : list FormEvent) (st : State) :
  optionsClean (dialogOptions st) →
  optionsClean (dialogOptions (runForm es st))
  ∧ columnConfigs (runForm es st) = columnConfigs st
  ∧ rows (runForm es st) = rows st
  ∧ pendingAction (runForm es st) = pendingAction st.
Proof.
  revert st. induction es as [|e es IH]; intros st Hclean; [done|].
  simpl. destruct (formStep_table e st) as (Hc & Hr & Ha).
  destruct (IH (formStep e st)) as (Hclean' & Hc' & Hr' & Ha').
  { by apply formStep_optionsClean. }
  split_and!; congruence.
Qed.

(** X3.  The options of the dialog.  Whatever is typed, added and
    removed in the form, an option list that is free of duplicates and of
    the empty string stays so, and neither a column nor a row changes
    before the form is submitted.  Hence every column that a submitted
    insert dialog adds has pairwise distinct, non-empty options. *)
Theorem dialog_options_stay_clean (es : list FormEvent) (st : State) :
  (NoDup (dialogOptions st) → "" ∉ dialogOptions st →
   NoDup (dialogOptions (runForm es st))
   ∧ ("" ∉ dialogOptions (runForm es st))
   ∧ columnConfigs (runForm es st) = columnConfigs st
   ∧ rows (runForm es st) = rows st)
  ∧ (∀ k side ot c opts,
       let st' :=
         handleDialogSubmit (runForm es (openDialog (PInsert k side) ot st)) in
       c ∈ columnConfigs st' → c ∉ columnConfigs st →
       options c = Some opts →
       NoDup opts ∧ "" ∉ opts).
Proof.
  split.
  - intros Hnd Hne.
    destruct (runForm_invariants es st) as ([? ?] & ? & ? & _); done.
  - intros k side ot c opts st' Hin Hnew Hopts.
    set (st0 := openDialog (PInsert k side) ot st) in *.
    destruct (runForm_invariants es st0) as (Hclean & Hcols & _ & Hact).
    { split; [apply NoDup_nil_2 | apply not_elem_of_nil]. }
    set (st1 := runForm es st0) in *.
    change (columnConfigs st0) with (columnConfigs st) in Hcols.
    change (pendingAction st0) with (Some (PInsert k side)) in Hact.
    destruct (decide (trim (dialogInput st1) = "")) as [Hempty|Hne].
    { unfold st' in Hin. rewrite handleDialogSubmit_empty in Hin by done.
      by rewrite Hcols in Hin. }
    destruct (decide (trim (dialogInput st1) ∈ columnKeys st1)) as [Hcoll|Hfree].
    { unfold st' in Hin.
      rewrite (handleDialogSubmit_insert_collision st1 k side) in Hin by done.
      by rewrite Hcols in Hin. }
    destruct (handleDialogSubmit_insert st1 k side Hact Hne Hfree)
      as (Hcols' & _).
    fold st' in Hcols'. rewrite Hcols' in Hin.
    destruct (insertIdx_nat (columnKeys st1) k side) as [n Hn].
    rewrite Hn, slice_0_take, sliceFrom_drop, Hcols in Hin.
    rewrite !elem_of_app, list_elem_of_singleton in Hin.
    destruct Hin as [Hin | [-> | Hin]].
    + destruct Hnew. eapply elem_of_sublist; [done | apply sublist_take].
    + unfold dialogColumn in Hopts. simpl in Hopts.
      case_decide; [|done]. by injection Hopts as <-.
    + destruct Hnew. eapply elem_of_sublist; [done | apply sublist_drop].
Qed.

Lemma dialog_options_stay_clean_witness :
  NoDup (dialogOptions
           (runForm [TypeOption " open "; AddOption; TypeOption "open";
                     AddOption; TypeOption "done"; AddOption; RemoveOption 0]
              demoState)).
Proof.
  destruct (dialog_options_stay_clean
              [TypeOption " open "; AddOption; TypeOption "open";
               AddOption; TypeOption "done"; AddOption; RemoveOption 0]
              demoState) as [Hclean _].
  apply Hclean.
  - apply NoDup_nil_2.
  - apply not_elem_of_nil.
Defined.

Lemma insertIndex_after_last (keys : list string) :
  NoDup keys →
  insertIndex keys (default "" (last keys)) SideRight
  = Z.of_nat (length keys).
Proof.
  intros Hnd. destruct (last keys) as [k|] eqn:Hlast; simpl.
  - apply last_Some in Hlast as [pre ->].
    destruct (decide (k = "")) as [->|Hne].
    { apply insertIdx_no_anchor. by left. }
    apply NoDup_app in Hnd as (_ & Hpre & _).
    rewrite (insertIdx_anchor _ k SideRight pre []); try done.
    + rewrite length_app. simpl. f_equal. lia.
    + intros Hin. apply (Hpre k Hin). apply list_elem_of_here.
  - apply insertIdx_no_anchor. by left.
Qed.

(** X4.  A quick add of the select type followed by the submission of
    the dialog as it opened: on pairwise distinct keys without a column
    "Select", the select column "Select" with an empty list of options
    is appended at the end and every row holds the empty string under it;
    with a column "Select" the submission is refused, no numbered name is
    tried, and the dialog stays open. *)
Theorem quick_add_select_submitted (st : State) :
  let st' := handleDialogSubmit (handleQuickAdd select st) in
  (keysDistinct st → "Select" ∉ columnKeys st →
   columnConfigs st'
     = columnConfigs st ++ [mkColumnConfig "Select" select (Some [])]
   ∧ rows st' = (λ row : Row, <["Select" := VStr ""]> row) <$> rows st
   ∧ pendingAction st' = None)
  ∧ ("Select" ∈ columnKeys st →
     columnConfigs st' = columnConfigs st ∧ rows st' = rows st
     ∧ is_Some (pendingAction st')).
Proof.
  intros st'. unfold st'. rewrite handleQuickAdd_select.
  set (st0 := setDialog _ _ _ _ _ st).
  split.
  - intros Hnd Hfree.
    destruct (handleDialogSubmit_insert st0
                (default "" (last (columnKeys st))) SideRight)
      as (Hcols & Hrows & Hclosed); [done | by vm_compute | done |].
    split_and!; [|done..].
    rewrite Hcols.
    change (columnKeys st0) with (columnKeys st).
    change (columnConfigs st0) with (columnConfigs st).
    rewrite insertIndex_after_last by done.
    unfold columnKeys. rewrite length_fmap, slice_0_take, sliceFrom_drop.
    by rewrite take_ge, drop_ge by lia.
  - intros Hin.
    rewrite (handleDialogSubmit_insert_collision st0
               (default "" (last (columnKeys st))) SideRight) by done.
    split_and!; [done | done | by eexists].
Qed.

Lemma quick_add_select_submitted_witness :
  columnKeys (handleDialogSubmit (handleQuickAdd select demoState))
  = ["status"; "email"; "amount"; "Select"].
Proof.
  destruct (quick_add_select_submitted demoState) as [Hadd _].
  destruct Hadd as (Hcols & _).
  - unfold keysDistinct. apply (bool_decide_unpack _). vm_compute. exact I.
  - by_includes.
  - unfold columnKeys. rewrite Hcols. reflexivity.
Defined.

(** ** Cells and rows *)

(** X5.  Writing a cell.  The row at the index holds the value under the
    key and keeps its other entries; every other row is the row it was;
    the number of rows and the columns stay; and an index past the last
    row changes nothing at all. *)
Theorem cell_write_read (st : State) (rowIndex : nat) (k : string)
    (value : Value) :
  let st' := onCellChange rowIndex k value st in
  (∀ row : Row, rows st !! rowIndex = Some row →
     rows st' !! rowIndex = Some (<[k := value]> row)
     ∧ prop (<[k := value]> row) k = value)
  ∧ (∀ j, j ≠ rowIndex → rows st' !! j = rows st !! j)
  ∧ length (rows st') = length (rows st)
  ∧ columnConfigs st' = columnConfigs st
  ∧ (length (rows st) ≤ rowIndex → st' = st).
Proof.
  intros st'. unfold st', onCellChange. simpl.
  split_and!.
  - intros row Hrow. rewrite list_lookup_imap, Hrow. simpl.
    rewrite bool_decide_eq_true_2 by done.
    split; [done|]. unfold prop. by rewrite lookup_insert_eq.
  - intros j Hj. rewrite list_lookup_imap.
    destruct (rows st !! j); [|done]. simpl.
    by rewrite bool_decide_eq_false_2.
  - by rewrite length_imap.
  - done.
  - intros Hlen. destruct st as [cols rws ? ? ? ? ? ? ? ? ?].
    unfold setRows. simpl in *. f_equal.
    apply list_eq. intros j. rewrite list_lookup_imap.
    destruct (rws !! j) eqn:Hj; [|done]. simpl.
    apply lookup_lt_Some in Hj.
    by rewrite bool_decide_eq_false_2 by lia.
Qed.

Lemma cell_write_read_witness :
  ∃ row' : Row,
    rows (onCellChange 0 "amount" (VNum 250) demoState) !! 0 = Some row'
    ∧ row' !! "amount" = Some (VNum 250)
    ∧ row' !! "status" = Some (VStr "pending").
Proof.
  destruct (cell_write_read demoState 0 "amount" (VNum 250))
    as (Hwrite & _).
  destruct (Hwrite demoRow eq_refl) as [Hrow _].
  eexists. split; [exact Hrow|]. split; reflexivity.
Defined.

Lemma lookup_foldl_defaults (cols : list ColumnConfig) (init : Row)
    (k : string) :
  NoDup (key <$> cols) → init !! "__proto__" = None →
  foldl (λ (row : Row) config,
           assign (key config) (getDefaultValue (type config)) row) init cols
    !! k
  = if bool_decide (k = "__proto__") then None
    else match JS.find (λ c, bool_decide (key c = k)) cols with
         | Some c => Some (getDefaultValue (type c))
         | None => init !! k
         end.
Proof.
  revert init. induction cols as [|c cols IH]; intros init Hnd Hproto.
  { simpl. case_bool_decide; congruence. }
  rewrite fmap_cons in Hnd. apply NoDup_cons in Hnd as [Hfresh Hnd].
  simpl. rewrite IH; [|done|].
  - case_bool_decide as Hp; [done|].
    case_bool_decide as Hk.
    + subst k. rewrite find_key_none by done. by rewrite lookup_assign_eq.
    + destruct (JS.find _ cols); [done|]. by rewrite lookup_assign_ne.
  - destruct (decide (key c = "__proto__")) as [Hc|Hc].
    + rewrite Hc. by rewrite lookup_assign_proto.
    + by rewrite lookup_assign_ne.
Qed.

Lemma handleAddRow_fresh_id (st : State) (uuid : string) :
  keysDistinct st → "id" ∉ columnKeys st →
  ∃ row : Row,
    rows (handleAddRow uuid st) = rows st ++ [row] ∧ getRowId row = uuid.
Proof.
  intros Hnd Hid. eexists. split; [reflexivity|].
  unfold getRowId, prop.
  rewrite lookup_foldl_defaults by done.
  rewrite bool_decide_eq_false_2 by done.
  rewrite find_key_none by done.
  by rewrite lookup_singleton_eq.
Qed.

(** X6.  Adding a row, on pairwise distinct keys.  The rows gain one row
    at the end and keep the others; the new row holds, for every column
    whose key is not "__proto__", the default value of the column's type,
    and has entries for "id" and for those column keys only: under
    "__proto__" it has no entry, whether or not a column has that key.
    Its id is the fresh identifier unless a column is keyed "id", in
    which case the column's default value takes its place. *)
Theorem added_row (st : State) (uuid : string) :
  keysDistinct st →
  ∃ row : Row,
    rows (handleAddRow uuid st) = rows st ++ [row]
    ∧ columnConfigs (handleAddRow uuid st) = columnConfigs st
    ∧ (∀ c, c ∈ columnConfigs st → key c ≠ "__proto__" →
         row !! key c = Some (getDefaultValue (type c)))
    ∧ (∀ k, is_Some (row !! k)
            ↔ k ≠ "__proto__" ∧ (k = "id" ∨ k ∈ columnKeys st))
    ∧ row !! "__proto__" = None
    ∧ ("id" ∉ columnKeys st →
       row !! "id" = Some (VStr uuid) ∧ getRowId row = uuid)
    ∧ (∀ c, c ∈ columnConfigs st → key c = "id" →
         getRowId row = String_ (getDefaultValue (type c))).
Proof.
  intros Hnd. eexists. split; [reflexivity|].
  set (row := foldl _ _ _).
  assert (Hrow : ∀ k, row !! k
            = if bool_decide (k = "__proto__") then None
              else
                match JS.find (λ c, bool_decide (key c = k))
                        (columnConfigs st) with
                | Some c => Some (getDefaultValue (type c))
                | None => ({[ "id" := VStr uuid ]} : Row) !! k
                end).
  { intros k. by apply lookup_foldl_defaults. }
  assert (Hcol : ∀ c, c ∈ columnConfigs st → key c ≠ "__proto__" →
            row !! key c = Some (getDefaultValue (type c))).
  { intros c Hc Hp. rewrite Hrow, bool_decide_eq_false_2 by done.
    by rewrite find_key_present. }
  split_and!; try done.
  - intros k. rewrite Hrow. case_bool_decide as Hp.
    { split; [by intros [? ?] | by intros [? _]]. }
    split.
    + intros Hsome. split; [done|].
      destruct (decide (k ∈ columnKeys st)) as [?|Hout]; [auto|].
      rewrite find_key_none in Hsome by done.
      left. destruct (decide (k = "id")) as [?|Hne]; [done|].
      rewrite lookup_singleton_ne in Hsome by done. by destruct Hsome.
    + intros [_ [->|Hin]].
      * destruct (JS.find _ _); [by eexists|].
        rewrite lookup_singleton_eq. by eexists.
      * apply list_elem_of_fmap in Hin as (c & -> & Hc).
        rewrite find_key_present by done. by eexists.
  - intros Hid.
    assert (Hlook : row !! "id" = Some (VStr uuid)).
    { rewrite Hrow, bool_decide_eq_false_2 by done.
      rewrite find_key_none by done. by rewrite lookup_singleton_eq. }
    split; [done|]. unfold getRowId, prop. by rewrite Hlook.
  - intros c Hc Hkey. unfold getRowId, prop.
    rewrite <- Hkey, Hcol by (done || by rewrite Hkey). simpl.
    by destruct (type c).
Qed.

Lemma added_row_witness :
  ∃ row : Row,
    rows (handleAddRow "0b0e1d0c" demoState) = rows demoState ++ [row]
    ∧ row !! "amount" = Some (VStr "")
    ∧ getRowId row = "0b0e1d0c".
Proof.
  destruct (added_row demoState "0b0e1d0c")
    as (row & Hrows & _ & Hcols & _ & _ & Hid & _).
  - unfold keysDistinct. apply (bool_decide_unpack _). vm_compute. exact I.
  - exists row. split_and!; [done | |].
    + apply (Hcols (mkColumnConfig "amount" currency None)).
      * do 2 apply list_elem_of_further. apply list_elem_of_here.
      * discriminate.
    + apply Hid. by_includes.
Defined.

Lemma filter_all {A} (P : A → Prop) `{∀ x, Decision (P x)} (l : list A) :
  (∀ x, x ∈ l → P x) → filter P l = l.
Proof.
  induction l as [|x l IH]; intros Hall; [done|].
  rewrite filter_cons_True by (apply Hall; apply list_elem_of_here).
  f_equal. apply IH. intros y Hy. apply Hall. by apply list_elem_of_further.
Qed.

Lemma handleDeleteSelectedRows_none_selected (st : State) :
  (∀ row : Row, row ∈ rows st →
     rowSelection st = ∅
     ∨ isRowSelected (rowSelection st) (getRowId row) = false) →
  rows (handleDeleteSelectedRows st) = rows st.
Proof.
  intros Hnone. unfold handleDeleteSelectedRows. simpl.
  apply filter_all. intros row Hrow.
  rewrite elem_of_selectedIds. intros (Hne & Hsel & _).
  destruct (Hnone row Hrow) as [?|Hno]; [done|]. by rewrite Hno in Hsel.
Qed.

Lemma handleDeleteSelectedRows_empty (st : State) :
  rowSelection st = ∅ → rows (handleDeleteSelectedRows st) = rows st.
Proof.
  intros Hempty. apply handleDeleteSelectedRows_none_selected. auto.
Qed.

(** X7.  Deleting the selected rows, exactly.  The rows that stay are, in
    their order, the rows that the table library does not report as
    selected: with an empty selection all of them; otherwise those whose
    identifier is neither switched on in the selection nor, lacking an
    entry there, a property name of [Object.prototype] (such as
    "constructor").  Rows with one identifier stay or go together.  When
    no row bears a selected identifier or such a name, the rows stay as
    they are.  The selection is empty afterwards, so a second deletion
    removes nothing more.  [deleteRows ids] with a non-empty [ids] keeps
    exactly the rows whose identifier is neither in [ids] nor such a
    name, hence, when no row is identified by such a name, exactly the
    rows whose identifier is not in [ids]; no row is ever added. *)
Theorem delete_rows_edges (st : State) :
  (∀ row : Row,
     row ∈ rows (handleDeleteSelectedRows st)
     ↔ row ∈ rows st
       ∧ (rowSelection st = ∅
          ∨ isRowSelected (rowSelection st) (getRowId row) = false))
  ∧ rows (handleDeleteSelectedRows st) `sublist_of` rows st
  ∧ (∀ r1 r2 : Row,
       r1 ∈ rows st → r2 ∈ rows st → getRowId r1 = getRowId r2 →
       (r1 ∈ rows (handleDeleteSelectedRows st)
        ↔ r2 ∈ rows (handleDeleteSelectedRows st)))
  ∧ (rowSelection st = ∅ → rows (handleDeleteSelectedRows st) = rows st)
  ∧ ((∀ row : Row, row ∈ rows st →
        rowSelection st !! getRowId row ≠ Some true
        ∧ inObjectPrototype (getRowId row) = false) →
     rows (handleDeleteSelectedRows st) = rows st)
  ∧ rows (handleDeleteSelectedRows (handleDeleteSelectedRows st))
    = rows (handleDeleteSelectedRows st)
  ∧ (∀ ids (row : Row),
       row ∈ rows (deleteRows ids st)
       ↔ row ∈ rows st
         ∧ (ids = ∅
            ∨ ((getRowId row ∉ ids)
               ∧ inObjectPrototype (getRowId row) = false)))
  ∧ (∀ ids,
       (∀ row : Row, row ∈ rows st →
          inObjectPrototype (getRowId row) = false) →
       ∀ row : Row,
         row ∈ rows (deleteRows ids st)
         ↔ row ∈ rows st ∧ getRowId row ∉ ids)
  ∧ (∀ ids, rows (deleteRows ids (deleteRows ids st))
            = rows (deleteRows ids st))
  ∧ (∀ ids, length (rows (deleteRows ids st)) ≤ length (rows st)).
Proof.
  assert (Hrows : ∀ row : Row,
     row ∈ rows (handleDeleteSelectedRows st)
     ↔ row ∈ rows st
       ∧ (rowSelection st = ∅
          ∨ isRowSelected (rowSelection st) (getRowId row) = false)).
  { intros row. rewrite elem_of_rows_handleDeleteSelectedRows.
    rewrite elem_of_selectedIds. split.
    - intros [Hin Hn]. split; [done|].
      destruct (decide (rowSelection st = ∅)) as [|Hne]; [by left|right].
      destruct (isRowSelected _ _) eqn:Hsel; [|done].
      exfalso. apply Hn. eauto.
    - intros [Hin Hn]. split; [done|]. intros (Hne & Hsel & _).
      destruct Hn as [?|Hno]; [done|]. by rewrite Hno in Hsel. }
  split_and!.
  - exact Hrows.
  - apply sublist_filter.
  - intros r1 r2 H1 H2 Hid. rewrite !Hrows, Hid. tauto.
  - apply handleDeleteSelectedRows_empty.
  - intros Hnone. apply handleDeleteSelectedRows_none_selected.
    intros row Hrow. right. destruct (Hnone row Hrow) as [Hoff Hplain].
    destruct (isRowSelected _ _) eqn:Hsel; [|done].
    by apply isRowSelected_plain in Hsel.
  - by apply handleDeleteSelectedRows_empty.
  - intros ids row. apply elem_of_rows_deleteRows.
  - intros ids Hplain row. rewrite elem_of_rows_deleteRows. split.
    + intros [Hin [->|[Hout _]]]; [|done]. split; [done|].
      apply not_elem_of_empty.
    + intros [Hin Hout]. split; [done|]. right. split; [done|].
      by apply Hplain.
  - intros ids. unfold deleteRows at 1.
    rewrite handleDeleteSelectedRows_none_selected; [done|].
    intros row Hrow. simpl in *.
    apply elem_of_rows_deleteRows in Hrow as [_ [->|[Hout Hplain]]].
    + left. apply gset_to_gmap_empty.
    + right. destruct (isRowSelected _ _) eqn:Hsel; [|done].
      apply isRowSelected_ids in Hsel as [?|Hsel]; [done|].
      by rewrite Hplain in Hsel.
  - intros ids. unfold deleteRows, handleDeleteSelectedRows. simpl.
    apply length_filter.
Qed.

Lemma delete_rows_edges_witness :
  rows (handleDeleteSelectedRows
          (setRowSelection (λ _, {[ "no-such-row" := true ]}) demoState))
  = rows demoState.
Proof.
  destruct (delete_rows_edges
              (setRowSelection (λ _, {[ "no-such-row" := true ]}) demoState))
    as (_ & _ & _ & _ & Hnone & _).
  apply Hnone. intros row Hrow.
  apply list_elem_of_singleton in Hrow as ->.
  split; [by vm_compute | by vm_compute].
Defined.

(** ** Columns *)

Lemma columnConfigs_deleteColumn (k : string) (st : State) :
  columnConfigs (deleteColumn k st)
  = filter (λ c, key c ≠ k) (columnConfigs st).
Proof. reflexivity. Qed.

Lemma deleteColumn_key_gone (st : State) (k : string) :
  k ∉ columnKeys (deleteColumn k st).
Proof.
  unfold columnKeys. rewrite columnConfigs_deleteColumn.
  intros (c & Hk & Hc)%list_elem_of_fmap.
  apply list_elem_of_filter in Hc as [Hne _]. done.
Qed.

Lemma insert_after_delete (st : State) (k : string)
    (anchorKey : string) (side : Side) (t : ColumnType) (opts : list string) :
  trim k = k → k ≠ "" →
  let st' := insertColumn anchorKey side k t opts (deleteColumn k st) in
  k ∈ columnKeys st'
  ∧ rows st' = (λ row : Row, <[k := getDefaultValue t]> row) <$> rows st.
Proof.
  intros Htrim Hne st'.
  pose proof (deleteColumn_key_gone st k) as Hgone.
  destruct (insertColumn_accepted (deleteColumn k st) anchorKey side k t opts)
    as (Hcols' & Hrows' & _); rewrite ?Htrim; try done.
  fold st' in Hcols', Hrows'. rewrite Htrim in Hcols', Hrows'.
  split.
  - unfold columnKeys. rewrite Hcols', !fmap_app, !elem_of_app.
    right. left. apply list_elem_of_here.
  - done.
Qed.

(** X8.  Deleting a column removes every column of that key and nothing
    else: the other columns stay in their order, no row is touched (the
    rows keep what they held under the key), and a key that no column
    has leaves the columns as they are.  Deleting a column right after
    it was inserted gives the columns back. *)
Theorem delete_column (st : State) (k : string) :
  (k ∉ columnKeys (deleteColumn k st))
  ∧ (∀ c, c ∈ columnConfigs (deleteColumn k st)
          ↔ c ∈ columnConfigs st ∧ key c ≠ k)
  ∧ columnConfigs (deleteColumn k st) `sublist_of` columnConfigs st
  ∧ rows (deleteColumn k st) = rows st
  ∧ (k ∉ columnKeys st → columnConfigs (deleteColumn k st) = columnConfigs st)
  ∧ (∀ anchorKey side cand t opts,
       trim cand ≠ "" → trim cand ∉ columnKeys st →
       columnConfigs
         (deleteColumn (trim cand) (insertColumn anchorKey side cand t opts st))
       = columnConfigs st).
Proof.
  split_and!.
  - apply deleteColumn_key_gone.
  - intros c. rewrite columnConfigs_deleteColumn, list_elem_of_filter. tauto.
  - rewrite columnConfigs_deleteColumn. apply sublist_filter.
  - done.
  - intros Hout. rewrite columnConfigs_deleteColumn. apply filter_all.
    intros c Hc Hk. apply Hout. rewrite <- Hk.
    by apply list_elem_of_fmap_2.
  - intros anchorKey side cand t opts Hne Hfree.
    destruct (insertColumn_accepted st anchorKey side cand t opts Hne Hfree)
      as (Hcols & _).
    destruct (insertIdx_nat (columnKeys st) anchorKey side) as [n Hn].
    rewrite Hn, slice_0_take, sliceFrom_drop in Hcols.
    rewrite columnConfigs_deleteColumn, Hcols.
    assert (Hkeep : ∀ l, l `sublist_of` columnConfigs st →
              filter (λ c, key c ≠ trim cand) l = l).
    { intros l Hl. apply filter_all. intros c Hc Hk. apply Hfree.
      rewrite <- Hk. apply list_elem_of_fmap_2. by eapply elem_of_sublist. }
    rewrite !filter_app, filter_cons_False by (simpl; tauto).
    rewrite filter_nil.
    rewrite !Hkeep by (apply sublist_take || apply sublist_drop).
    apply take_drop.
Qed.

Lemma delete_column_witness :
  columnConfigs
    (deleteColumn "Phone" (insertColumn "email" SideRight " Phone " phone [] demoState))
  = columnConfigs demoState.
Proof.
  destruct (delete_column demoState "Phone") as (_ & _ & _ & _ & _ & Hundo).
  apply (Hundo "email" SideRight " Phone " phone []).
  - vm_compute. discriminate.
  - by_includes.
Defined.

(** X9.  What a deleted column leaves in the rows does not come back.
    After a column is deleted, an insertion under its key is accepted,
    and every row then holds under that key the default value of the new
    type, whatever it held before. *)
Theorem deleted_values_do_not_return (st : State) (k : string)
    (anchorKey : string) (side : Side) (t : ColumnType) (opts : list string) :
  trim k = k → k ≠ "" →
  let st' := insertColumn anchorKey side k t opts (deleteColumn k st) in
  k ∈ columnKeys st'
  ∧ length (rows st') = length (rows st)
  ∧ ∀ row : Row, row ∈ rows st' → row !! k = Some (getDefaultValue t).
Proof.
  intros Htrim Hne st'.
  destruct (insert_after_delete st k anchorKey side t opts Htrim Hne)
    as [Hin Hrows'].
  fold st' in Hin, Hrows'.
  split_and!.
  - done.
  - by rewrite Hrows', length_fmap.
  - intros row Hrow. rewrite Hrows' in Hrow.
    apply list_elem_of_fmap in Hrow as (r & -> & _).
    by rewrite lookup_insert_eq.
Qed.

Lemma deleted_values_do_not_return_witness :
  demoRow ∈ rows demoState
  ∧ demoRow !! "amount" = Some (VNum 100)
  ∧ Forall (λ row : Row, row !! "amount" = Some (VStr ""))
      (rows (insertColumn "" SideRight "amount" text []
               (deleteColumn "amount" demoState))).
Proof.
  destruct (deleted_values_do_not_return demoState "amount" "" SideRight
              text []) as (_ & _ & Hrows).
  - reflexivity.
  - discriminate.
  - split_and!.
    + apply list_elem_of_here.
    + reflexivity.
    + apply Forall_forall, Hrows.
Defined.

Lemma inherited_plain (k : string) :
  inObjectPrototype k = false → inherited k = VUndefined.
Proof.
  intros Hk. unfold inherited. rewrite Hk.
  rewrite !bool_decide_eq_false_2; [done|by intros ->..].
Qed.

Lemma inherited_proto (k : string) :
  inObjectPrototype k = true → ∃ s, inherited k = VOther true s.
Proof.
  intros Hk. unfold inherited. rewrite Hk.
  repeat case_bool_decide; by eexists.
Qed.

(** X10.  Duplicating a column, whatever its key.  A key that no column
    has changes nothing.  Otherwise exactly one column is added, right
    after the first column of that key, with the type and options of
    that column and a name that no column had: "k (copy)" when that is
    free, else "k (copy j)" for the least j from 2 on that is free.
    Every row holds under the new name what [row[k] ?? default] gives
    and keeps all its other entries: its value under the key, when it
    has one that is neither null nor undefined; the default value of the
    type, when the value is null or undefined, or when the row has no
    entry and the key is no property name of [Object.prototype]; and for
    a row without an entry under such a name (as "constructor") what
    every object inherits under it. *)
Theorem duplicate_column (st : State) (k : string) :
  (k ∉ columnKeys st → duplicateColumn k st = st)
  ∧ (k ∈ columnKeys st →
     ∃ pre c post copy,
       columnConfigs st = pre ++ c :: post
       ∧ key c = k ∧ (k ∉ key <$> pre)
       ∧ (copy ∉ columnKeys st)
       ∧ (((k +:+ " (copy)" ∉ columnKeys st) ∧ copy = k +:+ " (copy)")
          ∨ (k +:+ " (copy)" ∈ columnKeys st
             ∧ ∃ j, 2 ≤ j ∧ copy = k +:+ " (copy " +:+ pretty j +:+ ")"
                    ∧ ∀ m, 2 ≤ m < j →
                        k +:+ " (copy " +:+ pretty m +:+ ")" ∈ columnKeys st))
       ∧ columnConfigs (duplicateColumn k st)
         = pre ++ c :: mkColumnConfig copy (type c) (options c) :: post
       ∧ length (rows (duplicateColumn k st)) = length (rows st)
       ∧ ∀ i (row : Row), rows st !! i = Some row →
           ∃ row' : Row,
             rows (duplicateColumn k st) !! i = Some row'
             ∧ row' !! copy
               = Some (nullish (prop row k) (getDefaultValue (type c)))
             ∧ (∀ v, row !! k = Some v → v ≠ VUndefined → v ≠ VNull →
                  row' !! copy = Some v)
             ∧ (row !! k = Some VUndefined ∨ row !! k = Some VNull
                ∨ (row !! k = None ∧ inObjectPrototype k = false) →
                row' !! copy = Some (getDefaultValue (type c)))
             ∧ (row !! k = None → inObjectPrototype k = true →
                row' !! copy = Some (inherited k)
                ∧ ∃ s, inherited k = VOther true s)
             ∧ (∀ k', k' ≠ copy → row' !! k' = row !! k')).
Proof.
  split; [apply onDuplicate_absent|].
  intros Hin.
  destruct (columns_split_first k (columnConfigs st) Hin)
    as (pre & c & post & Hsplit & Hc & Hpre).
  destruct (freeName_copy_total (columnKeys st) k) as [copy Hcopy].
  destruct (onDuplicate_present st k copy pre post c Hsplit Hc Hpre Hcopy)
    as [Hcols Hrows].
  apply whileIncludes_Some in Hcopy as [Hfree Hshape].
  exists pre, c, post, copy. split_and!; try done.
  - unfold duplicateColumn. by rewrite Hrows, length_fmap.
  - intros i row Hi. eexists. unfold duplicateColumn.
    split; [by rewrite Hrows, list_lookup_fmap, Hi|].
    rewrite lookup_insert_eq. split_and!.
    + done.
    + intros v Hv Hu Hn. unfold prop. rewrite Hv. by destruct v.
    + unfold prop.
      intros [-> | [-> | [-> Hplain]]]; [done..|].
      by rewrite inherited_plain.
    + intros Hnone Hproto. unfold prop. rewrite Hnone.
      destruct (inherited_proto k Hproto) as [s Hs].
      rewrite Hs. split; [done|]. by exists s.
    + intros k' Hk'. by rewrite lookup_insert_ne.
Qed.

Lemma duplicate_column_witness :
  columnKeys (duplicateColumn "email" demoState)
  = ["status"; "email"; "email (copy)"; "amount"].
Proof.
  destruct (duplicate_column demoState "email") as [_ Hdup].
  destruct Hdup
    as (pre & c & post & copy & Hsplit & Hc & Hpre & Hfree & Hname & Hcols & _).
  - by_includes.
  - reflexivity.
Defined.

(** ** What the mutations leave alone *)

Lemma handleDialogSubmit_view (st : State) :
  sorting (handleDialogSubmit st) = sorting st
  ∧ columnVisibility (handleDialogSubmit st) = columnVisibility st
  ∧ aggregateModes (handleDialogSubmit st) = aggregateModes st
  ∧ rowSelection (handleDialogSubmit st) = rowSelection st.
Proof.
  unfold handleDialogSubmit.
  destruct (pendingAction st) as [[oldKey|k side]|]; [| |done].
  - destruct (bool_decide (trim (dialogInput st) = "")); [done|].
    destruct (bool_decide (trim (dialogInput st) ≠ oldKey));
      destruct (includes _ _); done.
  - destruct (bool_decide (trim (dialogInput st) = "")); [done|].
    destruct (includes _ _); done.
Qed.

Lemma onDuplicate_view (k : string) (st : State) :
  sorting (onDuplicate k st) = sorting st
  ∧ columnVisibility (onDuplicate k st) = columnVisibility st
  ∧ aggregateModes (onDuplicate k st) = aggregateModes st.
Proof.
  unfold onDuplicate. destruct (JS.find _ _); [|done].
  destruct (freeName _ _ _); done.
Qed.

Lemma handleQuickAdd_view (t : ColumnType) (st : State) :
  sorting (handleQuickAdd t st) = sorting st
  ∧ columnVisibility (handleQuickAdd t st) = columnVisibility st
  ∧ aggregateModes (handleQuickAdd t st) = aggregateModes st.
Proof.
  unfold handleQuickAdd. destruct (bool_decide (t = select)).
  - by destruct (last _) as [k|]; [destruct (bool_decide (k ≠ ""))|].
  - destruct (freeName _ _ _); done.
Qed.

Lemma applyMutation_view (m : Mutation) (st : State) :
  sorting (applyMutation m st) = sorting st
  ∧ aggregateModes (applyMutation m st) = aggregateModes st
  ∧ ∀ k, (m = HideColumn k →
          columnVisibility (applyMutation m st) !! k = Some false)
         ∧ (m ≠ HideColumn k →
            columnVisibility (applyMutation m st) !! k
            = columnVisibility st !! k).
Proof.
  assert (Hother : ∀ s : State,
            columnVisibility s = columnVisibility st →
            (∀ k, m ≠ HideColumn k) →
            ∀ k, (m = HideColumn k → columnVisibility s !! k = Some false)
                 ∧ (m ≠ HideColumn k →
                    columnVisibility s !! k = columnVisibility st !! k)).
  { intros s -> Hm k. split; [by intros ?%Hm | done]. }
  destruct m; simpl.
  - destruct (handleDialogSubmit_view
                (setDialog (Some (PEdit oldKey)) newKeyCandidate newType
                   newOptions "" st)) as (? & ? & ? & _).
    split_and!; [done..|]. by apply Hother.
  - destruct (handleDialogSubmit_view
                (setDialog (Some (PInsert anchorKey side)) nameCandidate t
                   opts "" st)) as (? & ? & ? & _).
    split_and!; [done..|]. by apply Hother.
  - destruct (onDuplicate_view sourceKey st) as (? & ? & ?).
    split_and!; [done..|]. by apply Hother.
  - destruct (handleQuickAdd_view t st) as (? & ? & ?).
    split_and!; [done..|]. by apply Hother.
  - split_and!; [done..|]. by apply Hother.
  - split_and!; [done..|]. intros k'. split.
    + intros [= ->]. by rewrite lookup_insert_eq.
    + intros Hne. rewrite lookup_insert_ne; [done|]. congruence.
  - split_and!; [done..|]. by apply Hother.
  - split_and!; [done..|]. by apply Hother.
  - split_and!; [done..|]. by apply Hother.
Qed.

(** X11.  What the mutations leave alone.  No sequence of mutations
    changes the sort descriptor or the aggregate modes, also when the
    sorted column is renamed or deleted.  A column key is hidden after
    the sequence exactly when it was hidden before or the sequence hides
    it: nothing shows a hidden key again, so a column that is hidden,
    deleted and inserted again under its key is still hidden. *)
Theorem mutations_and_view_state (ms : list Mutation) (st : State) :
  sorting (runMutations ms st) = sorting st
  ∧ aggregateModes (runMutations ms st) = aggregateModes st
  ∧ (∀ k, columnVisibility st !! k = Some false ∨ HideColumn k ∈ ms →
          columnVisibility (runMutations ms st) !! k = Some false)
  ∧ (∀ k, HideColumn k ∉ ms →
          columnVisibility (runMutations ms st) !! k
          = columnVisibility st !! k)
  ∧ (∀ k anchorKey side t opts,
       let st' :=
         runMutations [HideColumn k; DeleteColumn k;
                       InsertColumn anchorKey side k t opts] st in
       columnVisibility st' !! k = Some false
       ∧ (trim k = k → k ≠ "" → k ∈ columnKeys st')).
Proof.
  assert (Hgen : ∀ ms st,
    sorting (runMutations ms st) = sorting st
    ∧ aggregateModes (runMutations ms st) = aggregateModes st
    ∧ (∀ k, columnVisibility st !! k = Some false ∨ HideColumn k ∈ ms →
            columnVisibility (runMutations ms st) !! k = Some false)
    ∧ (∀ k, HideColumn k ∉ ms →
            columnVisibility (runMutations ms st) !! k
            = columnVisibility st !! k)).
  { clear. induction ms as [|m ms IH]; intros st.
    - split_and!; try done. intros k [?|Hin]; [done|].
      by apply elem_of_nil in Hin.
    - simpl. destruct (IH (applyMutation m st)) as (Hs & Ha & Hh & Hv).
      destruct (applyMutation_view m st) as (Hs' & Ha' & Hv').
      split_and!; [congruence | congruence | |].
      + intros k Hk. apply Hh.
        destruct (Hv' k) as [Hhide Hkeep].
        destruct Hk as [Hk|Hk].
        * left. destruct (decide (k ∈ match m with
                                       | HideColumn k0 => [k0]
                                       | _ => []
                                       end)) as [Hm|Hm].
          -- destruct m; try by apply elem_of_nil in Hm.
             apply list_elem_of_singleton in Hm as ->. by apply Hhide.
          -- rewrite Hkeep; [done|]. intros ->. apply Hm.
             apply list_elem_of_here.
        * apply elem_of_cons in Hk as [Hk|Hk]; [|by right].
          left. by apply Hhide.
      + intros k Hk. apply not_elem_of_cons in Hk as [Hne Hk].
        rewrite Hv by done. by apply (Hv' k). }
  destruct (Hgen ms st) as (? & ? & ? & ?).
  split_and!; try done.
  intros k anchorKey side t opts st'.
  split.
  - apply (Hgen _ st). right. apply list_elem_of_here.
  - intros Htrim Hne. unfold st'. simpl.
    change (applyMutation _ _) with
      (insertColumn anchorKey side k t opts (deleteColumn k (hideColumn k st))).
    by apply insert_after_delete.
Qed.

Lemma mutations_and_view_state_witness :
  columnVisibility
    (runMutations [HideColumn "email"; DeleteColumn "email";
                   InsertColumn "" SideRight "email" email []] demoState)
    !! "email"
  = Some false.
Proof.
  destruct (mutations_and_view_state
              [HideColumn "email"; DeleteColumn "email";
               InsertColumn "" SideRight "email" email []]
              demoState) as (_ & _ & Hhidden & _).
  apply Hhidden. right. apply list_elem_of_here.
Defined.

(** ** Row identifiers *)

Lemma getRowId_insert_ne (row : Row) (k : string) (v : Value) :
  k ≠ "id" → getRowId (<[k := v]> row) = getRowId row.
Proof.
  intros Hk. unfold getRowId, prop. by rewrite lookup_insert_ne.
Qed.

Lemma getRowId_delete_ne (row : Row) (k : string) :
  k ≠ "id" → getRowId (delete k row) = getRowId row.
Proof.
  intros Hk. unfold getRowId, prop. by rewrite lookup_delete_ne.
Qed.

Lemma ids_new_key (name : string) (v : Row → Value) (rws : list Row) :
  name ≠ "id" →
  getRowId <$> ((λ row : Row, <[name := v row]> row) <$> rws)
  = getRowId <$> rws.
Proof.
  intros Hne. rewrite <- list_fmap_compose.
  apply list_fmap_ext. intros _ row _. simpl. by apply getRowId_insert_ne.
Qed.

Lemma generated_name_not_id (keys : list string) (first : string)
    (next : nat → string) (name : string) :
  2 < String.length first → (∀ i, 2 < String.length (next i)) →
  freeName keys first next = Some name → name ≠ "id".
Proof.
  intros Hfirst Hnext Hname.
  apply whileIncludes_Some in Hname as [_ [[_ ->]|[_ (j & _ & -> & _)]]].
  - intros Heq. rewrite Heq in Hfirst. simpl in Hfirst. lia.
  - intros Heq. specialize (Hnext j). rewrite Heq in Hnext.
    simpl in Hnext. lia.
Qed.

(** X12.  The identifiers of the rows, [String(row.id ?? "")] in row
    order, under the column operations.  Duplicating, quick-adding,
    deleting and hiding a column never change them; renaming and
    inserting keep them unless the old or the new key is "id", and a cell
    write keeps them unless it writes under "id".  An insertion under
    the key "id" gives every row one and the same identifier, the string
    of the type's default value. *)
Theorem row_identifiers_kept (st : State) :
  (∀ k, getRowId <$> rows (duplicateColumn k st) = getRowId <$> rows st)
  ∧ (∀ t, getRowId <$> rows (quickAddColumn t st) = getRowId <$> rows st)
  ∧ (∀ k, getRowId <$> rows (deleteColumn k st) = getRowId <$> rows st)
  ∧ (∀ k, getRowId <$> rows (hideColumn k st) = getRowId <$> rows st)
  ∧ (∀ oldKey cand t opts,
       oldKey ≠ "id" → trim cand ≠ "id" →
       getRowId <$> rows (renameColumn oldKey cand t opts st)
       = getRowId <$> rows st)
  ∧ (∀ anchorKey side cand t opts,
       trim cand ≠ "id" →
       getRowId <$> rows (insertColumn anchorKey side cand t opts st)
       = getRowId <$> rows st)
  ∧ (∀ i k v,
       k ≠ "id" →
       getRowId <$> rows (setCellValue i k v st) = getRowId <$> rows st)
  ∧ (∀ anchorKey side t opts (row : Row),
       "id" ∉ columnKeys st →
       row ∈ rows (insertColumn anchorKey side "id" t opts st) →
       getRowId row = String_ (getDefaultValue t)).
Proof.
  split_and!.
  - intros k. destruct (decide (k ∈ columnKeys st)) as [Hin|Hout];
      [|unfold duplicateColumn; by rewrite onDuplicate_absent].
    destruct (columns_split_first k (columnConfigs st) Hin)
      as (pre & c & post & Hsplit & Hc & Hpre).
    destruct (freeName_copy_total (columnKeys st) k) as [copy Hcopy].
    destruct (onDuplicate_present st k copy pre post c Hsplit Hc Hpre Hcopy)
      as [_ Hrows].
    unfold duplicateColumn. rewrite Hrows.
    apply (ids_new_key copy
             (λ row, nullish (prop row k) (getDefaultValue (type c)))).
    eapply generated_name_not_id; [| | exact Hcopy].
    + rewrite string_app_length. simpl. lia.
    + intros i. unfold copyName. rewrite !string_app_length. simpl. lia.
  - intros t. unfold quickAddColumn.
    destruct (decide (t = select)) as [->|Ht];
      [by rewrite handleQuickAdd_select|].
    destruct (freeName_quick_total (columnKeys st) t) as [name Hname].
    destruct (handleQuickAdd_other st t name Ht Hname) as [_ Hrows].
    rewrite Hrows.
    apply (ids_new_key name (λ _, getDefaultValue t)).
    eapply generated_name_not_id; [| | exact Hname].
    + destruct t; simpl; lia.
    + intros i. unfold quickName. rewrite string_app_length.
      destruct t; simpl; lia.
  - done.
  - done.
  - intros oldKey cand t opts Hold Hnew.
    destruct (decide (trim cand = "")) as [Hempty|Hne].
    { unfold renameColumn. by rewrite handleDialogSubmit_empty. }
    destruct (decide (trim cand ≠ oldKey ∧ trim cand ∈ columnKeys st))
      as [[Hch Hin]|Hok].
    { unfold renameColumn.
      by rewrite (handleDialogSubmit_edit_collision _ oldKey). }
    destruct (handleDialogSubmit_edit
                (setDialog (Some (PEdit oldKey)) cand t opts "" st) oldKey)
      as (_ & Hrows & _); [done | done | simpl; tauto |].
    unfold renameColumn. rewrite Hrows. simpl.
    destruct (decide (trim cand = oldKey)); [done|].
    rewrite <- list_fmap_compose. apply list_fmap_ext.
    intros _ row _. simpl.
    rewrite getRowId_insert_ne by done. by apply getRowId_delete_ne.
  - intros anchorKey side cand t opts Hnew.
    destruct (decide (trim cand = "")) as [Hempty|Hne].
    { unfold insertColumn. by rewrite handleDialogSubmit_empty. }
    destruct (decide (trim cand ∈ columnKeys st)) as [Hin|Hfree].
    { unfold insertColumn.
      by rewrite (handleDialogSubmit_insert_collision _ anchorKey side). }
    destruct (insertColumn_accepted st anchorKey side cand t opts Hne Hfree)
      as (_ & Hrows & _).
    rewrite Hrows.
    by apply (ids_new_key (trim cand) (λ _, getDefaultValue t)).
  - intros i k v Hk. unfold setCellValue, onCellChange. simpl.
    apply list_eq. intros j.
    rewrite !list_lookup_fmap, list_lookup_imap.
    destruct (rows st !! j); [|done]. simpl.
    case_bool_decide; [|done]. by rewrite getRowId_insert_ne.
  - intros anchorKey side t opts row Hfree Hrow.
    destruct (insertColumn_accepted st anchorKey side "id" t opts)
      as (_ & Hrows & _); [by vm_compute | done |].
    rewrite Hrows in Hrow.
    apply list_elem_of_fmap in Hrow as (r & -> & _).
    unfold getRowId, prop.
    change (trim "id") with "id". rewrite lookup_insert_eq. simpl.
    by destruct t.
Qed.

Lemma row_identifiers_kept_witness :
  getRowId <$> rows (renameColumn "status" "state" text [] demoState)
  = ["728ed52f"].
Proof.
  destruct (row_identifiers_kept demoState) as (_ & _ & _ & _ & Hrename & _).
  rewrite Hrename.
  - reflexivity.
  - discriminate.
  - vm_compute. discriminate.
Defined.

(** ** Renaming there and back *)

Lemma dialogColumn_same (c : ColumnConfig) :
  (type c = select ↔ is_Some (options c)) →
  dialogColumn (key c) (type c) (default [] (options c)) = c.
Proof.
  intros Hopts. unfold dialogColumn. destruct c as [k t o]; simpl in *.
  f_equal. destruct (decide (t = select)) as [Ht|Ht].
  - by destruct (proj1 Hopts Ht) as [os ->].
  - destruct o as [os|]; [|done]. destruct Ht. apply Hopts. by eexists.
Qed.

(** X13.  Renaming a column to a fresh key and back, with its type and
    options, gives back the columns and the rows, provided the keys are
    pairwise distinct, both keys are non-empty and free of white space
    around them, the column has options exactly when it is a select
    column, and every row has an entry under the column's key and none
    under the fresh key. *)
Theorem rename_there_and_back (st : State) (c : ColumnConfig) (b : string) :
  keysDistinct st → c ∈ columnConfigs st →
  trim (key c) = key c → key c ≠ "" → trim b = b → b ≠ "" →
  b ∉ columnKeys st →
  (type c = select ↔ is_Some (options c)) →
  (∀ row : Row, row ∈ rows st → is_Some (row !! key c) ∧ row !! b = None) →
  let opts := default [] (options c) in
  let st1 := renameColumn (key c) b (type c) opts st in
  let st2 := renameColumn b (key c) (type c) opts st1 in
  (b ∈ columnKeys st1) ∧ (key c ∉ columnKeys st1)
  ∧ columnConfigs st2 = columnConfigs st
  ∧ rows st2 = rows st.
Proof.
  intros Hnd Hc Htrima Hnea Htrimb Hneb Hfresh Hopts Hrows opts st1 st2.
  assert (Hab : b ≠ key c).
  { intros ->. apply Hfresh. by apply list_elem_of_fmap_2. }
  destruct (handleDialogSubmit_edit
              (setDialog (Some (PEdit (key c))) b (type c) opts "" st) (key c))
    as (Hcols1 & Hrows1 & _); simpl; rewrite ?Htrimb; try done.
  fold (renameColumn (key c) b (type c) opts st) in Hcols1, Hrows1.
  fold st1 in Hcols1, Hrows1. simpl in Hcols1, Hrows1.
  rewrite Htrimb in Hcols1, Hrows1.
  rewrite decide_False in Hrows1 by done.
  assert (Hkeys1 : ∀ k, k ∈ columnKeys st1 →
            k = b ∨ (k ≠ key c ∧ k ∈ columnKeys st)).
  { intros k. unfold columnKeys. rewrite Hcols1.
    intros (d' & -> & (d & -> & Hd)%list_elem_of_fmap)%list_elem_of_fmap.
    destruct (decide (key d = key c)) as [?|Hne]; [by left|].
    right. split; [done|]. by apply list_elem_of_fmap_2. }
  assert (Hb1 : b ∈ columnKeys st1).
  { unfold columnKeys. rewrite Hcols1, <- list_fmap_compose.
    apply list_elem_of_fmap. exists c. split; [|done]. simpl.
    by rewrite decide_True. }
  assert (Ha1 : key c ∉ columnKeys st1).
  { intros [?|[? _]]%Hkeys1; congruence. }
  destruct (handleDialogSubmit_edit
              (setDialog (Some (PEdit b)) (key c) (type c) opts "" st1) b)
    as (Hcols2 & Hrows2 & _); simpl; rewrite ?Htrima; try done.
  fold (renameColumn b (key c) (type c) opts st1) in Hcols2, Hrows2.
  fold st2 in Hcols2, Hrows2. simpl in Hcols2, Hrows2.
  rewrite Htrima in Hcols2, Hrows2.
  rewrite decide_False in Hrows2 by done.
  split_and!; try done.
  - rewrite Hcols2, Hcols1, <- list_fmap_compose.
    rewrite <- (list_fmap_id (columnConfigs st)) at 2.
    apply list_fmap_ext. intros i d Hd. simpl.
    apply list_elem_of_lookup_2 in Hd.
    destruct (decide (key d = key c)) as [Hkey|Hkey].
    + assert (d = c) as -> by by apply (key_determines_column (columnConfigs st)).
      simpl. rewrite decide_True by done. by apply dialogColumn_same.
    + rewrite decide_False; [done|].
      intros Hdb. apply Hfresh. rewrite <- Hdb. by apply list_elem_of_fmap_2.
  - rewrite Hrows2, Hrows1, <- list_fmap_compose.
    rewrite <- (list_fmap_id (rows st)) at 2.
    apply list_fmap_ext. intros i row Hrow. simpl.
    apply list_elem_of_lookup_2 in Hrow.
    destruct (Hrows row Hrow) as [[v Hv] Hnone].
    unfold prop at 1. rewrite lookup_insert_eq. simpl.
    rewrite delete_insert_eq.
    rewrite (delete_id (delete (key c) row) b)
      by (by rewrite lookup_delete_ne).
    rewrite insert_delete_eq. apply insert_id.
    unfold prop. by rewrite Hv.
Qed.

Lemma rename_there_and_back_witness :
  let st1 := renameColumn "status" "state" text [] demoState in
  columnConfigs (renameColumn "state" "status" text [] st1)
    = columnConfigs demoState
  ∧ rows (renameColumn "state" "status" text [] st1) = rows demoState.
Proof.
  destruct (rename_there_and_back demoState
              (mkColumnConfig "status" text None) "state")
    as (_ & _ & Hcols & Hrows).
  - unfold keysDistinct. apply (bool_decide_unpack _). vm_compute. exact I.
  - apply list_elem_of_here.
  - reflexivity.
  - discriminate.
  - reflexivity.
  - discriminate.
  - by_includes.
  - simpl. split; [discriminate|]. intros [os Hos]. discriminate Hos.
  - intros row Hrow. apply list_elem_of_singleton in Hrow as ->.
    split; [by eexists | reflexivity].
  - split; [exact Hcols | exact Hrows].
Defined.

(** ** Aggregates and the order of the rows *)

(** X14.  The median and the order of the rows.  When the comparator
    [a - b] orders the values consistently and tells them apart, the
    median does not depend on the order of the values: a rearranged list
    has the same median.  The sum does depend on it in binary64: 1e16,
    1, -1e16 add up to 0 in this order and to 1 with the last two
    exchanged. *)
Theorem aggregates_ignore_row_order (values values' : list float) :
  (values ≡ₚ values' → consistentOn values → separatedOn values →
   computeAggregate values ModeMedian = computeAggregate values' ModeMedian)
  ∧ computeAggregate [1e16; 1; -1e16]%float ModeSum = 0%float
  ∧ computeAggregate [1e16; -1e16; 1]%float ModeSum = 1%float.
Proof.
  split_and!; [|by vm_compute..].
  intros Hperm Hc Hs.
  assert (Hlen : length values = length values')
    by (by apply Permutation_length).
  unfold computeAggregate.
  rewrite !sortBy_length, <- Hlen.
  by rewrite (sortBy_arrangement values values').
Qed.

Lemma aggregates_ignore_row_order_witness :
  computeAggregate [3; 1; 2; 4]%float ModeMedian
  = computeAggregate [1; 3; 2; 4]%float ModeMedian.
Proof.
  destruct (aggregates_ignore_row_order [3; 1; 2; 4]%float [1; 3; 2; 4]%float)
    as [Hmedian _].
  apply Hmedian.
  - apply Permutation_swap.
  - apply (bool_decide_unpack _). vm_compute. exact I.
  - repeat constructor; intros H1 H2; vm_compute in H1, H2;
      first [reflexivity | discriminate].
Defined.

(** X15.  The median is made of the values.  For an odd number of values
    the median is one of them; for an even number it is half the sum of
    two of them, both computed in binary64; and the median of one value
    is that value. *)
Theorem median_of_the_values (values : list float) :
  (length values mod 2 = 1 →
   computeAggregate values ModeMedian ∈ values)
  ∧ (values ≠ [] → length values mod 2 = 0 →
     ∃ a b, a ∈ values ∧ b ∈ values
       ∧ computeAggregate values ModeMedian
         = PrimFloat.div (PrimFloat.add a b) 2%float)
  ∧ (∀ v, computeAggregate [v] ModeMedian = v).
Proof.
  assert (Hat : ∀ i, i < length values →
            at_ (sortBy (λ a b, nSub a b) values) i ∈ values).
  { intros i Hi.
    assert (Hin : at_ (sortBy (λ a b, nSub a b) values) i
                  ∈ sortBy (λ a b, nSub a b) values).
    { apply at_elem. by rewrite sortBy_length. }
    eapply elem_of_Permutation_proper; [|exact Hin].
    symmetry. apply sortBy_Permutation. }
  split_and!.
  - intros Hodd. rewrite computeAggregate_median_odd by done.
    apply Hat. apply Nat.div_lt; [|lia].
    destruct values; [discriminate Hodd|]. simpl. lia.
  - intros Hne Heven. rewrite computeAggregate_median_even by done.
    assert (Hlen : 2 ≤ length values).
    { destruct values as [|? [|? ?]]; [done | discriminate Heven |].
      simpl. lia. }
    assert (length values / 2 < length values)
      by (apply Nat.div_lt; lia).
    eexists _, _. split_and!; [| |reflexivity]; apply Hat; lia.
  - done.
Qed.

Lemma median_of_the_values_witness :
  computeAggregate [3; 1; 2]%float ModeMedian ∈ [3; 1; 2]%float.
Proof.
  destruct (median_of_the_values [3; 1; 2]%float) as [Hodd _].
  apply Hodd. reflexivity.
Defined.

(** ** Display strings *)

Lemma pretty_N_go_nonempty (x : N) (s : string) :
  s ≠ "" → pretty_N_go x s ≠ "".
Proof.
  revert s. induction (N.lt_wf_0 x) as [x _ IH]; intros s Hs.
  destruct (decide (x = 0)%N) as [->|Hx]; [by rewrite pretty_N_go_0|].
  rewrite pretty_N_go_step by lia.
  apply IH; [apply N.div_lt; lia | done].
Qed.

Lemma pretty_Z_nonempty (z : Z) : pretty z ≠ "".
Proof.
  destruct z as [|p|p]; [done| |].
  - unfold pretty, pretty_Z, pretty, pretty_positive, pretty, pretty_N.
    rewrite decide_False by done.
    rewrite pretty_N_go_step by done. by apply pretty_N_go_nonempty.
  - unfold pretty, pretty_Z. intros Heq.
    apply (f_equal String.length) in Heq.
    rewrite string_app_length in Heq. simpl in Heq. lia.
Qed.

(** Number::toString beyond 2^53: rounding to binary64, the fewest
    digits, the exponent form from 1e21 on, and the digits of the
    integer below. *)
Lemma numberToString_examples :
  numberToString 100 = "100"
  ∧ numberToString (-42) = "-42"
  ∧ numberToString (2 ^ 53 + 1) = "9007199254740992"
  ∧ numberToString (2 ^ 64) = "18446744073709552000"
  ∧ numberToString (10 ^ 20) = "100000000000000000000"
  ∧ numberToString (10 ^ 21) = "1e+21"
  ∧ numberToString (- 10 ^ 21) = "-1e+21"
  ∧ numberToString (2 ^ 70) = "1.1805916207174113e+21"
  ∧ numberToString (10 ^ 23) = "1e+23"
  ∧ numberToString (2 ^ 1024) = "Infinity".
Proof. split_and!; by vm_compute. Qed.

Lemma string_app_nonempty (s t : string) : t ≠ "" → s +:+ t ≠ "".
Proof.
  intros Ht Heq. apply (f_equal String.length) in Heq.
  rewrite string_app_length in Heq. destruct t; [done|]. simpl in Heq. lia.
Qed.

Lemma formatDouble_nonempty (v : Z) : formatDouble v ≠ "".
Proof.
  unfold formatDouble. cbv zeta. case_bool_decide.
  - apply pretty_Z_nonempty.
  - by destruct (stripTrailingZeros (pretty v)) as [|c [|d r]].
Qed.

Lemma numberToString_nonempty (z : Z) : numberToString z ≠ "".
Proof.
  unfold numberToString. cbv zeta. destruct (Z.abs z <? 2 ^ 53)%Z.
  - apply pretty_Z_nonempty.
  - destruct (2 ^ 1024 <=? _)%Z.
    + by apply string_app_nonempty.
    + apply string_app_nonempty, formatDouble_nonempty.
Qed.

(** The string of a value is empty for the empty string and, among the
    values of other kinds, for those that [String] turns into it. *)
Lemma String_empty (v : Value) :
  String_ v = "" ↔ v = VStr "" ∨ ∃ b, v = VOther b "".
Proof.
  split; [|by intros [->|[b ->]]].
  destruct v as [ | | b | z | s | b s ];
    [done | done | by destruct b | | |]; simpl.
  - intros Hz. by destruct (numberToString_nonempty z).
  - intros ->. by left.
  - intros ->. right. by exists b.
Qed.

Lemma formatCellValue_nonempty_unfold `{Host} (value : Value) (t : ColumnType) :
  value ≠ VUndefined → value ≠ VNull → value ≠ VStr "" →
  formatCellValue value t =
    match t with
    | currency =>
        match Number_ value with
        | None => String_ value
        | Some n => "$" +:+ toLocaleFixed2 n
        end
    | percent =>
        match Number_ value with
        | None => String_ value
        | Some n => numToString n +:+ "%"
        end
    | phone => formatCellValue value phone
    | date =>
        match parseDate (String_ value) with
        | None => String_ value
        | Some d => toLocaleDateString d
        end
    | number =>
        match Number_ value with
        | None => String_ value
        | Some n => toLocaleString n
        end
    | _ => String_ value
    end.
Proof.
  intros Hu Hn He. unfold formatCellValue.
  rewrite bool_decide_eq_false_2 by (by intros [?|[?|?]]).
  by destruct t.
Qed.

Lemma formatCellValue_phone_nonempty `{Host} (value : Value) :
  value ≠ VUndefined → value ≠ VNull → String_ value ≠ "" →
  formatCellValue value phone ≠ "".
Proof.
  intros Hu Hn He.
  rewrite formatCellValue_phone_unfold by (done || by intros ->).
  cbv zeta. repeat case_match.
  - intros Heq. apply (f_equal String.length) in Heq.
    rewrite string_app_length in Heq. simpl in Heq. lia.
  - intros Heq. apply (f_equal String.length) in Heq.
    rewrite string_app_length in Heq. simpl in Heq. lia.
  - done.
Qed.

Lemma formatCellValue_plain `{Host} (value : Value) (t : ColumnType) :
  t ∈ [text; long_text; checkbox; select; email] →
  value ≠ VUndefined → value ≠ VNull →
  formatCellValue value t = String_ value.
Proof.
  intros Ht Hu Hn. destruct (decide (value = VStr "")) as [->|He].
  - by destruct t.
  - rewrite formatCellValue_nonempty_unfold by done.
    rewrite !elem_of_cons in Ht.
    destruct Ht as [->|[->|[->|[->|[->|Ht]]]]]; try done.
    by apply elem_of_nil in Ht.
Qed.

Lemma formatCellValue_empty_iff `{Host} (value : Value) (t : ColumnType) :
  t ∈ [text; long_text; checkbox; select; email; phone] →
  formatCellValue value t = ""
  ↔ value = VUndefined ∨ value = VNull ∨ String_ value = "".
Proof.
  intros Ht. split.
  - intros Hempty.
    destruct (decide (value = VUndefined)) as [|Hu]; [auto|].
    destruct (decide (value = VNull)) as [|Hn]; [auto|].
    destruct (decide (String_ value = "")) as [|He]; [auto|].
    exfalso. rewrite !elem_of_cons in Ht.
    destruct (decide (t = phone)) as [->|Hp].
    { by apply (formatCellValue_phone_nonempty value). }
    rewrite formatCellValue_plain in Hempty; try done.
    rewrite !elem_of_cons. tauto.
  - intros [-> | [-> | Hs]]; [by destruct t..|].
    destruct (decide (value = VUndefined)) as [->|Hu]; [done|].
    destruct (decide (value = VNull)) as [->|Hn]; [done|].
    destruct (decide (t = phone)) as [->|Hp].
    + destruct (decide (value = VStr "")) as [->|He]; [done|].
      rewrite formatCellValue_phone_unfold by done.
      cbv zeta. by rewrite Hs.
    + rewrite formatCellValue_plain; try done.
      rewrite !elem_of_cons in Ht. rewrite !elem_of_cons. tauto.
Qed.

(** X16.  What a cell of the types text, long text, checkbox, select,
    email and phone displays.  The display is empty exactly for null,
    for undefined and for the values whose string is empty: the empty
    string and, among the values that are no string, boolean or integer,
    those that [String] turns into it (an empty array).  For the first
    five types every value but null and undefined displays as its own
    string, so the checkbox value false displays "false" and the number
    0 displays "0".  A fresh cell, holding the default value of its
    column's type, displays the empty string in every type but
    checkbox, where it displays "false". *)
Theorem plain_display `{Host} (value : Value) (t : ColumnType) :
  (t ∈ [text; long_text; checkbox; select; email; phone] →
   (formatCellValue value t = ""
    ↔ value = VUndefined ∨ value = VNull ∨ String_ value = ""))
  ∧ (String_ value = "" ↔ value = VStr "" ∨ ∃ b, value = VOther b "")
  ∧ (t ∈ [text; long_text; checkbox; select; email] →
     value ≠ VUndefined → value ≠ VNull →
     formatCellValue value t = String_ value)
  ∧ formatCellValue (VBool false) checkbox = "false"
  ∧ formatCellValue (VNum 0) text = "0"
  ∧ formatCellValue (VOther true "") text = ""
  ∧ formatCellValue (getDefaultValue t) t
    = (if decide (t = checkbox) then "false" else "").
Proof.
  split_and!.
  - by apply formatCellValue_empty_iff.
  - apply String_empty.
  - by apply formatCellValue_plain.
  - done.
  - done.
  - done.
  - by destruct t.
Qed.

Lemma plain_display_witness :
  formatCellValue (H := noHost) (VBool true) checkbox = "true".
Proof.
  destruct (plain_display (H := noHost) (VBool true) checkbox)
    as (_ & _ & Hplain & _).
  apply Hplain.
  - do 2 apply list_elem_of_further. apply list_elem_of_here.
  - discriminate.
  - discriminate.
Defined.

(** ** Phone numbers *)

Lemma stripNonDigits_cons_digit (c : ascii) (r : string) :
  isDigit c = true → stripNonDigits (String c r) = String c (stripNonDigits r).
Proof. intros Hc. simpl. by rewrite Hc. Qed.

Lemma stripNonDigits_cons_other (c : ascii) (r : string) :
  isDigit c = false → stripNonDigits (String c r) = stripNonDigits r.
Proof. intros Hc. simpl. by rewrite Hc. Qed.

Lemma stripNonDigits_length (s : string) :
  String.length (stripNonDigits s) ≤ String.length s.
Proof.
  induction s as [|c r IH]; simpl; [done|].
  destruct (isDigit c); simpl; lia.
Qed.

Lemma digitsOnly_cons (c : ascii) (r : string) :
  digitsOnly (String c r) ↔ isDigit c = true ∧ digitsOnly r.
Proof.
  unfold digitsOnly. simpl. destruct (isDigit c) eqn:Hc.
  - split; [intros [= ?]; done | intros [_ ->]; done].
  - split; [|intros [? _]; done].
    intros Heq. pose proof (stripNonDigits_length r) as Hlen.
    rewrite Heq in Hlen. simpl in Hlen. lia.
Qed.

Lemma stripNonDigits_digitsOnly (s : string) : digitsOnly (stripNonDigits s).
Proof.
  induction s as [|c r IH]; simpl; [done|].
  destruct (isDigit c) eqn:Hc; [|done]. by apply digitsOnly_cons.
Qed.

Lemma digitsOnly_substring (n m : nat) (s : string) :
  digitsOnly s → digitsOnly (substring n m s).
Proof.
  revert n m. induction s as [|c r IH]; intros n m Hs.
  - by destruct n, m.
  - apply digitsOnly_cons in Hs as [Hc Hr].
    destruct n as [|n]; simpl.
    + destruct m as [|m]; [done|]. apply digitsOnly_cons. auto.
    + by apply IH.
Qed.

Lemma substring_0_length (m : nat) (s : string) :
  String.length (substring 0 m s) ≤ m.
Proof.
  revert m. induction s as [|c r IH]; intros [|m]; simpl; try lia.
  specialize (IH m). lia.
Qed.

Lemma substring_0_all (m : nat) (s : string) :
  String.length s ≤ m → substring 0 m s = s.
Proof.
  revert m. induction s as [|c r IH]; intros [|m] Hlen; simpl in *;
    try done; try lia.
  f_equal. apply IH. lia.
Qed.

(** Reading the digits of a string of digits and punctuation, one
    character at a time. *)
Ltac read_digits :=
  repeat first
    [ rewrite stripNonDigits_cons_digit by assumption
    | rewrite stripNonDigits_cons_other by reflexivity ].

Ltac digit_facts Hd :=
  repeat (apply digitsOnly_cons in Hd; destruct Hd as [? Hd]).

Lemma digits_of_ten (D : string) :
  digitsOnly D → String.length D = 10 →
  stripNonDigits
    ("(" +:+ strSlice 0 3 D +:+ ") " +:+ strSlice 3 6 D
         +:+ "-" +:+ strSliceFrom 6 D) = D.
Proof.
  intros Hd Hlen. explode_string D Hlen. digit_facts Hd.
  cbv [strSlice strSliceFrom substring String.length Nat.sub String.append].
  by read_digits.
Qed.

Lemma startsWith_1 (c : ascii) (r : string) :
  startsWith "1" (String c r) = true → c = "1"%char.
Proof.
  unfold startsWith.
  change (String.prefix "1" (String c r))
    with (match ascii_dec "1"%char c with
          | left _ => String.prefix "" r
          | right _ => false
          end).
  by destruct (ascii_dec "1"%char c) as [<-|].
Qed.

Lemma digits_of_eleven (D : string) :
  digitsOnly D → String.length D = 11 → startsWith "1" D = true →
  stripNonDigits
    ("+1 (" +:+ strSlice 1 4 D +:+ ") " +:+ strSlice 4 7 D
            +:+ "-" +:+ strSliceFrom 7 D) = D.
Proof.
  intros Hd Hlen Hone. explode_string D Hlen.
  apply startsWith_1 in Hone as ->. digit_facts Hd.
  cbv [strSlice strSliceFrom substring String.length Nat.sub String.append].
  by read_digits.
Qed.

(** X17.  The phone display is a fixed point of itself: displaying, as a
    phone number, the text that a value displays as gives that text
    again, for every value. *)
Theorem phone_display_idempotent `{Host} (value : Value) :
  formatCellValue (VStr (formatCellValue value phone)) phone
  = formatCellValue value phone.
Proof.
  destruct (decide (value = VUndefined)) as [->|Hu]; [done|].
  destruct (decide (value = VNull)) as [->|Hn]; [done|].
  destruct (decide (value = VStr "")) as [->|He]; [done|].
  destruct (decide (String_ value = "")) as [Hs|Hs].
  { rewrite (formatCellValue_phone_unfold value) by done.
    cbv zeta. by rewrite Hs. }
  pose proof (formatCellValue_phone_nonempty value Hu Hn Hs) as Hout.
  rewrite (formatCellValue_phone_unfold (VStr (formatCellValue value phone)))
    by congruence.
  simpl String_.
  rewrite (formatCellValue_phone_unfold value) by done.
  cbv zeta.
  set (D := stripNonDigits (String_ value)).
  assert (HD : digitsOnly D) by apply stripNonDigits_digitsOnly.
  destruct (bool_decide (String.length D = 10)) eqn:H10.
  - apply bool_decide_eq_true in H10.
    rewrite (digits_of_ten D HD H10).
    by rewrite (bool_decide_eq_true_2 _ H10).
  - destruct (bool_decide (String.length D = 11) && startsWith "1" D) eqn:H11.
    + apply andb_true_iff in H11 as [H11 Hone].
      apply bool_decide_eq_true in H11.
      rewrite (digits_of_eleven D HD H11 Hone).
      rewrite H10, (bool_decide_eq_true_2 _ H11), Hone. done.
    + fold D. by rewrite H10, H11.
Qed.

(** X18.  The phone editor.  What it stores is a string of at most ten
    decimal digits; the digits of the text it shows are the digits it
    stores, so typing the shown text again stores the same value, and
    after a change the input shows the formatting of what was typed.  For
    a text with exactly ten digits the editor shows what the read-only
    display shows. *)
Theorem phone_editor (raw : string) :
  let d := strSlice 0 10 (stripNonDigits raw) in
  phoneChange raw = VStr d
  ∧ digitsOnly d ∧ String.length d ≤ 10
  ∧ stripNonDigits (formatPhone raw) = d
  ∧ phoneChange (formatPhone raw) = phoneChange raw
  ∧ phoneShown (phoneChange raw) = formatPhone raw
  ∧ (String.length (stripNonDigits raw) = 10 →
     ∀ H : Host, formatCellValue (H := H) (VStr raw) phone = formatPhone raw).
Proof.
  intros d.
  assert (Hd : digitsOnly d).
  { apply digitsOnly_substring, stripNonDigits_digitsOnly. }
  assert (Hlen : String.length d ≤ 10) by apply substring_0_length.
  assert (Hdd : strSlice 0 10 d = d) by (by apply substring_0_all).
  assert (Hdigits : stripNonDigits (formatPhone raw) = d).
  { unfold formatPhone. fold d. clearbody d. clear Hdd.
    do 11 (destruct d as [|? d];
           [ simpl String.length; repeat case_bool_decide; try lia;
             digit_facts Hd;
             cbv [strSlice strSliceFrom substring String.length Nat.sub
                  String.append];
             by read_digits |]).
    simpl in Hlen. lia. }
  split_and!; try done.
  - unfold phoneChange. rewrite Hdigits. fold d. f_equal.
    by apply substring_0_all.
  - change (phoneShown (phoneChange raw)) with (formatPhone (stripNonDigits d)).
    unfold formatPhone. fold d.
    pose proof Hd as Hd'. unfold digitsOnly in Hd'.
    by rewrite !Hd', Hdd.
  - intros H10 H.
    assert (Hne : VStr raw ≠ VStr "").
    { intros [= ->]. discriminate H10. }
    rewrite formatCellValue_phone_unfold by done.
    simpl String_. cbv zeta.
    unfold formatPhone. fold d.
    assert (d = stripNonDigits raw) as Heq.
    { unfold d, strSlice. apply substring_0_all. lia. }
    rewrite Heq, H10.
    rewrite (bool_decide_eq_true_2 (10 = 10)) by done.
    rewrite (bool_decide_eq_false_2 (10 ≤ 3)) by lia.
    by rewrite (bool_decide_eq_false_2 (10 ≤ 6)) by lia.
Qed.

Lemma phone_editor_witness :
  formatCellValue (H := noHost) (VStr "555.123.4567") phone
  = formatPhone "555.123.4567".
Proof.
  destruct (phone_editor "555.123.4567") as (_ & _ & _ & _ & _ & _ & Hsame).
  apply Hsame. reflexivity.
Defined.

(** ** Editors and display *)

(** X19.  The editors against the read-only display.  For the types
    text, long text and email the input of the type's editor shows, for
    every value, what the display shows.  The select editor has no
    selection exactly for undefined, null and the empty string, where
    the display is empty too, and otherwise selects what the display
    shows.  The checkbox editor is unchecked exactly for the values that
    [Boolean] turns into false: undefined, null, false, 0, the empty
    string and, among the values of other kinds, the falsy ones (NaN);
    so it is unchecked where the display is empty because the value is
    undefined, null or the empty string.  An empty array is displayed as
    empty, but is checked and is selected as the empty string.  After a
    change the checkbox shows the state it has handed on. *)
Theorem editors_and_display `{Host} (value : Value) (t : ColumnType) :
  (t ∈ [text; long_text; email] →
   inputValue value = formatCellValue value t)
  ∧ (selectValue value = None
     ↔ value = VUndefined ∨ value = VNull ∨ value = VStr "")
  ∧ (selectValue value = None → formatCellValue value select = "")
  ∧ (∀ s, selectValue value = Some s → s = formatCellValue value select)
  ∧ (checkboxChecked value = false
     ↔ value ∈ [VUndefined; VNull; VBool false; VNum 0%Z; VStr ""]
       ∨ ∃ s, value = VOther false s)
  ∧ (value = VUndefined ∨ value = VNull ∨ value = VStr "" →
     formatCellValue value checkbox = "" ∧ checkboxChecked value = false)
  ∧ (formatCellValue (VOther true "") checkbox = ""
     ∧ checkboxChecked (VOther true "") = true
     ∧ selectValue (VOther true "") = Some "")
  ∧ (∀ b, checkboxChecked (checkboxChange b) = b).
Proof.
  assert (Hsel : select ∈ [text; long_text; checkbox; select; email]).
  { do 3 apply list_elem_of_further. apply list_elem_of_here. }
  pose proof (formatCellValue_plain value select Hsel) as Hplain.
  assert (Hnone : selectValue value = None
            ↔ value = VUndefined ∨ value = VNull ∨ value = VStr "").
  { split.
    - destruct value as [ | | b | z | [|c s] | b s ]; simpl; auto;
        discriminate.
    - by intros [-> | [-> | ->]]. }
  split_and!.
  - intros Ht.
    assert (Ht' : t ∈ [text; long_text; checkbox; select; email]).
    { rewrite !elem_of_cons in Ht. rewrite !elem_of_cons. tauto. }
    pose proof (formatCellValue_plain value t Ht') as Hp.
    destruct value as [ | | b | z | s | b s ]; try (by destruct t);
      symmetry; by apply Hp.
  - exact Hnone.
  - intros Hs. apply Hnone in Hs. by destruct Hs as [-> | [-> | ->]].
  - intros s Hs. rewrite Hplain; try done.
    + destruct value as [ | | b | z | [|c r] | b r ]; simpl in Hs |- *;
        congruence.
    + by intros ->.
    + by intros ->.
  - rewrite !elem_of_cons. split.
    + destruct value as [ | | [] | z | [|c r] | [] r ]; simpl;
        try discriminate; auto 7.
      * destruct (decide (z = 0%Z)) as [->|Hz]; [auto 7|].
        intros Hb. exfalso. unfold checkboxChecked, Boolean_ in Hb.
        by rewrite bool_decide_eq_false_2 in Hb.
      * intros _. right. by exists r.
    + intros [[-> | [-> | [-> | [-> | [-> | Hin]]]]] | [s ->]]; try done.
      by apply elem_of_nil in Hin.
  - by intros [-> | [-> | ->]].
  - done.
  - done.
  - done.
  - by intros [].
Qed.

Lemma editors_and_display_witness :
  inputValue (VNum 42) = formatCellValue (H := noHost) (VNum 42) email.
Proof.
  destruct (editors_and_display (H := noHost) (VNum 42) email) as (Hinput & _).
  apply Hinput. do 2 apply list_elem_of_further. apply list_elem_of_here.
Defined.

(** ** Adding a row and deleting it *)

Lemma filter_ext_elem {A} (P Q : A → Prop) `{∀ x, Decision (P x)}
    `{∀ x, Decision (Q x)} (l : list A) :
  (∀ x, x ∈ l → P x ↔ Q x) → filter P l = filter Q l.
Proof.
  induction l as [|x l IH]; intros Hext; [done|].
  rewrite !filter_cons.
  rewrite IH by (intros y Hy; apply Hext; by apply list_elem_of_further).
  destruct (Hext x (list_elem_of_here _ _)) as [H1 H2].
  destruct (decide (P x)), (decide (Q x)); tauto || done.
Qed.

(** X20.  Adding a row and then deleting the rows of its identifier
    gives the rows back, provided the keys are pairwise distinct, no
    column is keyed "id", and no row bears the identifier already or is
    identified by a property name of [Object.prototype]; and then the
    same deletion before the addition would have removed nothing. *)
Theorem add_then_delete_row (st : State) (uuid : string) :
  keysDistinct st → "id" ∉ columnKeys st →
  (∀ row : Row, row ∈ rows st →
     getRowId row ≠ uuid ∧ inObjectPrototype (getRowId row) = false) →
  rows (deleteRows {[ uuid ]} (addRow uuid st)) = rows st
  ∧ rows (deleteRows {[ uuid ]} st) = rows st.
Proof.
  intros Hnd Hid Hfresh.
  destruct (handleAddRow_fresh_id st uuid Hnd Hid) as (row & Hrows & Hrowid).
  assert (Hdel : ∀ s : State,
            rows (deleteRows {[ uuid ]} s)
            = filter (λ r, getRowId r ≠ uuid
                           ∧ inObjectPrototype (getRowId r) = false)
                (rows s)).
  { intros s. unfold deleteRows, handleDeleteSelectedRows. simpl.
    apply filter_ext_elem. intros r Hr.
    rewrite elem_of_selectedIds. simpl.
    rewrite isRowSelected_ids, elem_of_singleton, gset_to_gmap_empty_iff.
    split.
    - intros Hn. split.
      + intros Heq. apply Hn. split; [by apply non_empty_singleton_L|].
        split; [by left|]. by exists r.
      + destruct (inObjectPrototype (getRowId r)) eqn:Hp; [|done].
        exfalso. apply Hn. split; [by apply non_empty_singleton_L|].
        split; [by right|]. by exists r.
    - intros [Hne Hp] (_ & [Heq|Hsel] & _); [done|].
      by rewrite Hp in Hsel. }
  split.
  - rewrite Hdel. unfold addRow. rewrite Hrows, filter_app.
    rewrite filter_cons_False, filter_nil by (by intros [? _]).
    rewrite app_nil_r. apply filter_all. intros r Hr. by apply Hfresh.
  - rewrite Hdel. apply filter_all. intros r Hr. by apply Hfresh.
Qed.

Lemma add_then_delete_row_witness :
  rows (deleteRows {[ "0b0e1d0c" ]} (addRow "0b0e1d0c" demoState))
  = rows demoState.
Proof.
  destruct (add_then_delete_row demoState "0b0e1d0c") as [Hback _].
  - unfold keysDistinct. apply (bool_decide_unpack _). vm_compute. exact I.
  - by_includes.
  - intros row Hrow. apply list_elem_of_singleton in Hrow as ->.
    split; [vm_compute; discriminate | by vm_compute].
  - exact Hback.
Defined.

(** ** The invariants under mutations and under the user interface *)

Lemma rowsCompleteButProto_complete (st : State) :
  "__proto__" ∉ columnKeys st → rowsCompleteButProto st → rowsComplete st.
Proof.
  intros Hproto Hinv row Hrow k Hk. apply (Hinv row Hrow k Hk).
  by intros ->.
Qed.

Lemma rowsComplete_ButProto (st : State) :
  rowsComplete st → rowsCompleteButProto st.
Proof.
  intros Hinv row Hrow k Hk _. by apply (Hinv row).
Qed.

(** X23.  The invariants of the table under the mutations.  From a table
    with pairwise distinct column keys whose rows have an entry for
    every column key other than "__proto__", every sequence of
    mutations (rename, insert, duplicate, quick add, delete and hide a
    column, add a row, delete rows, set a cell) ends in such a table.
    The rows have an entry for every column key, "__proto__" included,
    if they had at the start and the sequence adds no row, and whenever
    no column is keyed "__proto__" at the end. *)
Theorem mutations_keep_invariants (ms : list Mutation) (st : State) :
  keysDistinct st → rowsCompleteButProto st →
  keysDistinct (runMutations ms st)
  ∧ rowsCompleteButProto (runMutations ms st)
  ∧ (rowsComplete st → (∀ uuid, AddRow uuid ∉ ms) →
     rowsComplete (runMutations ms st))
  ∧ ("__proto__" ∉ columnKeys (runMutations ms st) →
     rowsComplete (runMutations ms st)).
Proof.
  intros Hdistinct Hcomplete.
  destruct (runMutations_invariants (λ k, k ≠ "__proto__") ms st)
    as [Hd Hc]; [by left | done |].
  split_and!; [done | done | |].
  - intros Hfull Hadd. apply rowsComplete_On.
    apply (runMutations_invariants (λ _, True) ms st); [by right|].
    split; [done|]. by apply rowsComplete_On.
  - intros Hproto. by apply rowsCompleteButProto_complete.
Qed.

Lemma mutations_keep_invariants_witness :
  keysDistinct (runMutations demoMutations demoState)
  ∧ rowsCompleteButProto (runMutations demoMutations demoState).
Proof.
  destruct (mutations_keep_invariants demoMutations demoState)
    as (Hd & Hc & _).
  - unfold keysDistinct. apply (bool_decide_unpack _). vm_compute. exact I.
  - intros row Hrow k Hk _.
    apply list_elem_of_singleton in Hrow as ->.
    unfold columnKeys in Hk. simpl in Hk.
    rewrite !elem_of_cons in Hk.
    destruct Hk as [->|[->|[->|Hk]]];
      [..|by apply elem_of_nil in Hk];
      apply (bool_decide_unpack _); vm_compute; exact I.
  - by split.
Defined.

Lemma uiStep_invariants (P : string → Prop) (e : UiEvent) (st : State) :
  (∀ k, P k → k ≠ "__proto__") ∨ (∀ uuid, e ≠ EvAddRow uuid) →
  keysDistinct st ∧ rowsCompleteOn P st →
  keysDistinct (uiStep e st) ∧ rowsCompleteOn P (uiStep e st).
Proof.
  intros HP Hinv. destruct e; simpl.
  - apply (invariants_same_table P st); [..|done]; unfold onEdit, openDialog;
      done.
  - by apply duplicateColumn_invariants.
  - done.
  - done.
  - done.
  - done.
  - by apply deleteColumn_invariants.
  - by apply setCellValue_invariants.
  - destruct (formStep_table e st) as (Hc & Hr & _).
    by apply (invariants_same_table P st).
  - by apply handleDialogSubmit_invariants.
  - done.
  - by apply quickAddColumn_invariants.
  - destruct HP as [HP|HP]; [by apply addRow_invariants|].
    by destruct (HP uuid).
  - done.
  - by apply handleDeleteSelectedRows_invariants.
  - done.
Qed.

Lemma runUi_invariants (P : string → Prop) (es : list UiEvent) (st : State) :
  (∀ k, P k → k ≠ "__proto__") ∨ (∀ uuid, EvAddRow uuid ∉ es) →
  keysDistinct st ∧ rowsCompleteOn P st →
  keysDistinct (runUi es st) ∧ rowsCompleteOn P (runUi es st).
Proof.
  revert st. induction es as [|e es IH]; intros st HP Hinv; [done|].
  apply IH.
  - destruct HP as [HP|HP]; [by left|right].
    intros uuid Hin. apply (HP uuid). by apply list_elem_of_further.
  - apply uiStep_invariants; [|done].
    destruct HP as [HP|HP]; [by left|right].
    intros uuid ->. apply (HP uuid), list_elem_of_here.
Qed.

(** X21.  The invariants of the table under the user interface.  From a
    table with pairwise distinct column keys whose rows have an entry for
    every column key other than "__proto__", every sequence of events
    (column menus, cell edits, the dialog form with submit and cancel,
    quick adds, row selection, adding and deleting rows, footer menus),
    in any order and whatever the dialog holds, ends in such a table.
    The rows have an entry for every column key, "__proto__" included,
    if they had at the start and no row is added, and whenever no column
    is keyed "__proto__" at the end. *)
Theorem ui_events_keep_invariants (es : list UiEvent) (st : State) :
  keysDistinct st → rowsCompleteButProto st →
  keysDistinct (runUi es st)
  ∧ rowsCompleteButProto (runUi es st)
  ∧ (rowsComplete st → (∀ uuid, EvAddRow uuid ∉ es) →
     rowsComplete (runUi es st))
  ∧ ("__proto__" ∉ columnKeys (runUi es st) → rowsComplete (runUi es st)).
Proof.
  intros Hdistinct Hcomplete.
  destruct (runUi_invariants (λ k, k ≠ "__proto__") es st)
    as [Hd Hc]; [by left | done |].
  split_and!; [done | done | |].
  - intros Hfull Hadd. apply rowsComplete_On.
    apply (runUi_invariants (λ _, True) es st); [by right|].
    split; [done|]. by apply rowsComplete_On.
  - intros Hproto. by apply rowsCompleteButProto_complete.
Qed.

Lemma ui_events_keep_invariants_witness :
  keysDistinct (runUi demoEvents demoState)
  ∧ rowsCompleteButProto (runUi demoEvents demoState).
Proof.
  destruct (ui_events_keep_invariants demoEvents demoState)
    as (Hd & Hc & _).
  - unfold keysDistinct. apply (bool_decide_unpack _). vm_compute. exact I.
  - intros row Hrow k Hk _.
    apply list_elem_of_singleton in Hrow as ->.
    unfold columnKeys in Hk. simpl in Hk.
    rewrite !elem_of_cons in Hk.
    destruct Hk as [->|[->|[->|Hk]]];
      [..|by apply elem_of_nil in Hk];
      apply (bool_decide_unpack _); vm_compute; exact I.
  - by split.
Defined.

(** ** The aggregate modes of the footer *)

Lemma uiStep_aggregateModes (e : UiEvent) (st : State) :
  (∀ k m, e ≠ EvAggregateMode k m) →
  aggregateModes (uiStep e st) = aggregateModes st.
Proof.
  intros He. destruct e as [| | | | | | | |e| | | | | | |k m]; simpl; try done.
  - apply onDuplicate_view.
  - destruct e; simpl; try done.
    unfold addOption. by case_match.
  - apply handleDialogSubmit_view.
  - apply handleQuickAdd_view.
  - by destruct (He k m).
Qed.

Lemma uiStep_aggregateModeOf (e : UiEvent) (st : State) (k : string) :
  (∀ m, e ≠ EvAggregateMode k m) →
  aggregateModeOf k (uiStep e st) = aggregateModeOf k st.
Proof.
  intros He. unfold aggregateModeOf.
  assert (Hcases : (∃ k' m, e = EvAggregateMode k' m)
                   ∨ ∀ k' m, e ≠ EvAggregateMode k' m).
  { destruct e; try (by right); left; by eexists _, _. }
  destruct Hcases as [(k' & m & ->)|Hne].
  - simpl. rewrite lookup_insert_ne; [done|]. intros ->. by apply (He m).
  - by rewrite uiStep_aggregateModes.
Qed.

(** X22.  The aggregate modes of the footer are kept per column key.
    Choosing a mode for a key sets the mode of that key and of no other,
    and touches neither the columns nor the rows.  No other event of the
    user interface changes the mode of a key; so a column that is
    deleted and inserted again under its key has the mode chosen before,
    and a renamed column has the mode that was stored under its new key.
    Where no mode is stored the footer reads sum, except under a key that
    is a property name of [Object.prototype] (such as "constructor"),
    where it reads no mode at all. *)
Theorem aggregate_mode_per_key (st : State) (k : string) (m : AggregateMode) :
  aggregateModeOf k (setAggregateMode k m st) = Some m
  ∧ (∀ k', k' ≠ k →
       aggregateModeOf k' (setAggregateMode k m st) = aggregateModeOf k' st)
  ∧ columnConfigs (setAggregateMode k m st) = columnConfigs st
  ∧ rows (setAggregateMode k m st) = rows st
  ∧ (∀ es, (∀ m', EvAggregateMode k m' ∉ es) →
       aggregateModeOf k (runUi es st) = aggregateModeOf k st)
  ∧ (∀ anchorKey side t opts,
       aggregateModeOf k
         (insertColumn anchorKey side k t opts
            (deleteColumn k (setAggregateMode k m st))) = Some m)
  ∧ (∀ oldKey cand t opts,
       aggregateModeOf (trim cand) (renameColumn oldKey cand t opts st)
       = aggregateModeOf (trim cand) st)
  ∧ (aggregateModes st !! k = None →
     aggregateModeOf k st
     = if inObjectPrototype k then None else Some ModeSum).
Proof.
  split_and!.
  - unfold aggregateModeOf. simpl. by rewrite lookup_insert_eq.
  - intros k' Hne. unfold aggregateModeOf. simpl.
    by rewrite lookup_insert_ne.
  - done.
  - done.
  - intros es. revert st. induction es as [|e es IH]; intros st Hes; [done|].
    simpl. rewrite IH.
    + apply uiStep_aggregateModeOf. intros m' ->.
      apply (Hes m'), list_elem_of_here.
    + intros m' Hin. apply (Hes m'). by apply list_elem_of_further.
  - intros anchorKey side t opts. unfold aggregateModeOf, insertColumn.
    destruct (handleDialogSubmit_view
                (setDialog (Some (PInsert anchorKey side)) k t opts ""
                   (deleteColumn k (setAggregateMode k m st))))
      as (_ & _ & -> & _).
    simpl. by rewrite lookup_insert_eq.
  - intros oldKey cand t opts. unfold aggregateModeOf, renameColumn.
    by destruct (handleDialogSubmit_view
                (setDialog (Some (PEdit oldKey)) cand t opts "" st))
      as (_ & _ & -> & _).
  - intros Hnone. unfold aggregateModeOf. by rewrite Hnone.
Qed.

Lemma aggregate_mode_per_key_witness :
  aggregateModeOf "amount"
    (runUi demoEvents (setAggregateMode "amount" ModeMedian demoState))
  = Some ModeMedian
  ∧ aggregateModeOf "status" demoState = Some ModeSum
  ∧ aggregateModeOf "constructor" demoState = None.
Proof.
  destruct (aggregate_mode_per_key
              (setAggregateMode "amount" ModeMedian demoState)
              "amount" ModeMedian) as (_ & _ & _ & _ & Hkept & _).
  destruct (aggregate_mode_per_key demoState "status" ModeSum)
    as (_ & _ & _ & _ & _ & _ & _ & Hstatus).
  destruct (aggregate_mode_per_key demoState "constructor" ModeSum)
    as (_ & _ & _ & _ & _ & _ & _ & Hconstructor).
  split_and!.
  - rewrite (Hkept demoEvents).
    + reflexivity.
    + intros m' Hin. unfold demoEvents in Hin.
      repeat (apply elem_of_cons in Hin as [Hin|Hin]; [discriminate|]).
      by apply elem_of_nil in Hin.
  - by rewrite Hstatus.
  - by rewrite Hconstructor.
Defined.
